(** * The Dataflow runner of the Go SDK: [Execute] and [gcsRecorderHook]

    A shallow embedding of [sdks/go/pkg/beam/runners/dataflow/dataflow.go].
    The file has two functions.  [Execute] gathers the job options from the
    flags, builds and marshals the pipeline, draws the names of the two staged
    objects and either prints the translated job (dry run) or submits it.
    [gcsRecorderHook] parses a GCS location once and returns the function that
    writes a profile under it.

    Both functions do little computing of their own: they call into other
    packages ([gcsx], [graphx], [dataflowlib], [jobopts], [hooks], [perf],
    [encoding/json], [path], [time]).  Those packages are the interface
    [Collaborators] below; the embedding is parametric in it.  What the two
    functions do themselves (the order of the checks, which error is
    returned and how it is worded, which collaborator is called with which
    arguments, the counter behind the object names) is modelled as written.
    The parse of the labels, [json.Unmarshal], has a model besides, [Json],
    made from what the specification says of the labels. *)

From stdpp Require Import gmap strings pretty list.
From Stdlib Require Import ZArith Lia Ascii.

(** ** Go values *)

(** An [error] is an interface value.  [errors.New] and [fmt.Errorf] make an
    [errorString]; anything a collaborator makes of another dynamic type is a
    [collaboratorError], told apart by its type name. *)
Inductive error :=
| errorString (s : string)
| collaboratorError (type_name : string) (s : string).

(** The method [Error()]. *)
Definition Error (e : error) : string :=
  match e with
  | errorString s => s
  | collaboratorError _ s => s
  end.

Definition errors_New (text : string) : error := errorString text.

(** [fmt.Errorf(format, err)] for a format that ends in its only verb, [%v]:
    the text before the verb followed by [err.Error()].  The result is a new
    [errorString]; the cause is kept as text only. *)
Definition fmt_Errorf (before_verb : string) (err : error) : error :=
  errorString (before_verb +:+ Error err).

#[global] Instance error_eq_dec : EqDecision error.
Proof. solve_decision. Defined.

(** [int32] arithmetic wraps around. *)
Definition wrap32 (z : Z) : Z := ((z + 2 ^ 31) `mod` 2 ^ 32 - 2 ^ 31)%Z.

Definition int32 (z : Z) : Prop := (- 2 ^ 31 ≤ z < 2 ^ 31)%Z.

(** [%v] of an integer is its decimal form, with a minus sign when negative. *)
Definition fmt_int (z : Z) : string := pretty z.

(** [%s] of a [[]string]: the elements between brackets, separated by one
    space. *)
Fixpoint fmt_elems (l : list string) : string :=
  match l with
  | [] => ""
  | [s] => s
  | s :: l' => s +:+ " " +:+ fmt_elems l'
  end.

Definition fmt_strings (l : list string) : string :=
  "[" +:+ fmt_elems l +:+ "]".

(** A function of this package either returns or panics. *)
Inductive result (A : Type) :=
| Ret (a : A)
| Panic (v : string).
Arguments Ret {A} a.
Arguments Panic {A} v.

(** A Go function returning [(T, error)]. *)
Inductive fallible (A : Type) :=
| Success (a : A)
| Failure (err : error).
Arguments Success {A} a.
Arguments Failure {A} err.

(** A [map[string]string]; [None] is the nil map. *)
Abbreviation labelmap := (option (gmap string string)).

(** ** The flags of the package *)

Record Flags := {
  endpoint : string;
  stagingLocation : string;
  image : string;
  labels : string;
  numWorkers : Z;
  zone : string;
  region : string;
  network : string;
  tempLocation : string;
  machineType : string;
  minCPUPlatform : string;
  dryRun : bool;
  teardownPolicy : string;
  cpuProfiling : string;
  sessionRecording : string;
}.

Definition set_image (v : string) (f : Flags) : Flags :=
  {| endpoint := endpoint f; stagingLocation := stagingLocation f; image := v;
     labels := labels f; numWorkers := numWorkers f; zone := zone f;
     region := region f; network := network f; tempLocation := tempLocation f;
     machineType := machineType f; minCPUPlatform := minCPUPlatform f;
     dryRun := dryRun f; teardownPolicy := teardownPolicy f;
     cpuProfiling := cpuProfiling f; sessionRecording := sessionRecording f |}.

(** [dataflowlib.JobOptions], as far as [Execute] fills it in. *)
Record JobOptions (RawOptions : Type) := {
  Name : string;
  Experiments : list string;
  Options : RawOptions;
  Project : string;
  Region : string;
  Zone : string;
  Network : string;
  NumWorkers : Z;
  MachineType : string;
  Labels : labelmap;
  TempLocation : string;
  Worker : string;
  TeardownPolicy : string;
}.
Arguments Name {_} _.
Arguments Experiments {_} _.
Arguments Options {_} _.
Arguments Project {_} _.
Arguments Region {_} _.
Arguments Zone {_} _.
Arguments Network {_} _.
Arguments NumWorkers {_} _.
Arguments MachineType {_} _.
Arguments Labels {_} _.
Arguments TempLocation {_} _.
Arguments Worker {_} _.
Arguments TeardownPolicy {_} _.

Definition set_TempLocation {R} (v : string) (o : JobOptions R)
  : JobOptions R :=
  {| Name := Name o; Experiments := Experiments o; Options := Options o;
     Project := Project o; Region := Region o; Zone := Zone o;
     Network := Network o; NumWorkers := NumWorkers o;
     MachineType := MachineType o; Labels := Labels o; TempLocation := v;
     Worker := Worker o; TeardownPolicy := TeardownPolicy o |}.

(** ** The other packages *)

(** The types are opaque types of other packages.  The two functions of the
    storage client, which the hook may call again with the arguments it was
    called with before, take the number of calls the process has made so far
    ([nat]), so that two such calls need not agree; so does the clock.
    [gcsx.Join] returns a string and nothing else: where it does not return
    (a panic) it is [None]. *)
Class Collaborators := {
  Pipeline : Type;      (* beam.Pipeline *)
  Edges : Type;         (* what p.Build() yields and graphx.Marshal takes *)
  Model : Type;         (* the pipeline proto *)
  RawOptions : Type;    (* beam.PipelineOptions.Export() *)
  Job : Type;           (* what dataflowlib.Translate yields *)
  JobResult : Type;     (* first result of dataflowlib.Execute *)
  Client : Type;        (* the GCS client *)
  Reader : Type;        (* io.Reader *)

  gcpopts_Project : string;
  jobopts_WorkerBinary : string;
  jobopts_GetContainerImage : string;
  jobopts_GetExperiments : list string;
  jobopts_GetJobName : string;
  PipelineOptions_Export : RawOptions;

  json_Unmarshal : list Byte.byte → labelmap → labelmap * option error;
  gcsx_Join : string → string → option string;
  gcsx_ParseObject : string → fallible (string * string);
  gcsx_NewClient : nat → fallible Client;
  gcsx_WriteObject :
    nat → Client → string → string → Reader → option error;
  path_Join : string → string → string;
  time_Now_UnixNano : nat → Z;

  Pipeline_Build : Pipeline → fallible Edges;
  graphx_Marshal : Edges → string → fallible Model;
  proto_MarshalTextString : Model → string;
  dataflowlib_Translate :
    Model → JobOptions RawOptions → string → string → fallible Job;
  dataflowlib_Execute :
    Model → JobOptions RawOptions → string → string → string → bool →
    fallible JobResult;
}.

(** ** The process: state, calls made, and the monad of this package *)

Section Dataflow.
Context `{C : Collaborators}.

(** The calls the trace records, in the order they are made: the resolution
    of the image, the parse of the labels, the two calls on the hooks, the
    build and the marshalling of the pipeline, the log, the translation, the
    printing and the submission of the job, and the two calls on the storage
    client.  The calls that answer differently from one time to the next
    carry their answer.

    The other calls of the file leave no event.  [jobopts.GetExperiments]
    (line 114), [jobopts.GetJobName] (line 120),
    [beam.PipelineOptions.Export] (line 122), [gcsx.Join] (lines 135, 150 and
    151), [gcsx.ParseObject], [path.Join], [proto.MarshalTextString] and the
    formatting functions are read as values of [Collaborators];
    [atomic.AddInt32] and [time.Now] are steps on the [state] below.  A
    statement about the trace speaks of the recorded calls only. *)
Inductive event :=
| GetContainerImage
| Unmarshal (data : list Byte.byte)
| EnableProfCaptureHook (name : string) (opt : string)
| SerializeHooksToOptions
| Build (p : Pipeline)
| Marshal (edges : Edges) (containerImageURL : string)
| LogInfo (msg : string)
| Translate (model : Model) (opts : JobOptions RawOptions)
    (workerURL modelURL : string)
| PrintJob (job : Job)
| Submit (model : Model) (opts : JobOptions RawOptions)
    (workerURL modelURL endpoint : string) (async : bool)
    (answer : fallible JobResult)
| NewClient (answer : fallible Client)
| WriteObject (client : Client) (bucket object : string) (r : Reader)
    (answer : option error).

(** [unique] is the package variable behind the object names, [flags] the
    flag variables ([Execute] writes [*image]), [ticks] counts the readings of
    the clock, [trace] is the list of calls made, oldest first. *)
Record state := {
  flags : Flags;
  unique : Z;
  ticks : nat;
  trace : list event;
}.

Definition M (A : Type) : Type := state → result A * state.

Definition ret {A} (a : A) : M A := λ s, (Ret a, s).

Definition bind {A B} (m : M A) (k : A → M B) : M B :=
  λ s, match m s with
       | (Ret a, s') => k a s'
       | (Panic v, s') => (Panic v, s')
       end.

Definition panic {A} (v : string) : M A := λ s, (Panic v, s).

Definition call (ev : event) : M () :=
  λ s, (Ret (), {| flags := flags s; unique := unique s; ticks := ticks s;
                   trace := trace s ++ [ev] |}).

(** How many calls have been made: the index of the next answer. *)
Definition calls : M nat := λ s, (Ret (length (trace s)), s).

Definition flag {A} (f : Flags → A) : M A := λ s, (Ret (f (flags s)), s).

Definition store_image (v : string) : M () :=
  λ s, (Ret (), {| flags := set_image v (flags s); unique := unique s;
                   ticks := ticks s; trace := trace s |}).

(** [atomic.AddInt32(&unique, delta)]: one indivisible step that adds and
    returns the new value. *)
Definition atomic_AddInt32_unique (delta : Z) : M Z :=
  λ s, let new := wrap32 (unique s + delta) in
       (Ret new, {| flags := flags s; unique := new; ticks := ticks s;
                    trace := trace s |}).

(** [time.Now().UnixNano()]. *)
Definition time_Now : M Z :=
  λ s, (Ret (time_Now_UnixNano (ticks s)),
        {| flags := flags s; unique := unique s; ticks := S (ticks s);
           trace := trace s |}).

Definition Join (object elm : string) : M string :=
  match gcsx_Join object elm with
  | Some url => ret url
  | None => panic "gcsx.Join"
  end.

Notation "x <- c1 ;; c2" := (bind c1 (λ x, c2))
  (at level 100, c1 at next level, right associativity).
Notation "c1 ;; c2" := (bind c1 (λ _, c2))
  (at level 100, right associativity).

(** ** [Execute] *)

(** [fmt.Sprintf("model-%v-%v", id, now)], and the same with ["worker-"]. *)
Definition objectName (kind : string) (id now : Z) : string :=
  kind +:+ fmt_int id +:+ "-" +:+ fmt_int now.

(** [gcsx.Join( *stagingLocation, fmt.Sprintf(kind+"%v-%v", id,
    time.Now().UnixNano()))]: the right-hand side of lines 150 and 151. *)
Definition stagedURL (kind : string) (id : Z) : M string :=
  staging <- flag stagingLocation ;;
  now <- time_Now ;;
  Join staging (objectName kind id now).

(** The first half of [Execute], under its comment [(1) Gather job options]:
    from the check of the project to the default of the temp location.  It
    ends either in the error [Execute] returns there or in [opts]. *)
Definition Execute_gather : M (fallible (JobOptions RawOptions)) :=
  let project := gcpopts_Project in
  if decide (project = "") then
    ret (Failure (errors_New
      "no Google Cloud project specified. Use --project=<project>"))
  else
  staging <- flag stagingLocation ;;
  if decide (staging = "") then
    ret (Failure (errors_New
      "no GCS staging location specified. Use --staging_location=gs://<bucket>/<path>"))
  else
  img <- flag image ;;
  (if decide (img = "") then
     call GetContainerImage ;; store_image jobopts_GetContainerImage
   else ret ()) ;;
  lbl <- flag labels ;;
  parsed <- (if decide (lbl ≠ "") then
               call (Unmarshal (String.list_byte_of_string lbl)) ;;
               ret (json_Unmarshal (String.list_byte_of_string lbl) None)
             else ret (None, None)) ;;
  match parsed with
  | (_, Some err) =>
      ret (Failure (fmt_Errorf "error reading --label flag as JSON: " err))
  | (jobLabels, None) =>
  prof <- flag cpuProfiling ;;
  (if decide (prof ≠ "") then
     call (EnableProfCaptureHook "gcs_profile_writer" prof)
   else ret ()) ;;
  call SerializeHooksToOptions ;;
  minCPU <- flag minCPUPlatform ;;
  let experiments :=
    if decide (minCPU ≠ "") then
      jobopts_GetExperiments ++ ["min_cpu_platform=" +:+ minCPU]
    else jobopts_GetExperiments in
  fl <- flag id ;;
  let opts :=
    {| Name := jobopts_GetJobName;
       Experiments := experiments;
       Options := PipelineOptions_Export;
       Project := project;
       Region := region fl;
       Zone := zone fl;
       Network := network fl;
       NumWorkers := numWorkers fl;
       MachineType := machineType fl;
       Labels := jobLabels;
       TempLocation := tempLocation fl;
       Worker := jobopts_WorkerBinary;
       TeardownPolicy := teardownPolicy fl |} in
  if decide (TempLocation opts = "") then
    tmp <- Join staging "tmp" ;;
    ret (Success (set_TempLocation tmp opts))
  else ret (Success opts)
  end.

(** The second half, under its comment [(1) Build and submit]. *)
Definition Execute_submit (p : Pipeline) (opts : JobOptions RawOptions)
  : M (option error) :=
  call (Build p) ;;
  match Pipeline_Build p with
  | Failure err => ret (Some err)
  | Success edges =>
  img <- flag image ;;
  call (Marshal edges img) ;;
  match graphx_Marshal edges img with
  | Failure err =>
      ret (Some (fmt_Errorf "failed to generate model pipeline: " err))
  | Success model =>
  id <- atomic_AddInt32_unique 1 ;;
  modelURL <- stagedURL "model-" id ;;
  workerURL <- stagedURL "worker-" id ;;
  dry <- flag dryRun ;;
  if dry then
    call (LogInfo "Dry-run: not submitting job!") ;;
    call (LogInfo (proto_MarshalTextString model)) ;;
    call (Translate model opts workerURL modelURL) ;;
    match dataflowlib_Translate model opts workerURL modelURL with
    | Failure err => ret (Some err)
    | Success job =>
        call (PrintJob job) ;;
        ret None
    end
  else
    ep <- flag endpoint ;;
    let answer := dataflowlib_Execute model opts workerURL modelURL ep false in
    call (Submit model opts workerURL modelURL ep false answer) ;;
    match answer with
    | Failure err => ret (Some err)
    | Success _ => ret None
    end
  end
  end.

(** [Execute(ctx, p)]. *)
Definition Execute (p : Pipeline) : M (option error) :=
  gathered <- Execute_gather ;;
  match gathered with
  | Failure err => ret (Some err)
  | Success opts => Execute_submit p opts
  end.

(** ** [gcsRecorderHook] *)

(** [perf.CaptureHook]: [func(ctx, spec string, r io.Reader) error]. *)
Definition CaptureHook : Type := string → Reader → M (option error).

(** The function literal that [gcsRecorderHook] returns, with the two
    variables it closes over. *)
Definition gcsRecorderHook_func (bucket prefix : string) : CaptureHook :=
  λ spec r,
    n <- calls ;;
    let got := gcsx_NewClient n in
    call (NewClient got) ;;
    match got with
    | Failure err =>
        ret (Some (fmt_Errorf "couldn't establish GCS client: " err))
    | Success client =>
        n <- calls ;;
        let object := path_Join prefix spec in
        let answer := gcsx_WriteObject n client bucket object r in
        call (WriteObject client bucket object r answer) ;;
        ret answer
    end.

(** [gcsRecorderHook(opts)].  [opts[0]] on an empty slice is a run-time
    panic. *)
Definition gcsRecorderHook (opts : list string) : result CaptureHook :=
  match opts with
  | [] => Panic "runtime error: index out of range"
  | opts0 :: _ =>
      match gcsx_ParseObject opts0 with
      | Failure _ =>
          Panic ("Invalid hook configuration for gcsRecorderHook: "
                 +:+ fmt_strings opts)
      | Success (bucket, prefix) => Ret (gcsRecorderHook_func bucket prefix)
      end
  end.

(** ** Several [Execute]s at once: lines 149 to 151 run by many goroutines *)

(** Where a goroutine stands in lines 149 to 151, with the locals it has
    assigned so far. *)
Inductive namer :=
| AtAdd
| AtModel (id : Z)
| AtWorker (id : Z) (modelURL : string)
| Named (id : Z) (modelURL workerURL : string).

(** One line of one goroutine.  Line 149 is a single atomic operation on the
    shared counter; lines 150 and 151 read the clock and touch nothing
    shared. *)
Definition namer_step (t : namer) : M namer :=
  match t with
  | AtAdd => id <- atomic_AddInt32_unique 1 ;; ret (AtModel id)
  | AtModel id =>
      modelURL <- stagedURL "model-" id ;; ret (AtWorker id modelURL)
  | AtWorker id modelURL =>
      workerURL <- stagedURL "worker-" id ;; ret (Named id modelURL workerURL)
  | Named _ _ _ => ret t
  end.

Record process := {
  shared : state;
  goroutines : list namer;
}.

(** The scheduler picks goroutine [i] for its next line.  A panic in any
    goroutine ends the process. *)
Definition schedule_step (i : nat) (pr : process) : result process :=
  match goroutines pr !! i with
  | None => Ret pr
  | Some t =>
      match namer_step t (shared pr) with
      | (Ret t', s') =>
          Ret {| shared := s'; goroutines := <[i:=t']> (goroutines pr) |}
      | (Panic v, _) => Panic v
      end
  end.

Fixpoint run (schedule : list nat) (pr : process) : result process :=
  match schedule with
  | [] => Ret pr
  | i :: rest =>
      match schedule_step i pr with
      | Ret pr' => run rest pr'
      | Panic v => Panic v
      end
  end.

(** [n] goroutines, all about to run line 149. *)
Definition spawn (n : nat) (s : state) : process :=
  {| shared := s; goroutines := replicate n AtAdd |}.

End Dataflow.

(** ** The parse of the labels *)

(** Modelled from the spec: [json.Unmarshal] is Go's [encoding/json], and
    its code is not under [src/].  The module below is what the
    specification says of it: the labels are parsed "as a JSON object of
    string→string".  The grammar is the one of JSON
    (RFC 8259) for an object whose values are strings: white space around
    the six structural characters, strings between quotation marks with the
    two-character escapes and the [\uXXXX] escape, a pair of [\uXXXX] for a
    code point beyond the basic plane.  A text is a list of bytes; the keys
    and the values are decoded to bytes, a [\uXXXX] escape to the UTF-8 form
    of its code point. *)
Module Json.

Definition quote : ascii := "034"%char.
Definition backslash : ascii := "092"%char.
Definition lbrace : ascii := "{"%char.
Definition rbrace : ascii := "}"%char.
Definition colon : ascii := ":"%char.
Definition comma : ascii := ","%char.
Definition letter_u : ascii := "u"%char.

(** White space: space, tab, line feed, carriage return. *)
Definition is_ws (c : ascii) : bool :=
  match c with
  | " " | "009" | "010" | "013" => true
  | _ => false
  end%char.

Definition is_control (c : ascii) : bool := (N_of_ascii c <? 32)%N.

(** A byte that stands for itself inside a string. *)
Definition is_plain (c : ascii) : bool :=
  negb (is_control c) && negb (Ascii.eqb c quote)
  && negb (Ascii.eqb c backslash).

(** The byte a two-character escape stands for, given its second
    character. *)
Definition unescape (e : ascii) : option ascii :=
  match e with
  | "034" => Some "034"
  | "092" => Some "092"
  | "/" => Some "/"
  | "b" => Some "008"
  | "f" => Some "012"
  | "n" => Some "010"
  | "r" => Some "013"
  | "t" => Some "009"
  | _ => None
  end%char.

Definition hex_digit (c : ascii) : option N :=
  let n := N_of_ascii c in
  if (48 <=? n)%N && (n <=? 57)%N then Some (n - 48)%N
  else if (65 <=? n)%N && (n <=? 70)%N then Some (n - 55)%N
  else if (97 <=? n)%N && (n <=? 102)%N then Some (n - 87)%N
  else None.

(** Four hexadecimal digits: their value, and the input after them. *)
Definition read_hex4 (s : list ascii) : option (N * list ascii) :=
  match s with
  | a :: b :: c :: d :: r =>
      match hex_digit a, hex_digit b, hex_digit c, hex_digit d with
      | Some x, Some y, Some z, Some w =>
          Some ((((x * 16 + y) * 16 + z) * 16 + w)%N, r)
      | _, _, _, _ => None
      end
  | _ => None
  end.

(** The two halves of a surrogate pair, and the code point of a pair. *)
Definition is_high (cp : N) : bool := (55296 <=? cp)%N && (cp <=? 56319)%N.
Definition is_low (cp : N) : bool := (56320 <=? cp)%N && (cp <=? 57343)%N.

Definition astral (hi lo : N) : N :=
  (65536 + (hi - 55296) * 1024 + (lo - 56320))%N.

Definition utf8 (cp : N) : list ascii :=
  if (cp <? 128)%N then [ascii_of_N cp]
  else if (cp <? 2048)%N then
    [ascii_of_N (192 + cp / 64); ascii_of_N (128 + cp mod 64)]
  else if (cp <? 65536)%N then
    [ascii_of_N (224 + cp / 4096); ascii_of_N (128 + (cp / 64) mod 64);
     ascii_of_N (128 + cp mod 64)]
  else
    [ascii_of_N (240 + cp / 262144); ascii_of_N (128 + (cp / 4096) mod 64);
     ascii_of_N (128 + (cp / 64) mod 64); ascii_of_N (128 + cp mod 64)].

(** *** The decoder *)

(** One escape, read after its backslash: the bytes it stands for, and the
    input after it.  Half a surrogate pair on its own is not read. *)
Definition read_escape (s : list ascii) : option (list ascii * list ascii) :=
  match s with
  | e :: r =>
      if Ascii.eqb e letter_u then
        match read_hex4 r with
        | Some (cp, r') =>
            if is_high cp then
              match r' with
              | b :: u :: r'' =>
                  if Ascii.eqb b backslash && Ascii.eqb u letter_u then
                    match read_hex4 r'' with
                    | Some (lo, r''') =>
                        if is_low lo then Some (utf8 (astral cp lo), r''')
                        else None
                    | None => None
                    end
                  else None
              | _ => None
              end
            else if is_low cp then None
            else Some (utf8 cp, r')
        | None => None
        end
      else
        match unescape e with
        | Some c => Some ([c], r)
        | None => None
        end
  | [] => None
  end.

(** The inside of a string, read after its opening quotation mark up to the
    closing one: the bytes it stands for, and the input after the closing
    mark.  Every step takes at least one byte of input, so that the length
    of the input is fuel enough. *)
Fixpoint read_chars (fuel : nat) (s : list ascii)
  : option (list ascii * list ascii) :=
  match fuel, s with
  | S fuel', c :: r =>
      if Ascii.eqb c quote then Some ([], r)
      else if Ascii.eqb c backslash then
        match read_escape r with
        | Some (bytes, r') =>
            match read_chars fuel' r' with
            | Some (t, rest) => Some (bytes ++ t, rest)
            | None => None
            end
        | None => None
        end
      else if is_control c then None
      else
        match read_chars fuel' r with
        | Some (t, rest) => Some (c :: t, rest)
        | None => None
        end
  | _, _ => None
  end.

Definition read_string (s : list ascii) : option (string * list ascii) :=
  match s with
  | c :: r =>
      if Ascii.eqb c quote then
        match read_chars (length r) r with
        | Some (b, rest) => Some (String.string_of_list_ascii b, rest)
        | None => None
        end
      else None
  | [] => None
  end.

Fixpoint skip_ws (s : list ascii) : list ascii :=
  match s with
  | c :: r => if is_ws c then skip_ws r else s
  | [] => []
  end.

Definition expect (c : ascii) (s : list ascii) : option (list ascii) :=
  match s with
  | c' :: r => if Ascii.eqb c' c then Some r else None
  | [] => None
  end.

(** A key, a colon and a value; the value has to be a string. *)
Definition read_member (s : list ascii)
  : option ((string * string) * list ascii) :=
  match read_string s with
  | Some (k, r1) =>
      match expect colon (skip_ws r1) with
      | Some r2 =>
          match read_string (skip_ws r2) with
          | Some (v, r3) => Some ((k, v), r3)
          | None => None
          end
      | None => None
      end
  | None => None
  end.

(** The members of an object up to its closing brace, in the order of the
    text.  Every member takes at least one byte of input. *)
Fixpoint read_members (fuel : nat) (s : list ascii)
  : option (list (string * string) * list ascii) :=
  match fuel with
  | 0 => None
  | S fuel' =>
      match read_member s with
      | Some (kv, r) =>
          match skip_ws r with
          | c :: r' =>
              if Ascii.eqb c comma then
                match read_members fuel' (skip_ws r') with
                | Some (l, rest) => Some (kv :: l, rest)
                | None => None
                end
              else if Ascii.eqb c rbrace then Some ([kv], r')
              else None
          | [] => None
          end
      | None => None
      end
  end.

Definition read_object (s : list ascii)
  : option (list (string * string) * list ascii) :=
  match skip_ws s with
  | c :: r =>
      if Ascii.eqb c lbrace then
        match skip_ws r with
        | c' :: r' =>
            if Ascii.eqb c' rbrace then Some ([], r')
            else read_members (length r) (c' :: r')
        | [] => None
        end
      else None
  | [] => None
  end.

(** Modelled from the spec: the parse of a labels string "as a JSON object
    of string→string" ([json.Unmarshal], whose code is missing): the
    key/value pairs of the text in its order, or nothing when the text is
    not such an object. *)
Definition decode (s : list ascii) : option (list (string * string)) :=
  match read_object s with
  | Some (l, rest) =>
      match skip_ws rest with
      | [] => Some l
      | _ :: _ => None
      end
  | None => None
  end.

(** The pairs stored into a map one after the other: of two pairs with one
    key the later one stays. *)
Definition fill (pairs : list (string * string)) (m : gmap string string)
  : gmap string string :=
  foldl (λ m kv, <[kv.1:=kv.2]> m) m pairs.

Definition to_map (pairs : list (string * string)) : gmap string string :=
  fill pairs ∅.

(** The parse error; the spec asks for its text to be preserved and does not
    say what the text is. *)
Definition syntax_error : error :=
  collaboratorError "*json.SyntaxError" "invalid JSON object of strings".

(** Modelled from the spec: [json.Unmarshal(data, &m)] for a
    [map[string]string] (the function itself is missing).  A text that
    parses fills the map, which is made when it was nil, and there is no
    error; for any other text the map is left as it was and the parse error
    is returned. *)
Definition Unmarshal (data : list Byte.byte) (into : labelmap)
  : labelmap * option error :=
  match decode (String.list_ascii_of_string
                  (String.string_of_list_byte data)) with
  | Some pairs => (Some (fill pairs (default ∅ into)), None)
  | None => (into, Some syntax_error)
  end.

(** *** The grammar *)

Definition blank (w : list ascii) : Prop := Forall (λ c, is_ws c = true) w.

(** [escape esc bytes]: the escape [\esc] stands for [bytes]. *)
Inductive escape : list ascii → list ascii → Prop :=
| escape_char (e c : ascii) :
    unescape e = Some c → escape [e] [c]
| escape_unicode (h : list ascii) (cp : N) :
    read_hex4 h = Some (cp, []) → is_high cp = false → is_low cp = false →
    escape (letter_u :: h) (utf8 cp)
| escape_pair (h l : list ascii) (hi lo : N) :
    read_hex4 h = Some (hi, []) → is_high hi = true →
    read_hex4 l = Some (lo, []) → is_low lo = true →
    escape (letter_u :: h ++ backslash :: letter_u :: l)
      (utf8 (astral hi lo)).

(** [chars t b]: [t], the text between two quotation marks, stands for the
    bytes [b]. *)
Inductive chars : list ascii → list ascii → Prop :=
| chars_nil : chars [] []
| chars_plain (c : ascii) (t b : list ascii) :
    is_plain c = true → chars t b → chars (c :: t) (c :: b)
| chars_escape (esc bytes t b : list ascii) :
    escape esc bytes → chars t b →
    chars (backslash :: esc ++ t) (bytes ++ b).

Definition literal (t : list ascii) (k : string) : Prop :=
  ∃ body b, t = quote :: body ++ [quote] ∧ chars body b ∧
            k = String.string_of_list_ascii b.

Definition member (t : list ascii) (kv : string * string) : Prop :=
  ∃ tk w1 w2 tv,
    t = tk ++ w1 ++ colon :: w2 ++ tv ∧
    literal tk kv.1 ∧ blank w1 ∧ blank w2 ∧ literal tv kv.2.

Inductive members : list ascii → list (string * string) → Prop :=
| members_one (t : list ascii) (kv : string * string) :
    member t kv → members t [kv]
| members_more (t w1 w2 rest : list ascii) (kv : string * string)
    (l : list (string * string)) :
    member t kv → blank w1 → blank w2 → members rest l →
    members (t ++ w1 ++ comma :: w2 ++ rest) (kv :: l).

(** [object t pairs]: [t] is a JSON object whose members are, in order, the
    key/value pairs [pairs], both of each pair strings. *)
Inductive object : list ascii → list (string * string) → Prop :=
| object_empty (w0 w1 w2 : list ascii) :
    blank w0 → blank w1 → blank w2 →
    object (w0 ++ lbrace :: w1 ++ rbrace :: w2) []
| object_members (w0 w1 m w2 w3 : list ascii) (l : list (string * string)) :
    blank w0 → blank w1 → members m l → blank w2 → blank w3 →
    object (w0 ++ lbrace :: w1 ++ m ++ w2 ++ rbrace :: w3) l.

(** A labels string that is well formed, and the pairs it holds. *)
Definition denotes (text : string) (pairs : list (string * string)) : Prop :=
  object (String.list_ascii_of_string text) pairs.

End Json.

(** ** A concrete set of collaborators, to run the definitions on *)

Module Sample.

(** A join that does not double the separator: the slashes the element
    starts with are dropped.  There is nothing to join under an empty
    location. *)
Fixpoint trim_start (elm : string) : string :=
  match elm with
  | String c rest => if Ascii.eqb c "/" then trim_start rest else elm
  | EmptyString => elm
  end.

Definition join (object elm : string) : option string :=
  if decide (object = "") then None
  else Some (object +:+ "/" +:+ trim_start elm).

Definition parse (object : string) : fallible (string * string) :=
  if decide (object = "gs://bucket/profiles/run42")
  then Success ("bucket", "profiles/run42")
  else Failure (errorString
                  ("object " +:+ object +:+ " must have 'gs' scheme")).

(** A JSON text written with ['] where it has its quotation marks. *)
Fixpoint quoted (text : string) : string :=
  match text with
  | String c rest =>
      String (if Ascii.eqb c "'" then Json.quote else c) (quoted rest)
  | EmptyString => EmptyString
  end.

Definition collaborators (project : string) (handle : nat) : Collaborators := {|
  Pipeline := nat;
  Edges := nat;
  Model := nat;
  RawOptions := unit;
  Job := string;
  JobResult := nat;
  Client := unit;
  Reader := string;
  gcpopts_Project := project;
  jobopts_WorkerBinary := "";
  jobopts_GetContainerImage := "gcr.io/beam/go:latest";
  jobopts_GetExperiments := ["beam_fn_api"];
  jobopts_GetJobName := "go-job-1";
  PipelineOptions_Export := ();
  json_Unmarshal := Json.Unmarshal;
  gcsx_Join := join;
  gcsx_ParseObject := parse;
  gcsx_NewClient := λ n, if decide (n = 0) then Success ()
                         else Failure (errorString "no credentials");
  gcsx_WriteObject := λ _ _ _ _ _, None;
  path_Join := λ a b, a +:+ "/" +:+ b;
  time_Now_UnixNano := λ k, (1500000000000000000 + Z.of_nat k)%Z;
  Pipeline_Build := λ p, if decide (p = 0)
                         then Failure (errorString "empty pipeline")
                         else Success p;
  graphx_Marshal := λ e img, if decide (e = 1)
                             then Failure (errorString "bad coder")
                             else Success e;
  proto_MarshalTextString := λ m, "components: <>";
  dataflowlib_Translate := λ m o w u, if decide (m = 2)
                                       then Failure (errorString "bad step")
                                       else Success "job";
  dataflowlib_Execute := λ m o w u ep a,
    if decide (m = 3)
    then Failure (collaboratorError "*googleapi.Error" "403")
    else Success handle;
|}.

(** The flags of a launch: the staging location, the labels, the temp
    location and the dry-run switch; every other flag at its default. *)
Definition launch (staging lbls temp : string) (dry : bool) : Flags :=
  {| endpoint := ""; stagingLocation := staging; image := "";
     labels := lbls; numWorkers := 0; zone := ""; region := "us-central1";
     network := ""; tempLocation := temp; machineType := "";
     minCPUPlatform := ""; dryRun := dry; teardownPolicy := "";
     cpuProfiling := ""; sessionRecording := "" |}.

(** The options gathered from such a launch. *)
Definition options (project : string) (lbls : labelmap) (tmp : string)
  : JobOptions unit :=
  {| Name := "go-job-1"; Experiments := ["beam_fn_api"]; Options := ();
     Project := project; Region := "us-central1"; Zone := ""; Network := "";
     NumWorkers := 0; MachineType := ""; Labels := lbls; TempLocation := tmp;
     Worker := ""; TeardownPolicy := "" |}.

Definition C7 : Collaborators := collaborators "proj" 7.
Definition C8 : Collaborators := collaborators "proj" 8.
Definition Cnone : Collaborators := collaborators "" 7.

Definition start (C : Collaborators) (fl : Flags) : @state C :=
  {| flags := fl; unique := 0; ticks := 0; trace := [] |}.

(** The flags of a launch to the sample staging location with a minimum
    CPU platform, a profile destination and a session recording. *)
Definition tuned (minCPU profiling session : string) (dry : bool) : Flags :=
  {| endpoint := ""; stagingLocation := "gs://bucket/staging"; image := "";
     labels := ""; numWorkers := 0; zone := ""; region := "us-central1";
     network := ""; tempLocation := ""; machineType := "";
     minCPUPlatform := minCPU; dryRun := dry; teardownPolicy := "";
     cpuProfiling := profiling; sessionRecording := session |}.

(** The options gathered from such a launch, given the experiments. *)
Definition tuned_options (experiments : list string) : JobOptions unit :=
  {| Name := "go-job-1"; Experiments := experiments; Options := ();
     Project := "proj"; Region := "us-central1"; Zone := ""; Network := "";
     NumWorkers := 0; MachineType := ""; Labels := None;
     TempLocation := "gs://bucket/staging/tmp"; Worker := "";
     TeardownPolicy := "" |}.

(** The two URLs of the first run of a process, and of its second. *)
Definition worker1 : string :=
  "gs://bucket/staging/worker-1-1500000000000000001".
Definition model1 : string :=
  "gs://bucket/staging/model-1-1500000000000000000".
Definition worker2 : string :=
  "gs://bucket/staging/worker-2-1500000000000000003".
Definition model2 : string :=
  "gs://bucket/staging/model-2-1500000000000000002".

End Sample.

(** ** Vocabulary of the statements *)

(** [contains needle s]: [needle] occurs in [s]. *)
Fixpoint contains (needle s : string) : bool :=
  String.prefix needle s ||
  match s with
  | EmptyString => false
  | String _ rest => contains needle rest
  end.

(** Decimal digits, to read an object name back. *)
Definition is_digit (c : ascii) : bool :=
  match c with
  | "0" | "1" | "2" | "3" | "4" | "5" | "6" | "7" | "8" | "9" => true
  | _ => false
  end%char.

Fixpoint digits (s : string) : bool :=
  match s with
  | EmptyString => true
  | String c rest => is_digit c && digits rest
  end.

Section Vocabulary.
Context `{C : Collaborators}.

Definition is_Submit (ev : event) : bool :=
  match ev with
  | Submit _ _ _ _ _ _ _ => true
  | _ => false
  end.

(** What [Execute] returns for an answer of [dataflowlib.Execute]: the
    error, the first result being dropped. *)
Definition returned_error {A} (answer : fallible A) : option error :=
  match answer with
  | Success _ => None
  | Failure err => Some err
  end.

(** What a run leaves behind.

    [keeps R m]: whatever state [m] starts from, the state it ends in is
    [R]-related to it.  For a preorder [R] this goes through [bind]. *)
Definition keeps (R : relation state) {A} (m : M A) : Prop :=
  ∀ s, R s (m s).2.

(** What the gathering of the options may change: [*image], and the trace. *)
Definition gathered : relation state :=
  λ s s', set_image (image (flags s')) (flags s) = flags s' ∧
          unique s' = unique s ∧ ticks s' = ticks s ∧
          ∃ l, trace s' = trace s ++ l ∧ Forall (λ ev, is_Submit ev = false) l.

(** A run that starts with [dryRun] set ends with [dryRun] set and has
    called only what is not [dataflowlib.Execute]. *)
Definition dry : relation state :=
  λ s s', dryRun (flags s) = true →
          dryRun (flags s') = true ∧
          ∃ l, trace s' = trace s ++ l ∧ Forall (λ ev, is_Submit ev = false) l.

(** The state a successful gathering of the options ends in: [*image] is
    resolved when it was empty, and the calls made are the resolution of the
    image, the parse of the labels, the enabling of the profile hook (each
    only when its flag asks for it) and the serialization of the hooks. *)
Definition after_gather (s : state) : state :=
  {| flags := if decide (image (flags s) = "")
              then set_image jobopts_GetContainerImage (flags s)
              else flags s;
     unique := unique s;
     ticks := ticks s;
     trace := trace s ++
       (if decide (image (flags s) = "") then [GetContainerImage] else []) ++
       (if decide (labels (flags s) = "") then []
        else [Unmarshal (String.list_byte_of_string (labels (flags s)))]) ++
       (if decide (cpuProfiling (flags s) = "") then []
        else [EnableProfCaptureHook "gcs_profile_writer"
                (cpuProfiling (flags s))]) ++
       [SerializeHooksToOptions] |}.

(** [gcsx.Join] keeps the names of the staged objects apart under
    [staging]: two names formatted by lines 150 and 151 that it joins to one
    URL are one name.  Nothing is asked of what it makes of other elements:
    a join that drops a doubled separator, and so joins ["x"] and ["/x"] to
    one URL, keeps these names apart, none of which starts with a
    separator. *)
Definition joins_names_apart (staging : string) : Prop :=
  ∀ kind1 kind2 id1 now1 id2 now2 url,
    kind1 ∈ ["model-"; "worker-"] → kind2 ∈ ["model-"; "worker-"] →
    gcsx_Join staging (objectName kind1 id1 now1) = Some url →
    gcsx_Join staging (objectName kind2 id2 now2) = Some url →
    objectName kind1 id1 now1 = objectName kind2 id2 now2.

(** The [id] a goroutine has drawn, once past line 149. *)
Definition namer_id (t : namer) : option Z :=
  match t with
  | AtAdd => None
  | AtModel id | AtWorker id _ | Named id _ _ => Some id
  end.

(** How many of lines 149 to 151 a goroutine has run. *)
Definition lines_run (t : namer) : nat :=
  match t with
  | AtAdd => 0
  | AtModel _ => 1
  | AtWorker _ _ => 2
  | Named _ _ _ => 3
  end.

(** The URLs a goroutine holds were joined under [staging] from the names
    formatted from its own [id] and some reading of the clock. *)
Definition names_of (staging : string) (t : namer) : Prop :=
  match t with
  | AtAdd | AtModel _ => True
  | AtWorker id modelURL =>
      ∃ now, gcsx_Join staging (objectName "model-" id now) = Some modelURL
  | Named id modelURL workerURL =>
      (∃ now, gcsx_Join staging (objectName "model-" id now) = Some modelURL) ∧
      (∃ now, gcsx_Join staging (objectName "worker-" id now) = Some workerURL)
  end.

(** What every schedule maintains, from a process spawned with the counter
    at [c] and the flags [fl]: the flags stay, the counter has advanced by the
    number [k] of goroutines past line 149, the ids those goroutines hold are
    the [k] values drawn so far, each held once, and every URL held was made
    from the id of its holder. *)
Definition names_inv (c : Z) (fl : Flags) (pr : process) : Prop :=
  flags (shared pr) = fl ∧
  (∃ k : nat,
     wrap32 (unique (shared pr)) = wrap32 (c + Z.of_nat k) ∧
     omap namer_id (goroutines pr)
       ≡ₚ (λ j : nat, wrap32 (c + Z.of_nat j)) <$> seq 1 k) ∧
  Forall (names_of (stagingLocation fl)) (goroutines pr).

(** Lines run by goroutine [j] of a process; [0] when there is none. *)
Definition lines_at (pr : process) (j : nat) : nat :=
  default 0 (lines_run <$> goroutines pr !! j).

End Vocabulary.

(** ** [init], and the vocabulary of the further properties *)

Section Reach.
Context `{C : Collaborators}.

(** What [init] registers with the other packages, in order: the runner
    under its name, and the factory of the profile hook under its name. *)
Inductive registration :=
| RegisterRunner (name : string) (runner : Pipeline → M (option error))
| RegisterProfCaptureHook (name : string)
    (factory : list string → result CaptureHook).

(** [init()]. *)
Definition init : list registration :=
  [RegisterRunner "dataflow" Execute;
   RegisterProfCaptureHook "gcs_profile_writer" gcsRecorderHook].

(** A hook invoked on one capture after the other, as its user does: the
    results in order. *)
Fixpoint captures (hook : CaptureHook) (inputs : list (string * Reader))
  : M (list (option error)) :=
  match inputs with
  | [] => ret []
  | (spec, r) :: rest =>
      bind (hook spec r) (λ e,
      bind (captures hook rest) (λ es, ret (e :: es)))
  end.

(** The calls a run adds to the trace it starts from. *)
Definition calls_of {A} (m : M A) (s : state) : list event :=
  drop (length (trace s)) (trace (m s).2).

(** The calls of the first half of [Execute], and those of the second. *)
Definition is_gather_call (ev : event) : bool :=
  match ev with
  | GetContainerImage | Unmarshal _ | EnableProfCaptureHook _ _
  | SerializeHooksToOptions => true
  | _ => false
  end.

Definition is_submit_call (ev : event) : bool :=
  match ev with
  | Build _ | Marshal _ _ | LogInfo _ | Translate _ _ _ _ | PrintJob _
  | Submit _ _ _ _ _ _ _ => true
  | _ => false
  end.

Definition is_EnableProfCaptureHook (ev : event) : bool :=
  match ev with
  | EnableProfCaptureHook _ _ => true
  | _ => false
  end.

Definition is_SerializeHooksToOptions (ev : event) : bool :=
  match ev with
  | SerializeHooksToOptions => true
  | _ => false
  end.

(** In [l] every call of kind [P] comes before every call of kind [Q]: [l]
    can be cut in two with no [Q] before the cut and no [P] after it. *)
Definition all_before (P Q : event → bool) (l : list event) : Prop :=
  ∃ l1 l2, l = l1 ++ l2 ∧
           Forall (λ ev, Q ev = false) l1 ∧ Forall (λ ev, P ev = false) l2.

Definition is_NewClient (ev : event) : bool :=
  match ev with
  | NewClient _ => true
  | _ => false
  end.

Definition is_WriteObject (ev : event) : bool :=
  match ev with
  | WriteObject _ _ _ _ _ => true
  | _ => false
  end.

(** A run that changes nothing but the trace, to which it adds calls that
    satisfy [P]. *)
Definition adds (P : event → Prop) : relation state :=
  λ s s', flags s' = flags s ∧ unique s' = unique s ∧ ticks s' = ticks s ∧
          ∃ l, trace s' = trace s ++ l ∧ Forall P l.

(** What the second half of [Execute] may change: the counter, the clock and
    the trace, to which it adds its own calls. *)
Definition submitted : relation state :=
  λ s s', flags s' = flags s ∧
          ∃ l, trace s' = trace s ++ l ∧
               Forall (λ ev, is_submit_call ev = true) l.

(** The image [Execute] works with: the flag, or what [jobopts] resolves
    when the flag is empty. *)
Definition resolved_image (fl : Flags) : string :=
  if decide (image fl = "") then jobopts_GetContainerImage else image fl.

(** The options gathered from the flags of [s], given the labels parsed
    and the temp location. *)
Definition gathered_options (s : state) (parsed : labelmap) (tmp : string)
  : JobOptions RawOptions :=
  {| Name := jobopts_GetJobName;
     Experiments :=
       (if decide (minCPUPlatform (flags s) = "")
        then jobopts_GetExperiments
        else jobopts_GetExperiments ++
               ["min_cpu_platform=" +:+ minCPUPlatform (flags s)]);
     Options := PipelineOptions_Export;
     Project := gcpopts_Project;
     Region := region (flags s);
     Zone := zone (flags s);
     Network := network (flags s);
     NumWorkers := numWorkers (flags s);
     MachineType := machineType (flags s);
     Labels := parsed;
     TempLocation := tmp;
     Worker := jobopts_WorkerBinary;
     TeardownPolicy := teardownPolicy (flags s) |}.

(** What the labels parse to: nothing to parse when the flag is empty. *)
Definition parsed_labels (s : state) : labelmap * option error :=
  if decide (labels (flags s) = "") then (None, None)
  else json_Unmarshal (String.list_byte_of_string (labels (flags s))) None.

(** The temp location: the flag, or the staging location joined with
    ["tmp"] when the flag is empty. *)
Definition resolved_temp (s : state) : option string :=
  if decide (tempLocation (flags s) = "")
  then gcsx_Join (stagingLocation (flags s)) "tmp"
  else Some (tempLocation (flags s)).

(** The state in which the gathering stops when the labels do not parse. *)
Definition after_label_error (s : state) : state :=
  {| flags := if decide (image (flags s) = "")
              then set_image jobopts_GetContainerImage (flags s)
              else flags s;
     unique := unique s;
     ticks := ticks s;
     trace := trace s ++
       (if decide (image (flags s) = "") then [GetContainerImage] else []) ++
       [Unmarshal (String.list_byte_of_string (labels (flags s)))] |}.

(** Two sets of flags that agree on every flag but [session_recording]. *)
Definition but_sessionRecording (f f' : Flags) : Prop :=
  endpoint f = endpoint f' ∧ stagingLocation f = stagingLocation f' ∧
  image f = image f' ∧ labels f = labels f' ∧ numWorkers f = numWorkers f' ∧
  zone f = zone f' ∧ region f = region f' ∧ network f = network f' ∧
  tempLocation f = tempLocation f' ∧ machineType f = machineType f' ∧
  minCPUPlatform f = minCPUPlatform f' ∧ dryRun f = dryRun f' ∧
  teardownPolicy f = teardownPolicy f' ∧ cpuProfiling f = cpuProfiling f'.

(** Two sets of flags that agree on every flag but [dry_run]. *)
Definition but_dryRun (f f' : Flags) : Prop :=
  endpoint f = endpoint f' ∧ stagingLocation f = stagingLocation f' ∧
  image f = image f' ∧ labels f = labels f' ∧ numWorkers f = numWorkers f' ∧
  zone f = zone f' ∧ region f = region f' ∧ network f = network f' ∧
  tempLocation f = tempLocation f' ∧ machineType f = machineType f' ∧
  minCPUPlatform f = minCPUPlatform f' ∧
  teardownPolicy f = teardownPolicy f' ∧ cpuProfiling f = cpuProfiling f' ∧
  sessionRecording f = sessionRecording f'.

(** Two states with the same counter, clock and trace whose flags are
    [F]-related. *)
Definition alike (F : relation Flags) : relation state :=
  λ s s', F (flags s) (flags s') ∧ unique s = unique s' ∧
          ticks s = ticks s' ∧ trace s = trace s'.

(** [m] cannot tell [F]-related flags apart: from alike states it returns
    the same result and ends in alike states. *)
Definition blind (F : relation Flags) {A} (m : M A) : Prop :=
  ∀ s s', alike F s s' → (m s).1 = (m s').1 ∧ alike F (m s).2 (m s').2.

(** [Execute] run on one pipeline after the other, each run from the state
    the one before ends in: the state in the end. *)
Fixpoint Executes (ps : list Pipeline) (s : state) : state :=
  match ps with
  | [] => s
  | p :: rest => Executes rest (Execute p s).2
  end.

(** A run of [Execute] hands the two URLs to the translation or to the
    service. *)
Definition hands_on (p : Pipeline) (s : state) (workerURL modelURL : string)
  : Prop :=
  ∃ model o,
    Translate model o workerURL modelURL ∈ calls_of (Execute p) s ∨
    ∃ ep async answer,
      Submit model o workerURL modelURL ep async answer
        ∈ calls_of (Execute p) s.

(** Two sets of flags that agree on every flag the first half of
    [Execute] reads. *)
Definition gather_reads (f f' : Flags) : Prop :=
  stagingLocation f = stagingLocation f' ∧ image f = image f' ∧
  labels f = labels f' ∧ numWorkers f = numWorkers f' ∧ zone f = zone f' ∧
  region f = region f' ∧ network f = network f' ∧
  tempLocation f = tempLocation f' ∧ machineType f = machineType f' ∧
  minCPUPlatform f = minCPUPlatform f' ∧
  teardownPolicy f = teardownPolicy f' ∧ cpuProfiling f = cpuProfiling f'.

(** A request for a client that was answered with one. *)
Definition got_client (ev : event) : bool :=
  match ev with
  | NewClient (Success _) => true
  | _ => false
  end.

(** A write to [bucket], to the object joined from [prefix] and the spec
    of one of the [inputs], of the reader that came with that spec. *)
Definition writes_under (bucket prefix : string)
    (inputs : list (string * Reader)) (ev : event) : Prop :=
  match ev with
  | WriteObject _ b object r _ =>
      b = bucket ∧ ∃ spec, (spec, r) ∈ inputs ∧ object = path_Join prefix spec
  | _ => True
  end.

End Reach.

(** * Properties *)

(** ** Integers and names *)

Lemma wrap32_int32 (z : Z) : int32 (wrap32 z).
Proof. unfold int32, wrap32. pose proof (Z.mod_pos_bound (z + 2 ^ 31) (2 ^ 32)). lia. Qed.

Lemma wrap32_id (z : Z) : int32 z → wrap32 z = z.
Proof. unfold int32, wrap32. intros Hz. rewrite Z.mod_small; lia. Qed.

Lemma wrap32_add_l (a b : Z) : wrap32 (wrap32 a + b) = wrap32 (a + b).
Proof.
  unfold wrap32. f_equal.
  replace ((a + 2 ^ 31) `mod` 2 ^ 32 - 2 ^ 31 + b + 2 ^ 31)%Z
    with ((a + 2 ^ 31) `mod` 2 ^ 32 + b)%Z by lia.
  rewrite Zplus_mod_idemp_l. f_equal. lia.
Qed.

(** Two integers less than [2^32] apart do not wrap to the same [int32]. *)
Lemma wrap32_inj (a b : Z) :
  wrap32 a = wrap32 b → (- 2 ^ 32 < a - b < 2 ^ 32)%Z → a = b.
Proof.
  unfold wrap32. intros Heq Hclose.
  assert (Hmod : ((a + 2 ^ 31) `mod` 2 ^ 32 = (b + 2 ^ 31) `mod` 2 ^ 32)%Z) by lia.
  pose proof (Z.div_mod (a + 2 ^ 31) (2 ^ 32)) as Ha.
  pose proof (Z.div_mod (b + 2 ^ 31) (2 ^ 32)) as Hb.
  rewrite Hmod in Ha. lia.
Qed.

Lemma pretty_N_char_digit (x : N) : is_digit (pretty_N_char x) = true.
Proof. unfold pretty_N_char. by repeat case_match. Qed.

Lemma pretty_N_go_digits (x : N) (s : string) :
  digits s = true → digits (pretty_N_go x s) = true.
Proof.
  revert s. induction (N.lt_wf_0 x) as [x _ IH]. intros s Hs.
  destruct (decide (x = 0%N)) as [->|Hx]; [by rewrite pretty_N_go_0|].
  rewrite pretty_N_go_step by lia. apply IH.
  - apply N.div_lt; lia.
  - simpl. by rewrite pretty_N_char_digit, Hs.
Qed.

Lemma pretty_N_go_nonempty (x : N) (s : string) :
  s ≠ "" → pretty_N_go x s ≠ "".
Proof.
  revert s. induction (N.lt_wf_0 x) as [x _ IH]. intros s Hs.
  destruct (decide (x = 0%N)) as [->|Hx]; [by rewrite pretty_N_go_0|].
  rewrite pretty_N_go_step by lia. apply IH; [apply N.div_lt; lia | done].
Qed.

Lemma pretty_N_digits (x : N) : digits (pretty x) = true ∧ pretty x ≠ "".
Proof.
  unfold pretty, pretty_N. case_decide; [done|]. split.
  - by apply pretty_N_go_digits.
  - rewrite pretty_N_go_step by lia. by apply pretty_N_go_nonempty.
Qed.

(** A decimal is a run of digits, after a minus sign when negative. *)
Lemma fmt_int_shape (z : Z) :
  ∃ d, digits d = true ∧ d ≠ "" ∧ (fmt_int z = d ∨ fmt_int z = "-" +:+ d).
Proof.
  unfold fmt_int, pretty, pretty_Z. destruct z as [|q|q].
  - exists "0". by auto.
  - exists (pretty (N.pos q)). destruct (pretty_N_digits (N.pos q)). by auto.
  - exists (pretty (N.pos q)). destruct (pretty_N_digits (N.pos q)). by auto.
Qed.

Lemma digits_dash_inj (d1 d2 r1 r2 : string) :
  digits d1 = true → digits d2 = true →
  d1 +:+ String "-" r1 = d2 +:+ String "-" r2 → d1 = d2 ∧ r1 = r2.
Proof.
  revert d2. induction d1 as [|c1 d1 IH]; intros [|c2 d2] H1 H2 Heq;
    simpl in *; simplify_eq.
  all: try done.
  apply andb_prop in H1 as [_ H1]. apply andb_prop in H2 as [_ H2].
  destruct (IH d2 H1 H2) as [-> ->]; done.
Qed.

Lemma fmt_int_dash_inj (a b : Z) (r1 r2 : string) :
  fmt_int a +:+ String "-" r1 = fmt_int b +:+ String "-" r2 →
  a = b ∧ r1 = r2.
Proof.
  intros Heq.
  cut (fmt_int a = fmt_int b ∧ r1 = r2).
  { intros [Hab ?]. split; [|done]. by apply (inj pretty). }
  destruct (fmt_int_shape a) as (da & Hda & Hna & [Ha|Ha]),
           (fmt_int_shape b) as (db & Hdb & Hnb & [Hb|Hb]);
    rewrite Ha, Hb in *; simpl in Heq.
  - by apply digits_dash_inj.
  - destruct da as [|c da]; [done|]. simpl in *. by simplify_eq.
  - destruct db as [|c db]; [done|]. simpl in *. by simplify_eq.
  - simplify_eq. destruct (digits_dash_inj da db r1 r2) as [-> ->]; done.
Qed.

(** ** The decoder of the labels reads the grammar, and nothing else *)

Section JsonDecoder.
Import Json.

Lemma skip_ws_blank (w : list ascii) (c : ascii) (r : list ascii) :
  blank w → is_ws c = false → skip_ws (w ++ c :: r) = c :: r.
Proof.
  intros Hw Hc. induction Hw as [|x w Hx _ IH]; simpl.
  - by rewrite Hc.
  - by rewrite Hx.
Qed.

Lemma skip_ws_blank_nil (w : list ascii) : blank w → skip_ws w = [].
Proof.
  intros Hw. induction Hw as [|x w Hx _ IH]; simpl; [done|]. by rewrite Hx.
Qed.

Lemma skip_ws_split (s : list ascii) :
  ∃ w, blank w ∧ s = w ++ skip_ws s.
Proof.
  induction s as [|c s (w & Hw & IH)]; simpl.
  - exists []. split; [constructor|done].
  - destruct (is_ws c) eqn:Hc.
    + exists (c :: w). split; [by constructor|]. simpl. by f_equal.
    + exists []. split; [constructor|done].
Qed.

Lemma skip_ws_head (s : list ascii) (c : ascii) (r : list ascii) :
  skip_ws s = c :: r → is_ws c = false.
Proof.
  induction s as [|x s IH]; simpl; [done|].
  destruct (is_ws x) eqn:Hx; [done|]. intros. by simplify_eq.
Qed.

Lemma skip_ws_nil_blank (s : list ascii) : skip_ws s = [] → blank s.
Proof.
  intros Hs. destruct (skip_ws_split s) as (w & Hw & Heq).
  rewrite Hs, app_nil_r in Heq. by subst.
Qed.

Lemma read_hex4_app (h r : list ascii) (cp : N) :
  read_hex4 h = Some (cp, []) → read_hex4 (h ++ r) = Some (cp, r).
Proof.
  destruct h as [|a [|b [|c [|d h]]]]; simpl; try done.
  destruct (hex_digit a), (hex_digit b), (hex_digit c), (hex_digit d);
    try done.
  intros. by simplify_eq.
Qed.

Lemma read_hex4_split (s r : list ascii) (cp : N) :
  read_hex4 s = Some (cp, r) →
  ∃ h, s = h ++ r ∧ read_hex4 h = Some (cp, []).
Proof.
  destruct s as [|a [|b [|c [|d s]]]]; simpl; try done.
  destruct (hex_digit a) eqn:Ha, (hex_digit b) eqn:Hb, (hex_digit c) eqn:Hc,
    (hex_digit d) eqn:Hd; try done.
  intros. simplify_eq. exists [a; b; c; d]. split; [done|].
  simpl. by rewrite Ha, Hb, Hc, Hd.
Qed.

Lemma unescape_not_u : unescape letter_u = None.
Proof. reflexivity. Qed.

Lemma read_escape_complete (esc bytes r : list ascii) :
  escape esc bytes → read_escape (esc ++ r) = Some (bytes, r).
Proof.
  intros [e c He|h cp Hh Hhi Hlo|h l hi lo Hh Hhi Hl Hlo]; simpl.
  - destruct (Ascii.eqb_spec e letter_u) as [->|_].
    + by rewrite unescape_not_u in He.
    + by rewrite He.
  - rewrite (read_hex4_app _ _ _ Hh), Hhi, Hlo. done.
  - rewrite <- app_assoc, (read_hex4_app _ _ _ Hh), Hhi. simpl.
    rewrite (read_hex4_app _ _ _ Hl), Hlo. done.
Qed.

Lemma read_escape_sound (s bytes r : list ascii) :
  read_escape s = Some (bytes, r) →
  ∃ esc, s = esc ++ r ∧ escape esc bytes.
Proof.
  destruct s as [|e s]; simpl; [done|].
  destruct (Ascii.eqb_spec e letter_u) as [->|_].
  - destruct (read_hex4 s) as [[cp r']|] eqn:Hh; [|done].
    apply read_hex4_split in Hh as (h & -> & Hh).
    destruct (is_high cp) eqn:Hhi.
    + destruct r' as [|b [|u r'']]; try done.
      destruct (Ascii.eqb_spec b backslash) as [->|_]; [|done].
      destruct (Ascii.eqb_spec u letter_u) as [->|_]; [|done]. simpl.
      destruct (read_hex4 r'') as [[lo r3]|] eqn:Hl; [|done].
      apply read_hex4_split in Hl as (l & -> & Hl).
      destruct (is_low lo) eqn:Hlo; [|done].
      intros. simplify_eq.
      exists (letter_u :: h ++ backslash :: letter_u :: l). split.
      * simpl. by rewrite <- app_assoc.
      * by eapply escape_pair.
    + destruct (is_low cp) eqn:Hlo; [done|].
      intros. simplify_eq. exists (letter_u :: h). split; [done|].
      by apply escape_unicode.
  - destruct (unescape e) as [c|] eqn:He; [|done].
    intros. simplify_eq. exists [e]. split; [done|]. by apply escape_char.
Qed.

Lemma is_plain_inv (c : ascii) :
  is_plain c = true →
  Ascii.eqb c quote = false ∧ Ascii.eqb c backslash = false ∧
  is_control c = false.
Proof.
  unfold is_plain. rewrite !andb_true_iff, !negb_true_iff. tauto.
Qed.

Lemma read_chars_complete (body b : list ascii) :
  chars body b →
  ∀ fuel r, length (body ++ quote :: r) ≤ fuel →
            read_chars fuel (body ++ quote :: r) = Some (b, r).
Proof.
  induction 1 as [|c t b Hc _ IH|esc bytes t b Hesc _ IH]; intros fuel r Hfuel;
    (destruct fuel as [|fuel]; [simpl in Hfuel; lia|]); simpl in *.
  - done.
  - apply is_plain_inv in Hc as (-> & -> & ->).
    rewrite IH by lia. done.
  - rewrite <- app_assoc, (read_escape_complete _ _ _ Hesc).
    rewrite IH; [done|]. rewrite <- app_assoc, length_app in Hfuel. lia.
Qed.

Lemma read_chars_sound (fuel : nat) (s b rest : list ascii) :
  read_chars fuel s = Some (b, rest) →
  ∃ body, s = body ++ quote :: rest ∧ chars body b.
Proof.
  revert s b rest. induction fuel as [|fuel IH]; intros s b rest; [done|].
  destruct s as [|c s]; simpl; [done|].
  destruct (Ascii.eqb_spec c quote) as [->|Hq].
  { intros. simplify_eq. exists []. split; [done|constructor]. }
  destruct (Ascii.eqb_spec c backslash) as [->|Hb].
  - destruct (read_escape s) as [[bytes r']|] eqn:Hesc; [|done].
    destruct (read_chars fuel r') as [[t rest']|] eqn:Hr; [|done].
    intros. simplify_eq.
    apply read_escape_sound in Hesc as (esc & -> & Hesc).
    apply IH in Hr as (body & -> & Hbody).
    exists (backslash :: esc ++ body). split.
    + simpl. by rewrite <- app_assoc.
    + by constructor.
  - destruct (is_control c) eqn:Hc; [done|].
    destruct (read_chars fuel s) as [[t rest']|] eqn:Hr; [|done].
    intros. simplify_eq.
    apply IH in Hr as (body & -> & Hbody).
    exists (c :: body). split; [done|]. constructor; [|done].
    unfold is_plain. rewrite Hc.
    by destruct (Ascii.eqb_spec c quote), (Ascii.eqb_spec c backslash).
Qed.

Lemma read_string_complete (t : list ascii) (k : string) (r : list ascii) :
  literal t k → read_string (t ++ r) = Some (k, r).
Proof.
  intros (body & b & -> & Hb & ->). simpl.
  rewrite <- app_assoc. simpl.
  by rewrite (read_chars_complete _ _ Hb).
Qed.

Lemma read_string_sound (s : list ascii) (k : string) (r : list ascii) :
  read_string s = Some (k, r) → ∃ t, s = t ++ r ∧ literal t k.
Proof.
  destruct s as [|c s]; simpl; [done|].
  destruct (Ascii.eqb_spec c quote) as [->|_]; [|done].
  destruct (read_chars (length s) s) as [[b rest]|] eqn:Hr; [|done].
  intros. simplify_eq.
  apply read_chars_sound in Hr as (body & -> & Hbody).
  exists (quote :: body ++ [quote]). split.
  - simpl. by rewrite <- app_assoc.
  - by exists body, b.
Qed.

Lemma literal_head (t : list ascii) (k : string) :
  literal t k → ∃ t', t = quote :: t'.
Proof. intros (body & b & -> & _). by eexists. Qed.

Lemma expect_sound (c : ascii) (s r : list ascii) :
  expect c s = Some r → s = c :: r.
Proof.
  destruct s as [|c' s]; simpl; [done|].
  destruct (Ascii.eqb_spec c' c) as [->|_]; [|done]. intros. by simplify_eq.
Qed.

Lemma read_member_complete (t : list ascii) (kv : string * string)
    (r : list ascii) :
  member t kv → read_member (t ++ r) = Some (kv, r).
Proof.
  intros (tk & w1 & w2 & tv & -> & Hk & Hw1 & Hw2 & Hv).
  unfold read_member.
  rewrite <- !app_assoc, (read_string_complete _ _ _ Hk).
  simpl. rewrite <- !app_assoc.
  rewrite (skip_ws_blank _ _ _ Hw1) by done. simpl.
  destruct (literal_head _ _ Hv) as (tv' & ->). simpl.
  rewrite (skip_ws_blank _ _ _ Hw2) by done.
  change (quote :: tv' ++ r) with ((quote :: tv') ++ r).
  rewrite (read_string_complete _ _ _ Hv). by destruct kv.
Qed.

Lemma read_member_sound (s : list ascii) (kv : string * string)
    (r : list ascii) :
  read_member s = Some (kv, r) → ∃ t, s = t ++ r ∧ member t kv.
Proof.
  unfold read_member.
  destruct (read_string s) as [[k r1]|] eqn:Hk; [|done].
  destruct (expect colon (skip_ws r1)) as [r2|] eqn:Hc; [|done].
  destruct (read_string (skip_ws r2)) as [[v r3]|] eqn:Hv; [|done].
  intros. simplify_eq.
  apply read_string_sound in Hk as (tk & -> & Hk).
  apply expect_sound in Hc.
  apply read_string_sound in Hv as (tv & Hv' & Hv).
  destruct (skip_ws_split r1) as (w1 & Hw1 & Hr1).
  destruct (skip_ws_split r2) as (w2 & Hw2 & Hr2).
  exists (tk ++ w1 ++ colon :: w2 ++ tv). split.
  - rewrite <- !app_assoc. f_equal. rewrite Hr1 at 1. f_equal.
    rewrite Hc. simpl. f_equal. rewrite <- app_assoc. rewrite Hr2 at 1.
    by rewrite Hv'.
  - by exists tk, w1, w2, tv.
Qed.

Lemma members_head (m : list ascii) (l : list (string * string)) :
  members m l → ∃ m', m = quote :: m'.
Proof.
  intros [t kv (tk & ? & ? & ? & -> & Hk & _)
         |t ? ? ? kv ? (tk & ? & ? & ? & -> & Hk & _) _ _ _];
    destruct (literal_head _ _ Hk) as (? & ->); by eexists.
Qed.

Lemma read_members_complete (m : list ascii) (l : list (string * string)) :
  members m l →
  ∀ fuel w r, blank w → length l ≤ fuel →
    read_members fuel (m ++ w ++ rbrace :: r) = Some (l, r).
Proof.
  induction 1 as [t kv Ht|t w1 w2 rest kv l Ht Hw1 Hw2 Hrest IH];
    intros fuel w r Hw Hfuel;
    (destruct fuel as [|fuel]; [simpl in Hfuel; lia|]); simpl in *.
  - rewrite (read_member_complete _ _ _ Ht).
    by rewrite (skip_ws_blank _ _ _ Hw).
  - rewrite <- !app_assoc, (read_member_complete _ _ _ Ht).
    rewrite <- app_comm_cons, (skip_ws_blank _ _ _ Hw1) by done. simpl.
    destruct (members_head _ _ Hrest) as (rest' & Hhead).
    rewrite <- !app_assoc.
    assert (Hskip : skip_ws (w2 ++ rest ++ w ++ rbrace :: r)
                    = rest ++ w ++ rbrace :: r).
    { rewrite Hhead. simpl. by apply skip_ws_blank. }
    rewrite Hskip, IH by (done || lia). done.
Qed.

Lemma read_members_sound (fuel : nat) (s : list ascii)
    (l : list (string * string)) (rest : list ascii) :
  read_members fuel s = Some (l, rest) →
  ∃ m w, members m l ∧ blank w ∧ s = m ++ w ++ rbrace :: rest.
Proof.
  revert s l rest. induction fuel as [|fuel IH]; intros s l rest; [done|].
  simpl.
  destruct (read_member s) as [[kv r]|] eqn:Hm; [|done].
  apply read_member_sound in Hm as (t & -> & Ht).
  destruct (skip_ws_split r) as (w1 & Hw1 & Hr).
  destruct (skip_ws r) as [|c r'] eqn:Hskip; [done|].
  destruct (Ascii.eqb_spec c comma) as [->|_].
  - destruct (read_members fuel (skip_ws r')) as [[l' rest']|] eqn:Hrec;
      [|done].
    intros [= <- <-].
    apply IH in Hrec as (m & w & Hmem & Hw & Hrest).
    destruct (skip_ws_split r') as (w2 & Hw2 & Hr').
    exists (t ++ w1 ++ comma :: w2 ++ m), w. split; [by constructor|].
    split; [done|].
    rewrite <- !app_assoc. f_equal. rewrite Hr. f_equal. simpl. f_equal.
    rewrite <- app_assoc. rewrite Hr' at 1. by rewrite Hrest.
  - destruct (Ascii.eqb_spec c rbrace) as [->|_]; [|done].
    intros [= <- <-].
    exists t, w1. split; [by constructor|]. split; [done|]. by rewrite Hr.
Qed.

Lemma members_length (m : list ascii) (l : list (string * string)) :
  members m l → length l ≤ length m.
Proof.
  induction 1 as [t kv Ht|t w1 w2 rest kv l Ht _ _ _ IH]; simpl.
  - destruct Ht as (tk & ? & ? & ? & -> & Hk & _).
    destruct (literal_head _ _ Hk) as (? & ->). simpl. lia.
  - rewrite !length_app. simpl. rewrite length_app. lia.
Qed.

(** The decoder accepts a text exactly when the text is an object of the
    grammar, and returns the pairs the text denotes. *)
Lemma decode_object (s : list ascii) (l : list (string * string)) :
  decode s = Some l ↔ object s l.
Proof.
  split.
  - unfold decode, read_object.
    destruct (skip_ws_split s) as (w0 & Hw0 & Hs).
    destruct (skip_ws s) as [|c r] eqn:Hskip; [done|].
    destruct (Ascii.eqb_spec c lbrace) as [->|_]; [|done].
    destruct (skip_ws_split r) as (w1 & Hw1 & Hr).
    destruct (skip_ws r) as [|c' r'] eqn:Hskip'; [done|].
    destruct (Ascii.eqb_spec c' rbrace) as [->|_].
    + destruct (skip_ws r') eqn:Hend; [|done].
      intros [= <-]. rewrite Hs, Hr.
      apply object_empty; [done..|]. by apply skip_ws_nil_blank.
    + destruct (read_members (length r) (c' :: r')) as [[l' rest]|] eqn:Hm;
        [|done].
      destruct (skip_ws rest) eqn:Hend; [|done].
      intros [= <-].
      apply read_members_sound in Hm as (m & w2 & Hmem & Hw2 & Hm).
      rewrite Hs, Hr, Hm.
      apply object_members; [done..|]. by apply skip_ws_nil_blank.
  - intros [w0 w1 w2 Hw0 Hw1 Hw2|w0 w1 m w2 w3 l' Hw0 Hw1 Hm Hw2 Hw3];
      unfold decode, read_object.
    + rewrite (skip_ws_blank _ _ _ Hw0) by done. simpl.
      rewrite (skip_ws_blank _ _ _ Hw1) by done. simpl.
      by rewrite (skip_ws_blank_nil _ Hw2).
    + rewrite (skip_ws_blank _ _ _ Hw0) by done. simpl.
      pose proof (members_length _ _ Hm) as Hlen.
      destruct (members_head _ _ Hm) as (m' & Hhead).
      assert (Hskip : skip_ws (w1 ++ m ++ w2 ++ rbrace :: w3)
                      = quote :: m' ++ w2 ++ rbrace :: w3).
      { rewrite Hhead. simpl. by apply skip_ws_blank. }
      rewrite Hskip. change (Ascii.eqb quote rbrace) with false. cbv iota.
      rewrite (app_comm_cons m'), <- Hhead.
      rewrite (read_members_complete _ _ Hm); [|done|].
      * by rewrite (skip_ws_blank_nil _ Hw3).
      * rewrite !length_app. lia.
Qed.

(** The map holds the pairs of the text, when no key is given twice. *)
Lemma to_map_lookup (pairs : list (string * string)) (k v : string) :
  NoDup pairs.*1 → to_map pairs !! k = Some v ↔ (k, v) ∈ pairs.
Proof.
  unfold to_map, fill. intros Hnd.
  assert (Hgen : ∀ m : gmap string string,
            (∀ k', k' ∈ pairs.*1 → m !! k' = None) →
            foldl (λ m kv, <[kv.1:=kv.2]> m) m pairs !! k = Some v
            ↔ (k, v) ∈ pairs ∨ m !! k = Some v).
  { induction pairs as [|[k0 v0] pairs IH]; intros m Hfresh; simpl.
    - rewrite elem_of_nil. tauto.
    - apply NoDup_cons in Hnd as [Hk0 Hnd].
      rewrite IH; [|done|].
      + rewrite elem_of_cons. simpl.
        destruct (decide (k = k0)) as [->|Hne].
        * rewrite lookup_insert_eq. split.
          -- intros [Hin|?]; [|left; left; congruence].
             destruct Hk0. apply list_elem_of_fmap. by exists (k0, v).
          -- intros [[?|Hin]|Hm]; [right; congruence| |].
             ++ destruct Hk0. apply list_elem_of_fmap. by exists (k0, v).
             ++ rewrite Hfresh in Hm; [done|]. simpl. apply elem_of_cons.
                by left.
        * rewrite lookup_insert_ne by done. split.
          -- intros [?|?]; [left; by right|by right].
          -- intros [[?|?]|?]; [congruence|by left|by right].
      + intros k' Hk'. simpl. rewrite lookup_insert_ne.
        * apply Hfresh. simpl. apply elem_of_cons. by right.
        * intros <-. done. }
  rewrite Hgen; [|done]. rewrite lookup_empty. split; [|by left].
  by intros [?|?].
Qed.

(** What the parse returns for a labels string: the map of its pairs when it
    is well formed, the parse error when it is not. *)
Lemma Unmarshal_denotes (text : string) (pairs : list (string * string)) :
  denotes text pairs →
  Unmarshal (String.list_byte_of_string text) None
    = (Some (to_map pairs), None).
Proof.
  intros Hwf. unfold Unmarshal.
  rewrite String.string_of_list_byte_of_string.
  apply decode_object in Hwf. by rewrite Hwf.
Qed.

Lemma Unmarshal_malformed (text : string) :
  (∀ pairs, ¬ denotes text pairs) →
  Unmarshal (String.list_byte_of_string text) None
    = (None, Some syntax_error).
Proof.
  intros Hnot. unfold Unmarshal.
  rewrite String.string_of_list_byte_of_string.
  destruct (decode _) as [pairs|] eqn:Hd; [|done].
  apply decode_object in Hd. by destruct (Hnot pairs).
Qed.

End JsonDecoder.

Section Properties.
Context `{C : Collaborators}.

Ltac unfold_M :=
  unfold Execute, Execute_gather, Execute_submit, stagedURL, Join, bind, ret,
    panic, call, calls, flag, store_image, atomic_AddInt32_unique, time_Now.

(** Both ways the source tests a flag, [== ""] and [!= ""], in one case
    distinction. *)
Ltac case_flag x :=
  destruct (decide (x = "")) as [?|?];
  [ rewrite ?(decide_False (P := x ≠ "")) by (intros ?; done)
  | rewrite ?(decide_True (P := x ≠ "")) by done ];
  simpl.

(** ** Required fields *)

(** C3: with the project or the staging location empty, [Execute] (and the
    gathering of the options in it) returns an error made by [errors.New]
    whose text names the flag to set, [--project] when the project is empty
    and [--staging_location] otherwise; the state of the process is the one
    it started from: no call has left the package, no image was resolved, no
    counter was drawn, the clock was not read. *)
Theorem missing_required_field (p : Pipeline) (s : state) :
  gcpopts_Project = "" ∨ stagingLocation (flags s) = "" →
  ∃ text,
    Execute_gather s = (Ret (Failure (errors_New text)), s) ∧
    Execute p s = (Ret (Some (errors_New text)), s) ∧
    (gcpopts_Project = "" → contains "--project" text = true) ∧
    (gcpopts_Project ≠ "" → contains "--staging_location" text = true).
Proof.
  intros Hmissing. unfold_M.
  destruct (decide (gcpopts_Project = "")) as [Hp|Hp].
  - eexists. split; [done|]. split; [done|]. split; [done|]. by intros.
  - destruct Hmissing as [?|Hs]; [done|].
    simpl. rewrite Hs. simpl.
    eexists. split; [done|]. split; [done|]. split; [by intros|]. done.
Qed.

(** C10: with both the project and the staging location empty the error is
    the one about the project, not the one about the staging location, and the
    state is untouched. *)
Theorem project_checked_first (p : Pipeline) (s : state) :
  gcpopts_Project = "" →
  stagingLocation (flags s) = "" →
  ∃ text,
    Execute p s = (Ret (Some (errors_New text)), s) ∧
    text = "no Google Cloud project specified. Use --project=<project>" ∧
    contains "--project" text = true ∧
    contains "--staging_location" text = false.
Proof.
  intros Hp Hs. unfold_M. rewrite Hp. simpl. by eexists.
Qed.

(** ** The options gathered *)

(** The run of the first half past the two checks, when the labels parse (or
    there are none) and the temp location is there (given, or joined). *)
Lemma Execute_gather_success (s : state) (parsed : labelmap) (tmp : string) :
  gcpopts_Project ≠ "" →
  stagingLocation (flags s) ≠ "" →
  (if decide (labels (flags s) = "") then (None, None)
   else json_Unmarshal (String.list_byte_of_string (labels (flags s))) None)
    = (parsed, None) →
  (if decide (tempLocation (flags s) = "")
   then gcsx_Join (stagingLocation (flags s)) "tmp"
   else Some (tempLocation (flags s))) = Some tmp →
  Execute_gather s =
      (Ret (Success
         {| Name := jobopts_GetJobName;
            Experiments :=
              (if decide (minCPUPlatform (flags s) = "")
               then jobopts_GetExperiments
               else jobopts_GetExperiments ++
                      ["min_cpu_platform=" +:+ minCPUPlatform (flags s)]);
            Options := PipelineOptions_Export;
            Project := gcpopts_Project;
            Region := region (flags s);
            Zone := zone (flags s);
            Network := network (flags s);
            NumWorkers := numWorkers (flags s);
            MachineType := machineType (flags s);
            Labels := parsed;
            TempLocation := tmp;
            Worker := jobopts_WorkerBinary;
            TeardownPolicy := teardownPolicy (flags s) |}), after_gather s).
Proof.
  intros Hp Hs Hl Ht. unfold after_gather. unfold_M.
  destruct (decide (gcpopts_Project = "")) as [?|_]; [done|]. simpl.
  destruct (decide (stagingLocation (flags s) = "")) as [?|_]; [done|].
  case_flag (image (flags s)); case_flag (labels (flags s));
    rewrite ?Hl; simplify_eq; simpl;
    case_flag (cpuProfiling (flags s));
    case_flag (minCPUPlatform (flags s));
    case_flag (tempLocation (flags s));
    rewrite ?Ht; simplify_eq; simpl;
    by rewrite <- ?app_assoc.
Qed.

(** C4: with non-empty labels (and the two required fields there), the
    labels are handed to [json.Unmarshal] as they are.

    Whatever the parser: when it fails, [Execute] returns a new error whose
    text is ["error reading --label flag as JSON: "] followed by the text of
    the parse error, and the parse is the last call made; when it succeeds,
    the map it has filled in is the [Labels] of the options, unchanged, for
    any temp location that is given or can be joined.

    With the parser of the specification, [Json.Unmarshal]: when the labels
    are a well-formed JSON object of strings, the [Labels] of the options are
    the map of the key/value pairs of the text, which holds these pairs and
    no other when no key is given twice; when the labels are no such object,
    [Execute] returns the error above, made from the parse error. *)
Theorem labels_parsed (p : Pipeline) (s : state) :
  gcpopts_Project ≠ "" →
  stagingLocation (flags s) ≠ "" →
  labels (flags s) ≠ "" →
  let data := String.list_byte_of_string (labels (flags s)) in
  let invalid (err : error) :=
    errorString ("error reading --label flag as JSON: " +:+ Error err) in
  match json_Unmarshal data None with
  | (_, Some err) =>
      ∃ s1, Execute_gather s = (Ret (Failure (invalid err)), s1) ∧
            Execute p s = (Ret (Some (invalid err)), s1) ∧
            last (trace s1) = Some (Unmarshal data)
  | (parsed, None) =>
      ∀ tmp,
        (if decide (tempLocation (flags s) = "")
         then gcsx_Join (stagingLocation (flags s)) "tmp"
         else Some (tempLocation (flags s))) = Some tmp →
        ∃ opts s1, Execute_gather s = (Ret (Success opts), s1) ∧
                   Unmarshal data ∈ trace s1 ∧
                   Labels opts = parsed
  end ∧
  (json_Unmarshal data None = Json.Unmarshal data None →
   (∀ pairs,
      Json.denotes (labels (flags s)) pairs →
      ∀ tmp,
        (if decide (tempLocation (flags s) = "")
         then gcsx_Join (stagingLocation (flags s)) "tmp"
         else Some (tempLocation (flags s))) = Some tmp →
        ∃ opts s1, Execute_gather s = (Ret (Success opts), s1) ∧
                   Labels opts = Some (Json.to_map pairs) ∧
                   (NoDup pairs.*1 →
                    ∀ k v, Json.to_map pairs !! k = Some v
                           ↔ (k, v) ∈ pairs)) ∧
   ((∀ pairs, ¬ Json.denotes (labels (flags s)) pairs) →
    ∃ err s1, json_Unmarshal data None = (None, Some err) ∧
              Execute_gather s = (Ret (Failure (invalid err)), s1) ∧
              Execute p s = (Ret (Some (invalid err)), s1))).
Proof.
  intros Hp Hs Hl data invalid.
  assert (Hfail : ∀ parsed err,
            json_Unmarshal data None = (parsed, Some err) →
            ∃ s1, Execute_gather s = (Ret (Failure (invalid err)), s1) ∧
                  Execute p s = (Ret (Some (invalid err)), s1) ∧
                  last (trace s1) = Some (Unmarshal data)).
  { intros parsed err Hj. unfold_M.
    destruct (decide (gcpopts_Project = "")) as [?|_]; [done|]. simpl.
    destruct (decide (stagingLocation (flags s) = "")) as [?|_]; [done|].
    case_flag (image (flags s));
      (case_flag (labels (flags s)); [done|]);
      fold data; rewrite Hj; simpl;
      (eexists; split; [reflexivity|]; split; [reflexivity|]);
      simpl; by rewrite last_snoc. }
  assert (Hok : ∀ parsed tmp,
            json_Unmarshal data None = (parsed, None) →
            (if decide (tempLocation (flags s) = "")
             then gcsx_Join (stagingLocation (flags s)) "tmp"
             else Some (tempLocation (flags s))) = Some tmp →
            ∃ opts s1, Execute_gather s = (Ret (Success opts), s1) ∧
                       Unmarshal data ∈ trace s1 ∧
                       Labels opts = parsed).
  { intros parsed tmp Hj Ht.
    eexists _, (after_gather s). split.
    { apply (Execute_gather_success s parsed tmp Hp Hs); [|done].
      destruct (decide (labels (flags s) = "")); [done|]. exact Hj. }
    split; [|done]. unfold after_gather. simpl.
    destruct (decide (labels (flags s) = "")); [done|].
    fold data. set_solver. }
  split.
  - destruct (json_Unmarshal data None) as [parsed [err|]] eqn:Hj.
    + by eapply Hfail.
    + intros tmp Ht. by eapply Hok.
  - intros Hspec. split.
    + intros pairs Hwf tmp Ht.
      destruct (Hok (Some (Json.to_map pairs)) tmp)
        as (opts & s1 & Hg & _ & HL); [|done|].
      { rewrite Hspec. by apply Unmarshal_denotes. }
      exists opts, s1. split; [done|]. split; [done|].
      intros Hnd k v. by apply to_map_lookup.
    + intros Hnot.
      assert (Hj : json_Unmarshal data None = (None, Some Json.syntax_error)).
      { rewrite Hspec. by apply Unmarshal_malformed. }
      destruct (Hfail None Json.syntax_error Hj) as (s1 & Hg & He & _).
      by exists Json.syntax_error, s1.
Qed.

(** C7: past the two checks and the labels, the [TempLocation] of the
    options is [gcsx.Join( *stagingLocation, "tmp")] when the flag
    [temp_location] is empty, for every staging location that [gcsx.Join]
    takes, and is the flag itself, unchanged, when it is not empty. *)
Theorem temp_location_default (s : state) (parsed : labelmap) :
  gcpopts_Project ≠ "" →
  stagingLocation (flags s) ≠ "" →
  (if decide (labels (flags s) = "") then (None, None)
   else json_Unmarshal (String.list_byte_of_string (labels (flags s))) None)
    = (parsed, None) →
  (tempLocation (flags s) = "" →
   ∀ tmp, gcsx_Join (stagingLocation (flags s)) "tmp" = Some tmp →
     ∃ opts, Execute_gather s = (Ret (Success opts), after_gather s) ∧
             TempLocation opts = tmp) ∧
  (tempLocation (flags s) ≠ "" →
   ∃ opts, Execute_gather s = (Ret (Success opts), after_gather s) ∧
           TempLocation opts = tempLocation (flags s)).
Proof.
  intros Hp Hs Hl. split.
  - intros Ht tmp Hj. eexists. split.
    + apply (Execute_gather_success s parsed tmp Hp Hs Hl).
      by rewrite decide_True.
    + reflexivity.
  - intros Ht. eexists. split.
    + apply (Execute_gather_success s parsed (tempLocation (flags s)) Hp Hs Hl).
      by rewrite decide_False.
    + reflexivity.
Qed.

(** ** Submission *)

Section Keeps.
Context (R : relation state) `{!PreOrder R}.

Lemma keeps_ret {A} (a : A) : keeps R (ret a).
Proof. intros s. simpl. reflexivity. Qed.

Lemma keeps_panic {A} (v : string) : keeps R (panic (A:=A) v).
Proof. intros s. simpl. reflexivity. Qed.

Lemma keeps_flag {A} (f : Flags → A) : keeps R (flag f).
Proof. intros s. simpl. reflexivity. Qed.

Lemma keeps_bind {A B} (m : M A) (k : A → M B) :
  keeps R m → (∀ a, keeps R (k a)) → keeps R (bind m k).
Proof.
  intros Hm Hk s. unfold bind. specialize (Hm s).
  destruct (m s) as [[a|v] s']; simpl in *; [|done].
  etrans; [exact Hm | apply Hk].
Qed.

Lemma keeps_Join (object elm : string) :
  keeps R (Join object elm).
Proof.
  unfold Join. destruct (gcsx_Join object elm); [apply keeps_ret | apply keeps_panic].
Qed.

End Keeps.

Ltac intro_value :=
  match goal with |- ∀ _, keeps _ _ => intros ? end.

#[local] Instance gathered_preorder : PreOrder gathered.
Proof.
  split.
  - intros s. split; [by destruct (flags s)|]. split; [done|]. split; [done|].
    exists []. by rewrite app_nil_r.
  - intros s1 s2 s3 (Hf1 & Hu1 & Ht1 & l1 & Hl1 & HP1) (Hf2 & Hu2 & Ht2 & l2 & Hl2 & HP2).
    split; [by rewrite <- Hf2, <- Hf1|]. split; [congruence|]. split; [congruence|].
    exists (l1 ++ l2). split; [by rewrite Hl2, Hl1, app_assoc|].
    by apply Forall_app.
Qed.

#[local] Instance dry_preorder : PreOrder dry.
Proof.
  split.
  - intros s Hs. split; [done|]. exists []. by rewrite app_nil_r.
  - intros s1 s2 s3 H1 H2 Hs.
    destruct (H1 Hs) as (Hs2 & l1 & Hl1 & HP1).
    destruct (H2 Hs2) as (Hs3 & l2 & Hl2 & HP2).
    split; [done|]. exists (l1 ++ l2). split; [by rewrite Hl2, Hl1, app_assoc|].
    by apply Forall_app.
Qed.

Lemma gathered_dry (s s' : state) : gathered s s' → dry s s'.
Proof.
  intros (Hf & _ & _ & Hl) Hs. split; [|done].
  rewrite <- Hf. by destruct (flags s).
Qed.

Lemma gathered_call (ev : event) :
  is_Submit ev = false → keeps gathered (call ev).
Proof.
  intros Hev s. simpl. split; [by destruct (flags s)|]. split; [done|]. split; [done|].
  exists [ev]. split; [done|]. by constructor.
Qed.

Lemma gathered_store_image (v : string) : keeps gathered (store_image v).
Proof.
  intros s. simpl. split; [done|]. split; [done|]. split; [done|].
  exists []. by rewrite app_nil_r.
Qed.

Lemma Execute_gather_gathered : keeps gathered Execute_gather.
Proof.
  unfold Execute_gather.
  repeat first
    [ apply keeps_ret | apply keeps_flag | apply keeps_Join
    | apply gathered_store_image | (apply gathered_call; reflexivity)
    | apply keeps_bind | intro_value | case_decide | case_match ];
  apply _.
Qed.

Lemma dry_call (ev : event) : is_Submit ev = false → keeps dry (call ev).
Proof.
  intros Hev s Hs. simpl. split; [done|].
  exists [ev]. split; [done|]. by constructor.
Qed.

Lemma dry_atomic_AddInt32_unique (delta : Z) :
  keeps dry (atomic_AddInt32_unique delta).
Proof. intros s Hs. simpl. split; [done|]. exists []. by rewrite app_nil_r. Qed.

Lemma dry_time_Now : keeps dry time_Now.
Proof. intros s Hs. simpl. split; [done|]. exists []. by rewrite app_nil_r. Qed.

(** Under [dryRun] only the first branch of [if *dryRun] runs. *)
Lemma dry_if_dryRun {A} (k : bool → M A) :
  keeps dry (k true) → keeps dry (bind (flag dryRun) k).
Proof.
  intros Hk s Hs. unfold bind, flag. rewrite Hs. by apply Hk.
Qed.

Lemma Execute_gather_dry : keeps dry Execute_gather.
Proof. intros s. apply gathered_dry, Execute_gather_gathered. Qed.

Lemma stagedURL_dry (kind : string) (id : Z) : keeps dry (stagedURL kind id).
Proof.
  unfold stagedURL.
  repeat first [ apply keeps_flag | apply keeps_Join | apply dry_time_Now
               | apply keeps_bind | intro_value ]; apply _.
Qed.

Lemma Execute_submit_dry (p : Pipeline) (opts : JobOptions RawOptions) :
  keeps dry (Execute_submit p opts).
Proof.
  unfold Execute_submit.
  repeat first
    [ apply keeps_ret | apply keeps_flag | apply stagedURL_dry
    | apply dry_atomic_AddInt32_unique | (apply dry_call; reflexivity)
    | apply dry_if_dryRun | apply keeps_bind | intro_value | case_match ];
  apply _.
Qed.

Lemma Execute_dry (p : Pipeline) : keeps dry (Execute p).
Proof.
  unfold Execute. apply keeps_bind; [apply _ | apply Execute_gather_dry |].
  intros [opts|err]; [apply Execute_submit_dry | apply keeps_ret; apply _].
Qed.

(** The run of the second half once the model is there and both names are
    drawn: the counter is one further, the clock was read twice, and the calls
    made are those of the branch chosen by [*dryRun]. *)
Lemma Execute_submit_named (p : Pipeline) (opts : JobOptions RawOptions)
    (s : state) (edges : Edges) (model : Model) (modelURL workerURL : string) :
  Pipeline_Build p = Success edges →
  graphx_Marshal edges (image (flags s)) = Success model →
  gcsx_Join (stagingLocation (flags s))
    (objectName "model-" (wrap32 (unique s + 1)) (time_Now_UnixNano (ticks s)))
    = Some modelURL →
  gcsx_Join (stagingLocation (flags s))
    (objectName "worker-" (wrap32 (unique s + 1))
       (time_Now_UnixNano (S (ticks s))))
    = Some workerURL →
  Execute_submit p opts s =
    let after (r : option error) (l : list event) :=
      (Ret r, {| flags := flags s; unique := wrap32 (unique s + 1);
                 ticks := S (S (ticks s));
                 trace := trace s ++
                   [Build p; Marshal edges (image (flags s))] ++ l |}) in
    if dryRun (flags s) then
      match dataflowlib_Translate model opts workerURL modelURL with
      | Failure err =>
          after (Some err)
            [LogInfo "Dry-run: not submitting job!";
             LogInfo (proto_MarshalTextString model);
             Translate model opts workerURL modelURL]
      | Success job =>
          after None
            [LogInfo "Dry-run: not submitting job!";
             LogInfo (proto_MarshalTextString model);
             Translate model opts workerURL modelURL;
             PrintJob job]
      end
    else
      let answer := dataflowlib_Execute model opts workerURL modelURL
                      (endpoint (flags s)) false in
      after (returned_error answer)
        [Submit model opts workerURL modelURL (endpoint (flags s)) false answer].
Proof.
  intros Hb Hm Hmu Hwu. unfold_M. simpl.
  rewrite Hb. simpl. rewrite Hm. simpl. rewrite Hmu. simpl. rewrite Hwu. simpl.
  destruct (dryRun (flags s)); simpl.
  - destruct (dataflowlib_Translate _ _ _ _); simpl; by rewrite <- !app_assoc.
  - destruct (dataflowlib_Execute _ _ _ _ _ _); simpl; by rewrite <- !app_assoc.
Qed.

(** What the gathering leaves as it was. *)
Lemma Execute_gather_frame (s s1 : state) (r : result (fallible (JobOptions RawOptions))) :
  Execute_gather s = (r, s1) →
  dryRun (flags s1) = dryRun (flags s) ∧
  endpoint (flags s1) = endpoint (flags s) ∧
  stagingLocation (flags s1) = stagingLocation (flags s) ∧
  unique s1 = unique s ∧ ticks s1 = ticks s.
Proof.
  intros Hg. pose proof (Execute_gather_gathered s) as (Hf & Hu & Ht & _).
  rewrite Hg in Hf, Hu, Ht. simpl in *. rewrite <- Hf.
  by destruct (flags s).
Qed.

Lemma Execute_after_gather (p : Pipeline) (s s1 : state)
    (opts : JobOptions RawOptions) :
  Execute_gather s = (Ret (Success opts), s1) →
  Execute p s = Execute_submit p opts s1.
Proof. intros Hg. unfold Execute, bind. by rewrite Hg. Qed.

(** C1: with [dryRun] set, no run of [Execute] calls [dataflowlib.Execute],
    whatever the pipeline and the flags; and once the options are gathered,
    the model is marshalled and the two names are drawn, the calls that
    follow are the two log lines (the notice and the text of the model), the
    translation and, when it succeeds, the printing of the translated job,
    after which [Execute] returns nil; when the translation fails [Execute]
    returns the error of the translation as it is and prints no job. *)
Theorem dry_run_previews (p : Pipeline) (s : state) :
  dryRun (flags s) = true →
  (∃ l, trace (Execute p s).2 = trace s ++ l ∧
        Forall (λ ev, is_Submit ev = false) l) ∧
  (∀ opts s1 edges model modelURL workerURL,
     Execute_gather s = (Ret (Success opts), s1) →
     Pipeline_Build p = Success edges →
     graphx_Marshal edges (image (flags s1)) = Success model →
     gcsx_Join (stagingLocation (flags s))
       (objectName "model-" (wrap32 (unique s + 1))
          (time_Now_UnixNano (ticks s))) = Some modelURL →
     gcsx_Join (stagingLocation (flags s))
       (objectName "worker-" (wrap32 (unique s + 1))
          (time_Now_UnixNano (S (ticks s)))) = Some workerURL →
     let preview :=
       [LogInfo "Dry-run: not submitting job!";
        LogInfo (proto_MarshalTextString model);
        Translate model opts workerURL modelURL] in
     let compiled := trace s1 ++ [Build p; Marshal edges (image (flags s1))] in
     match dataflowlib_Translate model opts workerURL modelURL with
     | Success job =>
         (Execute p s).1 = Ret None ∧
         trace (Execute p s).2 = compiled ++ preview ++ [PrintJob job]
     | Failure err =>
         (Execute p s).1 = Ret (Some err) ∧
         trace (Execute p s).2 = compiled ++ preview
     end).
Proof.
  intros Hdry. split.
  - by apply (Execute_dry p s).
  - intros opts s1 edges model modelURL workerURL Hg Hb Hm Hmu Hwu.
    destruct (Execute_gather_frame _ _ _ Hg) as (Hd & _ & Hst & Hu & Ht).
    rewrite (Execute_after_gather p s s1 opts Hg).
    rewrite <- Hst, <- Hu, <- Ht in Hmu, Hwu.
    rewrite (Execute_submit_named p opts s1 edges model modelURL workerURL
               Hb Hm Hmu Hwu).
    rewrite Hd, Hdry. simpl.
    destruct (dataflowlib_Translate _ _ _ _); simpl;
      by rewrite <- ?app_assoc.
Qed.

(** C2, as the code has it: with [dryRun] unset, once the options are
    gathered, the model is marshalled and the two names are drawn, [Execute]
    calls [dataflowlib.Execute] once, on the model, the options, the two names
    and the endpoint, and returns the error of that call as it is: nil when
    the call succeeded, the very error value when it failed.  The first result
    of the call (the job) is dropped: [Execute] returns an [error] and nothing
    else. *)
Theorem submit_returns_error (p : Pipeline) (s s1 : state)
    (opts : JobOptions RawOptions) (edges : Edges) (model : Model)
    (modelURL workerURL : string) :
  dryRun (flags s) = false →
  Execute_gather s = (Ret (Success opts), s1) →
  Pipeline_Build p = Success edges →
  graphx_Marshal edges (image (flags s1)) = Success model →
  gcsx_Join (stagingLocation (flags s))
    (objectName "model-" (wrap32 (unique s + 1))
       (time_Now_UnixNano (ticks s))) = Some modelURL →
  gcsx_Join (stagingLocation (flags s))
    (objectName "worker-" (wrap32 (unique s + 1))
       (time_Now_UnixNano (S (ticks s)))) = Some workerURL →
  let answer := dataflowlib_Execute model opts workerURL modelURL
                  (endpoint (flags s)) false in
  Execute p s =
    (Ret (returned_error answer),
     {| flags := flags s1; unique := wrap32 (unique s + 1);
        ticks := S (S (ticks s));
        trace := trace s1 ++
          [Build p; Marshal edges (image (flags s1));
           Submit model opts workerURL modelURL (endpoint (flags s)) false
             answer] |}).
Proof.
  intros Hdry Hg Hb Hm Hmu Hwu.
  destruct (Execute_gather_frame _ _ _ Hg) as (Hd & He & Hst & Hu & Ht).
  rewrite (Execute_after_gather p s s1 opts Hg).
  rewrite <- Hst, <- Hu, <- Ht in Hmu, Hwu.
  rewrite (Execute_submit_named p opts s1 edges model modelURL workerURL
             Hb Hm Hmu Hwu).
  rewrite Hd, Hdry, He, Hu, Ht. reflexivity.
Qed.

(** C6, as the code has it: once the options are gathered, a failure of
    [p.Build()] is returned as it is, and a failure of [graphx.Marshal] is
    returned as a new error whose text is ["failed to generate model
    pipeline: "] followed by the text of the cause; in both cases nothing
    runs after the failing call: no name is drawn, nothing is translated or
    submitted. *)
Theorem compilation_failure (p : Pipeline) (s s1 : state)
    (opts : JobOptions RawOptions) :
  Execute_gather s = (Ret (Success opts), s1) →
  (∀ err, Pipeline_Build p = Failure err →
     Execute p s =
       (Ret (Some err),
        {| flags := flags s1; unique := unique s1; ticks := ticks s1;
           trace := trace s1 ++ [Build p] |})) ∧
  (∀ edges err,
     Pipeline_Build p = Success edges →
     graphx_Marshal edges (image (flags s1)) = Failure err →
     Execute p s =
       (Ret (Some (errorString
                     ("failed to generate model pipeline: " +:+ Error err))),
        {| flags := flags s1; unique := unique s1; ticks := ticks s1;
           trace := trace s1 ++ [Build p; Marshal edges (image (flags s1))] |})).
Proof.
  intros Hg. rewrite (Execute_after_gather p s s1 opts Hg). split.
  - intros err Hb. unfold_M. simpl. by rewrite Hb.
  - intros edges err Hb Hm. unfold_M. simpl. rewrite Hb. simpl. rewrite Hm.
    simpl. by rewrite <- app_assoc.
Qed.

(** ** The profile hook *)

(** One invocation of the function [gcsRecorderHook] returns. *)
Lemma gcsRecorderHook_func_run (bucket prefix spec : string) (r : Reader)
    (s : state) :
  gcsRecorderHook_func bucket prefix spec r s =
    match gcsx_NewClient (length (trace s)) with
    | Failure err =>
        (Ret (Some (errorString
                      ("couldn't establish GCS client: " +:+ Error err))),
         {| flags := flags s; unique := unique s; ticks := ticks s;
            trace := trace s ++ [NewClient (Failure err)] |})
    | Success client =>
        let object := path_Join prefix spec in
        let answer :=
          gcsx_WriteObject (S (length (trace s))) client bucket object r in
        (Ret answer,
         {| flags := flags s; unique := unique s; ticks := ticks s;
            trace := trace s ++
              [NewClient (Success client);
               WriteObject client bucket object r answer] |})
    end.
Proof.
  unfold gcsRecorderHook_func. unfold_M. simpl.
  destruct (gcsx_NewClient (length (trace s))); simpl; [|done].
  rewrite length_app, Nat.add_1_r, <- app_assoc. done.
Qed.

(** C8: an invocation of the hook first asks for a GCS client.  With a
    client, it writes the reader to the object [path.Join(prefix, spec)] of
    the bucket and returns what the write returns.  Without one, it returns a
    new error whose text is ["couldn't establish GCS client: "] followed by the
    text of the cause; it has written nothing, it has not panicked, and the
    flags, the counter and the clock are as they were. *)
Theorem capture_writes_under_prefix (bucket prefix spec : string) (r : Reader)
    (s : state) :
  match gcsx_NewClient (length (trace s)) with
  | Success client =>
      let object := path_Join prefix spec in
      let answer :=
        gcsx_WriteObject (S (length (trace s))) client bucket object r in
      gcsRecorderHook_func bucket prefix spec r s =
        (Ret answer,
         {| flags := flags s; unique := unique s; ticks := ticks s;
            trace := trace s ++
              [NewClient (Success client);
               WriteObject client bucket object r answer] |})
  | Failure err =>
      gcsRecorderHook_func bucket prefix spec r s =
        (Ret (Some (errorString
                      ("couldn't establish GCS client: " +:+ Error err))),
         {| flags := flags s; unique := unique s; ticks := ticks s;
            trace := trace s ++ [NewClient (Failure err)] |})
  end.
Proof.
  rewrite gcsRecorderHook_func_run.
  by destruct (gcsx_NewClient (length (trace s))).
Qed.

(** C9: when [gcsx.ParseObject] rejects the destination, [gcsRecorderHook]
    panics, with a message that shows its options; it returns no hook and no
    error value.  When the destination parses, [gcsRecorderHook] returns the
    hook that closes over the bucket and the prefix parsed, and whatever the
    state and the spec an invocation of that hook starts from, every write it
    makes goes to that bucket, to the object [path.Join(prefix, spec)]. *)
Theorem hook_registration (opts0 : string) (rest : list string) :
  match gcsx_ParseObject opts0 with
  | Failure _ =>
      gcsRecorderHook (opts0 :: rest) =
        Panic ("Invalid hook configuration for gcsRecorderHook: "
               +:+ fmt_strings (opts0 :: rest))
  | Success (bucket, prefix) =>
      gcsRecorderHook (opts0 :: rest) = Ret (gcsRecorderHook_func bucket prefix) ∧
      ∀ spec r s client b object r' answer,
        WriteObject client b object r' answer
          ∈ trace (gcsRecorderHook_func bucket prefix spec r s).2 →
        WriteObject client b object r' answer ∈ trace s ∨
        (b = bucket ∧ object = path_Join prefix spec)
  end.
Proof.
  unfold gcsRecorderHook.
  destruct (gcsx_ParseObject opts0) as [[bucket prefix]|err]; [|done].
  split; [done|]. intros spec r s client b object r' answer.
  rewrite gcsRecorderHook_func_run.
  destruct (gcsx_NewClient (length (trace s))); simpl;
    rewrite elem_of_app; (intros [?|Hin]; [by left|]); right.
  - apply elem_of_cons in Hin as [?|Hin]; [done|].
    apply list_elem_of_singleton in Hin. by simplify_eq.
  - apply list_elem_of_singleton in Hin. done.
Qed.

(** ** The names of the staged objects *)

Lemma wrap32_idemp (z : Z) : wrap32 (wrap32 z) = wrap32 z.
Proof. apply wrap32_id, wrap32_int32. Qed.

(** The two kinds of name never meet, and a name gives back its id and its
    reading of the clock. *)
Lemma objectName_inj (kind1 kind2 : string) (id1 now1 id2 now2 : Z) :
  kind1 ∈ ["model-"; "worker-"] → kind2 ∈ ["model-"; "worker-"] →
  objectName kind1 id1 now1 = objectName kind2 id2 now2 →
  kind1 = kind2 ∧ id1 = id2 ∧ now1 = now2.
Proof.
  intros H1 H2 Heq. unfold objectName in Heq.
  assert (kind1 = kind2 ∧
          fmt_int id1 +:+ String "-" (fmt_int now1)
          = fmt_int id2 +:+ String "-" (fmt_int now2)) as [-> Hrest].
  { set_unfold in H1. set_unfold in H2.
    destruct H1 as [->|[->|[]]], H2 as [->|[->|[]]];
      simpl in Heq; by simplify_eq. }
  split; [done|].
  apply fmt_int_dash_inj in Hrest as [? Hnow]. split; [done|].
  by apply (inj pretty).
Qed.

Lemma stagedURL_run (kind : string) (id : Z) (s : state) :
  stagedURL kind id s =
    let s' := {| flags := flags s; unique := unique s; ticks := S (ticks s);
                 trace := trace s |} in
    match gcsx_Join (stagingLocation (flags s))
            (objectName kind id (time_Now_UnixNano (ticks s))) with
    | Some url => (Ret url, s')
    | None => (Panic "gcsx.Join", s')
    end.
Proof. unfold_M. simpl. by destruct (gcsx_Join _ _). Qed.

Lemma omap_insert_same (gs : list namer) (i : nat) (t t' : namer) :
  gs !! i = Some t → namer_id t' = namer_id t →
  omap namer_id (<[i:=t']> gs) = omap namer_id gs.
Proof.
  revert i. induction gs as [|a gs IH]; intros [|i] Hi Hid; simpl in *;
    simplify_eq.
  - by rewrite Hid.
  - pose proof (IH i Hi Hid) as IH'.
    destruct (namer_id a); [f_equal|]; exact IH'.
Qed.

Lemma omap_insert_new (gs : list namer) (i : nat) (t t' : namer) (id : Z) :
  gs !! i = Some t → namer_id t = None → namer_id t' = Some id →
  omap namer_id (<[i:=t']> gs) ≡ₚ id :: omap namer_id gs.
Proof.
  revert i. induction gs as [|a gs IH]; intros [|i] Hi Hnone Hid; simpl in *;
    simplify_eq.
  - by rewrite Hnone, Hid.
  - pose proof (IH i Hi Hnone Hid) as IH'.
    destruct (namer_id a) as [x|]; [|exact IH'].
    etrans; [apply Permutation_skip, IH' | apply Permutation_swap].
Qed.

Lemma length_omap_le (gs : list namer) :
  length (omap namer_id gs) ≤ length gs.
Proof.
  induction gs as [|a gs IH]; simpl; [done|].
  destruct (namer_id a); simpl; unfold omap in IH; lia.
Qed.

(** Two goroutines holding the same id are the same goroutine, when no id is
    held twice. *)
Lemma NoDup_omap_lookup (gs : list namer) (i j : nat) (a b : namer) (id : Z) :
  NoDup (omap namer_id gs) →
  gs !! i = Some a → gs !! j = Some b →
  namer_id a = Some id → namer_id b = Some id → i = j.
Proof.
  revert i j. induction gs as [|g gs IH]; intros i j Hnd Hi Hj Ha Hb;
    [done|].
  assert (Hmem : ∀ n t, gs !! n = Some t → namer_id t = Some id →
                        id ∈ omap namer_id gs).
  { intros n t Hn Ht. apply list_elem_of_omap. exists t. split; [|done].
    by apply list_elem_of_lookup_2 in Hn. }
  simpl in Hnd. destruct i as [|i], j as [|j]; simpl in *; simplify_eq.
  - done.
  - rewrite Ha in Hnd. apply NoDup_cons in Hnd as [Hnot _].
    destruct Hnot. by eapply Hmem.
  - rewrite Hb in Hnd. apply NoDup_cons in Hnd as [Hnot _].
    destruct Hnot. by eapply Hmem.
  - f_equal. apply (IH i j); [|done..].
    destruct (namer_id g); [by apply NoDup_cons in Hnd as [_ ?] | done].
Qed.

(** One line of one goroutine keeps [names_inv], and the number of
    goroutines. *)
Lemma schedule_step_inv (c : Z) (fl : Flags) (i : nat) (pr pr' : process) :
  names_inv c fl pr →
  schedule_step i pr = Ret pr' →
  names_inv c fl pr' ∧ length (goroutines pr') = length (goroutines pr).
Proof.
  intros Hinv Hstep.
  unfold schedule_step in Hstep.
  destruct (goroutines pr !! i) as [t|] eqn:Hi; [|by simplify_eq].
  destruct Hinv as (Hfl & (k & Hk & Hperm) & Hnames).
  assert (Ht : names_of (stagingLocation fl) t).
  { eapply Forall_lookup_1; [exact Hnames | exact Hi]. }
  destruct t as [|id|id modelURL|id modelURL workerURL]; simpl in Hstep.
  - unfold_M. simpl in Hstep. simplify_eq. simpl.
    assert (Hid : wrap32 (unique (shared pr) + 1)
                  = wrap32 (c + Z.of_nat (S k))).
    { rewrite <- wrap32_add_l, Hk, wrap32_add_l. f_equal. lia. }
    split; [|by rewrite length_insert].
    split; [done|]. split; [|by apply Forall_insert].
    exists (S k). split.
    + cbn [unique shared]. by rewrite wrap32_idemp.
    + cbn [unique shared goroutines].
      rewrite (omap_insert_new _ _ AtAdd _ (wrap32 (unique (shared pr) + 1)))
        by done.
      rewrite Hperm, Hid, seq_S, fmap_app.
      apply Permutation_cons_append.
  - unfold bind in Hstep. rewrite stagedURL_run in Hstep. simpl in Hstep.
    rewrite Hfl in Hstep.
    destruct (gcsx_Join _ _) as [url|] eqn:Hj; simpl in Hstep; simplify_eq.
    unfold names_inv. cbn [shared goroutines flags unique].
    split; [|by rewrite length_insert].
    split; [done|]. split.
    + exists k. split; [done|]. by rewrite (omap_insert_same _ _ (AtModel id)).
    + apply Forall_insert; [done|]. simpl. by eexists.
  - unfold bind in Hstep. rewrite stagedURL_run in Hstep. simpl in Hstep.
    rewrite Hfl in Hstep.
    destruct (gcsx_Join _ _) as [url|] eqn:Hj; simpl in Hstep; simplify_eq.
    unfold names_inv. cbn [shared goroutines flags unique].
    split; [|by rewrite length_insert].
    split; [done|]. split.
    + exists k. split; [done|].
      by rewrite (omap_insert_same _ _ (AtWorker id modelURL)).
    + apply Forall_insert; [done|]. simpl. split; [done|]. by eexists.
  - unfold ret in Hstep. simplify_eq. simpl.
    rewrite list_insert_id by done. split; [|done].
    split; [done|]. split; [|done]. by exists k.
Qed.

Lemma run_inv (c : Z) (fl : Flags) (schedule : list nat) (pr pr' : process) :
  names_inv c fl pr →
  run schedule pr = Ret pr' →
  names_inv c fl pr' ∧ length (goroutines pr') = length (goroutines pr).
Proof.
  revert pr. induction schedule as [|i rest IH]; intros pr Hinv Hrun;
    simpl in Hrun.
  - by simplify_eq.
  - destruct (schedule_step i pr) as [pr1|v] eqn:Hstep; [|done].
    destruct (schedule_step_inv c fl i pr pr1 Hinv Hstep) as [Hinv1 Hlen1].
    destruct (IH pr1 Hinv1 Hrun) as [Hinv' Hlen']. split; [done|congruence].
Qed.

Lemma spawn_inv (n : nat) (s : state) :
  names_inv (unique s) (flags s) (spawn n s).
Proof.
  split; [done|]. split.
  - exists 0. simpl. split; [f_equal; lia|].
    induction n as [|n IH]; simpl; done.
  - simpl. apply Forall_replicate. done.
Qed.

(** Under [names_inv] no id is held by two goroutines, as long as there are
    no more than [2^32] of them. *)
Lemma names_inv_NoDup (c : Z) (fl : Flags) (pr : process) :
  names_inv c fl pr →
  (Z.of_nat (length (goroutines pr)) ≤ 2 ^ 32)%Z →
  NoDup (omap namer_id (goroutines pr)).
Proof.
  intros (_ & (k & _ & Hperm) & _) Hn.
  assert (Hk : k ≤ length (goroutines pr)).
  { pose proof (length_omap_le (goroutines pr)) as Hle.
    rewrite Hperm, length_fmap, length_seq in Hle. done. }
  rewrite Hperm. apply NoDup_fmap_2_strong; [|apply NoDup_seq].
  intros x y Hx Hy Heq.
  apply elem_of_seq in Hx, Hy.
  apply wrap32_inj in Heq; lia.
Qed.

(** Every scheduling of a goroutine runs its next line, up to the third. *)
Lemma namer_step_lines (t t' : namer) (s s' : state) :
  namer_step t s = (Ret t', s') → lines_run t' = 3 `min` S (lines_run t).
Proof.
  destruct t; simpl; unfold bind; rewrite ?stagedURL_run; unfold_M; simpl;
    try destruct (gcsx_Join _ _); simpl; intros; by simplify_eq.
Qed.

Lemma schedule_step_lines (i j : nat) (pr pr' : process) :
  schedule_step i pr = Ret pr' →
  j < length (goroutines pr) →
  length (goroutines pr') = length (goroutines pr) ∧
  lines_at pr' j =
    if decide (j = i) then 3 `min` S (lines_at pr j) else lines_at pr j.
Proof.
  intros Hstep Hj. unfold schedule_step in Hstep.
  destruct (goroutines pr !! i) as [t|] eqn:Hi.
  - destruct (namer_step t (shared pr)) as [[t'|v] s'] eqn:Ht; [|done].
    simplify_eq. unfold lines_at. cbn [goroutines].
    split; [by rewrite length_insert|].
    destruct (decide (j = i)) as [->|Hne].
    + rewrite list_lookup_insert_eq, Hi by done. simpl.
      by eapply namer_step_lines.
    + by rewrite list_lookup_insert_ne.
  - simplify_eq. split; [done|].
    destruct (decide (j = i)) as [->|Hne]; [|done].
    apply lookup_ge_None in Hi. lia.
Qed.

Lemma run_lines (schedule : list nat) (j : nat) (pr pr' : process) :
  run schedule pr = Ret pr' →
  j < length (goroutines pr) →
  lines_at pr' j = 3 `min` (lines_at pr j + length (filter (j =.) schedule)).
Proof.
  revert pr. induction schedule as [|i rest IH]; intros pr Hrun Hj;
    simpl in Hrun.
  - simplify_eq.
    assert (lines_at pr' j ≤ 3).
    { unfold lines_at. destruct (goroutines pr' !! j) as [[]|]; simpl; lia. }
    change (filter (j =.) []) with (@nil nat). cbn [length]. lia.
  - destruct (schedule_step i pr) as [pr1|v] eqn:Hstep; [|done].
    destruct (schedule_step_lines i j pr pr1 Hstep Hj) as [Hlen H1].
    rewrite (IH pr1 Hrun) by lia. rewrite H1, filter_cons.
    destruct (decide (j = i)); cbn [length]; lia.
Qed.

(** Where [gcsx.Join] takes the staging location, no line panics. *)
Lemma run_returns (schedule : list nat) (pr : process) :
  (∀ elm, is_Some (gcsx_Join (stagingLocation (flags (shared pr))) elm)) →
  ∃ pr', run schedule pr = Ret pr'.
Proof.
  revert pr. induction schedule as [|i rest IH]; intros pr Hjoin; simpl.
  - by eexists.
  - assert (∃ pr1, schedule_step i pr = Ret pr1 ∧
                   flags (shared pr1) = flags (shared pr)) as (pr1 & -> & Hfl).
    { unfold schedule_step. destruct (goroutines pr !! i) as [t|]; [|by eexists].
      destruct t; simpl; unfold bind; rewrite ?stagedURL_run; unfold_M; simpl;
        try (edestruct Hjoin as [url ->]; simpl); by eexists. }
    apply IH. by rewrite Hfl.
Qed.

(** The names [Execute] hands on: whatever it translates or submits carries
    the two URLs joined from the names of lines 150 and 151, both formatted
    from the value [atomic.AddInt32] returned, and the counter is left at that
    value. *)
Ltac not_called H :=
  destruct H as [H|(? & ? & ? & H)];
  repeat (apply elem_of_cons in H as [H|H]; [done|]);
  by apply elem_of_nil in H.

Lemma Execute_submit_plan (p : Pipeline) (opts : JobOptions RawOptions)
    (s : state) (l : list event) (model : Model) (o : JobOptions RawOptions)
    (workerURL modelURL : string) :
  trace (Execute_submit p opts s).2 = trace s ++ l →
  (Translate model o workerURL modelURL ∈ l ∨
   ∃ ep async answer,
     Submit model o workerURL modelURL ep async answer ∈ l) →
  let id := wrap32 (unique s + 1) in
  unique (Execute_submit p opts s).2 = id ∧
  gcsx_Join (stagingLocation (flags s))
    (objectName "model-" id (time_Now_UnixNano (ticks s))) = Some modelURL ∧
  gcsx_Join (stagingLocation (flags s))
    (objectName "worker-" id (time_Now_UnixNano (S (ticks s))))
    = Some workerURL.
Proof.
  intros Hl Hin id.
  destruct (Pipeline_Build p) as [edges|err] eqn:Hb.
  2:{ exfalso. revert Hl. unfold_M. simpl. rewrite Hb. simpl.
      intros Hl. apply app_inv_head in Hl. subst l. not_called Hin. }
  destruct (graphx_Marshal edges (image (flags s))) as [md|err] eqn:Hm.
  2:{ exfalso. revert Hl. unfold_M. simpl. rewrite Hb. simpl. rewrite Hm.
      simpl. rewrite <- app_assoc.
      intros Hl. apply app_inv_head in Hl. subst l. not_called Hin. }
  destruct (gcsx_Join (stagingLocation (flags s))
              (objectName "model-" id (time_Now_UnixNano (ticks s))))
    as [mu|] eqn:Hmu.
  2:{ exfalso. revert Hl. unfold_M. simpl. rewrite Hb. simpl. rewrite Hm.
      simpl. fold id. rewrite Hmu. simpl. rewrite <- app_assoc.
      intros Hl. apply app_inv_head in Hl. subst l. not_called Hin. }
  destruct (gcsx_Join (stagingLocation (flags s))
              (objectName "worker-" id (time_Now_UnixNano (S (ticks s)))))
    as [wu|] eqn:Hwu.
  2:{ exfalso. revert Hl. unfold_M. simpl. rewrite Hb. simpl. rewrite Hm.
      simpl. fold id. rewrite Hmu. simpl. rewrite Hwu. simpl.
      rewrite <- app_assoc.
      intros Hl. apply app_inv_head in Hl. subst l. not_called Hin. }
  revert Hl.
  rewrite (Execute_submit_named p opts s edges md mu wu Hb Hm Hmu Hwu).
  cbv zeta.
  destruct (dryRun (flags s));
    [destruct (dataflowlib_Translate md opts wu mu)|];
    cbn [snd trace unique]; intros Hl; apply app_inv_head in Hl; subst l;
    (split; [done|]);
    destruct Hin as [Hin|(? & ? & ? & Hin)];
    repeat (apply elem_of_cons in Hin as [Hin|Hin];
            [first [discriminate Hin | injection Hin; intros; subst; by split]|]);
    by apply elem_of_nil in Hin.
Qed.

(** A goroutine alone runs lines 149 to 151 as [Execute] does. *)
Lemma run_alone (s : state) (modelURL workerURL : string) :
  gcsx_Join (stagingLocation (flags s))
    (objectName "model-" (wrap32 (unique s + 1)) (time_Now_UnixNano (ticks s)))
    = Some modelURL →
  gcsx_Join (stagingLocation (flags s))
    (objectName "worker-" (wrap32 (unique s + 1))
       (time_Now_UnixNano (S (ticks s))))
    = Some workerURL →
  run [0; 0; 0] (spawn 1 s) =
    Ret {| shared := {| flags := flags s; unique := wrap32 (unique s + 1);
                        ticks := S (S (ticks s)); trace := trace s |};
           goroutines := [Named (wrap32 (unique s + 1)) modelURL workerURL] |}.
Proof.
  intros Hmu Hwu. unfold run, schedule_step, spawn, namer_step. unfold_M.
  simpl. rewrite Hmu. simpl. rewrite Hwu. done.
Qed.

(** Two URLs joined under one location from names of different kinds, or of
    different ids, differ, when [gcsx.Join] keeps the names apart. *)
Lemma names_differ (staging kind1 kind2 : string) (id1 id2 now1 now2 : Z)
    (url1 url2 : string) :
  joins_names_apart staging →
  kind1 ∈ ["model-"; "worker-"] → kind2 ∈ ["model-"; "worker-"] →
  gcsx_Join staging (objectName kind1 id1 now1) = Some url1 →
  gcsx_Join staging (objectName kind2 id2 now2) = Some url2 →
  kind1 ≠ kind2 ∨ id1 ≠ id2 →
  url1 ≠ url2.
Proof.
  intros Hinj Hk1 Hk2 H1 H2 Hne ->.
  pose proof (Hinj _ _ _ _ _ _ _ Hk1 Hk2 H1 H2) as Heq.
  apply objectName_inj in Heq as (? & ? & ?); [|done..].
  by destruct Hne.
Qed.

(** C5: the names of the staged objects.

    First, in [Execute].  Whenever the pipeline builds and marshals and
    [gcsx.Join] takes the two names, the second half of [Execute] draws
    [id] by one atomic add of one to the counter, which it leaves at [id],
    reads the clock twice, and hands on, to the translation in a dry run and
    to the service otherwise, the model URL and the worker URL that
    [gcsx.Join] made from the staging location and the names
    [model-<id>-<now>] and [worker-<id>-<now'>].  These are the lines a
    goroutine runs below: one goroutine on its own ends with the counter and
    the clock where [Execute] leaves them, holding this [id] and these two
    URLs.  Conversely, whatever [Execute] translates or submits carries two
    URLs made in this way.

    Second, for any number of goroutines that run these lines at once, under
    any schedule, any clock and any start of the counter: two goroutines
    hold different ids, and the four URLs they hold are pairwise different,
    provided [gcsx.Join] keeps the names of the staged objects apart under
    the staging location.  The counter is an [int32] (line 74) and wraps
    around: the ids are different for up to [2^32] goroutines, the number of
    values it has.

    Third, such runs do end with names: where [gcsx.Join] takes the staging
    location no schedule panics, and a goroutine scheduled three times holds
    its two URLs. *)
Theorem staging_names_distinct :
  (∀ (p : Pipeline) (opts : JobOptions RawOptions) (s : state)
     (edges : Edges) (model : Model) (modelURL workerURL : string),
     let id := wrap32 (unique s + 1) in
     Pipeline_Build p = Success edges →
     graphx_Marshal edges (image (flags s)) = Success model →
     gcsx_Join (stagingLocation (flags s))
       (objectName "model-" id (time_Now_UnixNano (ticks s)))
       = Some modelURL →
     gcsx_Join (stagingLocation (flags s))
       (objectName "worker-" id (time_Now_UnixNano (S (ticks s))))
       = Some workerURL →
     let s' := (Execute_submit p opts s).2 in
     unique s' = id ∧ ticks s' = S (S (ticks s)) ∧
     (if dryRun (flags s)
      then Translate model opts workerURL modelURL
             ∈ calls_of (Execute_submit p opts) s
      else Submit model opts workerURL modelURL (endpoint (flags s)) false
             (dataflowlib_Execute model opts workerURL modelURL
                (endpoint (flags s)) false)
             ∈ calls_of (Execute_submit p opts) s) ∧
     run [0; 0; 0] (spawn 1 s) =
       Ret {| shared := {| flags := flags s'; unique := unique s';
                           ticks := ticks s'; trace := trace s |};
              goroutines := [Named id modelURL workerURL] |}) ∧
  (∀ (p : Pipeline) (opts : JobOptions RawOptions) (s : state)
     (l : list event) (model : Model) (o : JobOptions RawOptions)
     (workerURL modelURL : string),
     trace (Execute_submit p opts s).2 = trace s ++ l →
     (Translate model o workerURL modelURL ∈ l ∨
      ∃ ep async answer,
        Submit model o workerURL modelURL ep async answer ∈ l) →
     let id := wrap32 (unique s + 1) in
     unique (Execute_submit p opts s).2 = id ∧
     gcsx_Join (stagingLocation (flags s))
       (objectName "model-" id (time_Now_UnixNano (ticks s)))
       = Some modelURL ∧
     gcsx_Join (stagingLocation (flags s))
       (objectName "worker-" id (time_Now_UnixNano (S (ticks s))))
       = Some workerURL) ∧
  (∀ (n : nat) (schedule : list nat) (s : state) (pr : process),
     (Z.of_nat n ≤ 2 ^ 32)%Z →
     joins_names_apart (stagingLocation (flags s)) →
     run schedule (spawn n s) = Ret pr →
     ∀ i j id1 modelURL1 workerURL1 id2 modelURL2 workerURL2,
       i ≠ j →
       goroutines pr !! i = Some (Named id1 modelURL1 workerURL1) →
       goroutines pr !! j = Some (Named id2 modelURL2 workerURL2) →
       id1 ≠ id2 ∧
       NoDup [modelURL1; workerURL1; modelURL2; workerURL2]) ∧
  (∀ (n : nat) (schedule : list nat) (s : state),
     (∀ elm, is_Some (gcsx_Join (stagingLocation (flags s)) elm)) →
     ∃ pr, run schedule (spawn n s) = Ret pr ∧
           ∀ j, j < n → 3 ≤ length (filter (j =.) schedule) →
                ∃ id modelURL workerURL,
                  goroutines pr !! j = Some (Named id modelURL workerURL)).
Proof.
  split; [|split; [|split]].
  - intros p opts s edges model modelURL workerURL id Hb Hm Hmu Hwu s'.
    pose proof (Execute_submit_named p opts s edges model modelURL workerURL
                  Hb Hm Hmu Hwu) as Hrun.
    cbv zeta in Hrun.
    rewrite (run_alone s modelURL workerURL Hmu Hwu).
    unfold s', calls_of. rewrite Hrun.
    destruct (dryRun (flags s));
      [destruct (dataflowlib_Translate model opts workerURL modelURL)|];
      cbn [snd unique ticks flags trace];
      (split; [done|]); (split; [done|]); (split; [|done]);
      rewrite drop_app_length; cbn [app]; rewrite !elem_of_cons; auto 10.
  - intros p opts s l model o workerURL modelURL Hl Hin.
    by apply (Execute_submit_plan p opts s l model o).
  - intros n schedule s pr Hn Hinj Hrun i j id1 m1 w1 id2 m2 w2 Hij Hi Hj.
    destruct (run_inv (unique s) (flags s) schedule _ _ (spawn_inv n s) Hrun)
      as [Hinv Hlen].
    simpl in Hlen. rewrite length_replicate in Hlen.
    assert (Hid : id1 ≠ id2).
    { intros ->. apply Hij.
      eapply (NoDup_omap_lookup (goroutines pr)); [|exact Hi|exact Hj|done..].
      apply (names_inv_NoDup _ _ _ Hinv). by rewrite Hlen. }
    split; [done|].
    destruct Hinv as (_ & _ & Hnames).
    pose proof (Forall_lookup_1 _ _ _ _ Hnames Hi) as [[t1 Hm1] [t1' Hw1]].
    pose proof (Forall_lookup_1 _ _ _ _ Hnames Hj) as [[t2 Hm2] [t2' Hw2]].
    assert (Hmodel : "model-" ∈ ["model-"; "worker-"])
      by (rewrite !elem_of_cons; auto).
    assert (Hworker : "worker-" ∈ ["model-"; "worker-"])
      by (rewrite !elem_of_cons; auto).
    pose proof (names_differ _ _ _ _ _ _ _ _ _ Hinj Hmodel Hworker Hm1 Hw1) as D1.
    pose proof (names_differ _ _ _ _ _ _ _ _ _ Hinj Hmodel Hmodel Hm1 Hm2) as D2.
    pose proof (names_differ _ _ _ _ _ _ _ _ _ Hinj Hmodel Hworker Hm1 Hw2) as D3.
    pose proof (names_differ _ _ _ _ _ _ _ _ _ Hinj Hworker Hmodel Hw1 Hm2) as D4.
    pose proof (names_differ _ _ _ _ _ _ _ _ _ Hinj Hworker Hworker Hw1 Hw2) as D5.
    pose proof (names_differ _ _ _ _ _ _ _ _ _ Hinj Hmodel Hworker Hm2 Hw2) as D6.
    assert (Hkinds : "model-" ≠ "worker-") by done.
    assert (Hkinds' : "worker-" ≠ "model-") by done.
    repeat (apply NoDup_cons; split); [..|apply NoDup_nil_2];
      rewrite ?not_elem_of_cons; repeat split; auto using not_elem_of_nil.
  - intros n schedule s Hjoin.
    destruct (run_returns schedule (spawn n s) Hjoin) as [pr Hrun].
    exists pr. split; [done|]. intros j Hj Hthree.
    assert (Hj' : j < length (goroutines (spawn n s)))
      by (simpl; by rewrite length_replicate).
    pose proof (run_lines schedule j _ _ Hrun Hj') as Hlines.
    assert (Hdone : lines_at pr j = 3) by lia.
    unfold lines_at in Hdone.
    destruct (goroutines pr !! j) as [[| | |id m w]|] eqn:Hlook;
      simpl in Hdone; try lia.
    by exists id, m, w.
Qed.

End Properties.

(** * Further properties *)

Section Further.
Context `{C : Collaborators}.

Ltac unfold_run :=
  unfold Execute, Execute_gather, Execute_submit, stagedURL, Join, bind, ret,
    panic, call, calls, flag, store_image, atomic_AddInt32_unique, time_Now.

Ltac case_on x :=
  destruct (decide (x = "")) as [?|?];
  [ rewrite ?(decide_False (P := x ≠ "")) by (intros ?; done)
  | rewrite ?(decide_True (P := x ≠ "")) by done ];
  simpl.

(** The run of the first half past the two checks, in full. *)
Lemma Execute_gather_run (s : state) :
  gcpopts_Project ≠ "" →
  stagingLocation (flags s) ≠ "" →
  Execute_gather s =
    match parsed_labels s with
    | (_, Some err) =>
        (Ret (Failure (fmt_Errorf "error reading --label flag as JSON: " err)),
         after_label_error s)
    | (parsed, None) =>
        match resolved_temp s with
        | Some tmp => (Ret (Success (gathered_options s parsed tmp)),
                       after_gather s)
        | None => (Panic "gcsx.Join", after_gather s)
        end
    end.
Proof.
  intros Hp Hs.
  destruct (parsed_labels s) as [parsed [err|]] eqn:Hl.
  - unfold parsed_labels in Hl. unfold after_label_error. unfold_run.
    destruct (decide (gcpopts_Project = "")) as [?|_]; [done|]. simpl.
    destruct (decide (stagingLocation (flags s) = "")) as [?|_]; [done|].
    case_on (image (flags s));
      (case_on (labels (flags s)); [done|]);
      rewrite Hl; simpl; by rewrite <- ?app_assoc.
  - destruct (resolved_temp s) as [tmp|] eqn:Ht.
    + by apply Execute_gather_success.
    + unfold parsed_labels in Hl. unfold resolved_temp in Ht.
      unfold after_gather. unfold_run.
      destruct (decide (gcpopts_Project = "")) as [?|_]; [done|]. simpl.
      destruct (decide (stagingLocation (flags s) = "")) as [?|_]; [done|].
      case_on (image (flags s)); case_on (labels (flags s));
        rewrite ?Hl; simplify_eq; simpl;
        case_on (cpuProfiling (flags s));
        case_on (minCPUPlatform (flags s));
        (case_on (tempLocation (flags s)); [|done]);
        rewrite ?Ht; simpl; by rewrite <- ?app_assoc.
Qed.

(** The run of the second half, in full. *)
Lemma Execute_submit_run (p : Pipeline) (opts : JobOptions RawOptions)
    (s : state) :
  Execute_submit p opts s =
    let id := wrap32 (unique s + 1) in
    let img := image (flags s) in
    let at_ (u : Z) (t : nat) (l : list event) : state :=
      {| flags := flags s; unique := u; ticks := t; trace := trace s ++ l |} in
    match Pipeline_Build p with
    | Failure err => (Ret (Some err), at_ (unique s) (ticks s) [Build p])
    | Success edges =>
    match graphx_Marshal edges img with
    | Failure err =>
        (Ret (Some (fmt_Errorf "failed to generate model pipeline: " err)),
         at_ (unique s) (ticks s) [Build p; Marshal edges img])
    | Success model =>
    match gcsx_Join (stagingLocation (flags s))
            (objectName "model-" id (time_Now_UnixNano (ticks s))) with
    | None => (Panic "gcsx.Join",
               at_ id (S (ticks s)) [Build p; Marshal edges img])
    | Some modelURL =>
    match gcsx_Join (stagingLocation (flags s))
            (objectName "worker-" id (time_Now_UnixNano (S (ticks s)))) with
    | None => (Panic "gcsx.Join",
               at_ id (S (S (ticks s))) [Build p; Marshal edges img])
    | Some workerURL =>
        if dryRun (flags s) then
          match dataflowlib_Translate model opts workerURL modelURL with
          | Failure err =>
              (Ret (Some err),
               at_ id (S (S (ticks s)))
                 [Build p; Marshal edges img;
                  LogInfo "Dry-run: not submitting job!";
                  LogInfo (proto_MarshalTextString model);
                  Translate model opts workerURL modelURL])
          | Success job =>
              (Ret None,
               at_ id (S (S (ticks s)))
                 [Build p; Marshal edges img;
                  LogInfo "Dry-run: not submitting job!";
                  LogInfo (proto_MarshalTextString model);
                  Translate model opts workerURL modelURL;
                  PrintJob job])
          end
        else
          let answer := dataflowlib_Execute model opts workerURL modelURL
                          (endpoint (flags s)) false in
          (Ret (returned_error answer),
           at_ id (S (S (ticks s)))
             [Build p; Marshal edges img;
              Submit model opts workerURL modelURL (endpoint (flags s)) false
                answer])
    end end end end.
Proof.
  cbv zeta.
  destruct (Pipeline_Build p) as [edges|err] eqn:Hb.
  2:{ unfold_run. simpl. by rewrite Hb. }
  destruct (graphx_Marshal edges (image (flags s))) as [model|err] eqn:Hm.
  2:{ unfold_run. simpl. rewrite Hb. simpl. rewrite Hm. simpl.
      by rewrite <- app_assoc. }
  destruct (gcsx_Join _ (objectName "model-" _ _)) as [mu|] eqn:Hmu.
  2:{ unfold_run. simpl. rewrite Hb. simpl. rewrite Hm. simpl. rewrite Hmu.
      simpl. by rewrite <- app_assoc. }
  destruct (gcsx_Join _ (objectName "worker-" _ _)) as [wu|] eqn:Hwu.
  2:{ unfold_run. simpl. rewrite Hb. simpl. rewrite Hm. simpl. rewrite Hmu.
      simpl. rewrite Hwu. simpl. by rewrite <- app_assoc. }
  rewrite (Execute_submit_named p opts s edges model mu wu Hb Hm Hmu Hwu).
  cbv zeta. destruct (dryRun (flags s)); [|done].
  by destruct (dataflowlib_Translate _ _ _ _).
Qed.

(** The calls of a run whose trace is known. *)
Lemma calls_of_app {A} (m : M A) (s : state) (l : list event) :
  trace (m s).2 = trace s ++ l → calls_of m s = l.
Proof. unfold calls_of. intros ->. by rewrite drop_app_length. Qed.

Lemma flags_set_image_id (f : Flags) : set_image (image f) f = f.
Proof. by destruct f. Qed.

(** The calls of the first half. *)
Lemma Execute_gather_calls (s : state) :
  ∃ gl, trace (Execute_gather s).2 = trace s ++ gl ∧
        Forall (λ ev, is_gather_call ev = true) gl ∧
        unique (Execute_gather s).2 = unique s ∧
        ticks (Execute_gather s).2 = ticks s.
Proof.
  destruct (decide (gcpopts_Project = "")) as [Hp|Hp].
  { exists []. unfold_run. rewrite decide_True by done. simpl.
    by rewrite app_nil_r. }
  destruct (decide (stagingLocation (flags s) = "")) as [Hs|Hs].
  { exists []. unfold_run. rewrite decide_False by done. simpl.
    rewrite decide_True by done. simpl. by rewrite app_nil_r. }
  rewrite (Execute_gather_run s Hp Hs).
  destruct (parsed_labels s) as [parsed [err|]];
    [|destruct (resolved_temp s)]; simpl; eexists;
    (split; [reflexivity|]); (split; [|done]);
    repeat case_decide; repeat constructor.
Qed.

(** The calls of the second half. *)
Lemma Execute_submit_calls (p : Pipeline) (opts : JobOptions RawOptions)
    (s : state) :
  flags (Execute_submit p opts s).2 = flags s ∧
  ∃ sl, trace (Execute_submit p opts s).2 = trace s ++ sl ∧
        Forall (λ ev, is_submit_call ev = true) sl.
Proof.
  rewrite Execute_submit_run. cbv zeta.
  repeat case_match; simpl; (split; [done|]); eexists;
    (split; [reflexivity|]); repeat constructor.
Qed.

(** The calls of [Execute] are those of its first half followed, when the
    options are gathered, by those of its second half. *)
Lemma Execute_calls (p : Pipeline) (s : state) :
  calls_of (Execute p) s =
    calls_of Execute_gather s ++
    match (Execute_gather s).1 with
    | Ret (Success opts) => calls_of (Execute_submit p opts) (Execute_gather s).2
    | _ => []
    end.
Proof.
  destruct (Execute_gather_calls s) as (gl & Hgl & _).
  rewrite (calls_of_app Execute_gather s gl Hgl).
  unfold Execute, bind.
  destruct (Execute_gather s) as [[[opts|err]|v] s1] eqn:Hg; simpl in *.
  - destruct (Execute_submit_calls p opts s1) as (_ & sl & Hsl & _).
    rewrite (calls_of_app (Execute_submit p opts) s1 sl Hsl).
    apply calls_of_app. unfold bind. rewrite Hg. simpl.
    by rewrite Hsl, Hgl, app_assoc.
  - apply calls_of_app. unfold bind. rewrite Hg. simpl.
    by rewrite app_nil_r.
  - apply calls_of_app. unfold bind. rewrite Hg. simpl.
    by rewrite app_nil_r.
Qed.

(** When the gathering ends in options, both checks have passed, the
    labels have parsed, the temp location is there, and the options and the
    state are the ones of [Execute_gather_run]. *)
Lemma Execute_gather_inv (s s1 : state) (opts : JobOptions RawOptions) :
  Execute_gather s = (Ret (Success opts), s1) →
  gcpopts_Project ≠ "" ∧ stagingLocation (flags s) ≠ "" ∧
  ∃ parsed tmp,
    parsed_labels s = (parsed, None) ∧ resolved_temp s = Some tmp ∧
    opts = gathered_options s parsed tmp ∧ s1 = after_gather s.
Proof.
  intros Hg.
  destruct (decide (gcpopts_Project = "")) as [Hp|Hp].
  { revert Hg. unfold_run. by rewrite decide_True. }
  destruct (decide (stagingLocation (flags s) = "")) as [Hs|Hs].
  { revert Hg. unfold_run. rewrite decide_False by done. simpl.
    by rewrite decide_True. }
  split; [done|]. split; [done|].
  rewrite (Execute_gather_run s Hp Hs) in Hg.
  destruct (parsed_labels s) as [parsed [err|]]; [done|].
  destruct (resolved_temp s) as [tmp|]; [|done].
  exists parsed, tmp. by simplify_eq.
Qed.

Lemma Forall_not_in {A} (f : A → bool) (l : list A) (x : A) :
  Forall (λ y, f y = true) l → f x = false → x ∉ l.
Proof.
  intros Hl Hx Hin. rewrite Forall_forall in Hl.
  specialize (Hl x Hin). congruence.
Qed.

Ltac in_calls H :=
  repeat (apply elem_of_cons in H as [H|H];
          [first [discriminate H | injection H; intros; subst]|]);
  try (by apply elem_of_nil in H).

(** What the second half hands to the translation or to the service: the
    options it was given, the model marshalled from what the pipeline
    builds, with the image of the flag, and the two URLs joined. *)
Lemma Execute_submit_handed (p : Pipeline) (opts : JobOptions RawOptions)
    (s : state) (model : Model) (o : JobOptions RawOptions)
    (workerURL modelURL : string) :
  (Translate model o workerURL modelURL ∈ calls_of (Execute_submit p opts) s ∨
   ∃ ep async answer,
     Submit model o workerURL modelURL ep async answer
       ∈ calls_of (Execute_submit p opts) s) →
  o = opts ∧
  ∃ edges,
    Pipeline_Build p = Success edges ∧
    graphx_Marshal edges (image (flags s)) = Success model ∧
    gcsx_Join (stagingLocation (flags s))
      (objectName "model-" (wrap32 (unique s + 1))
         (time_Now_UnixNano (ticks s))) = Some modelURL ∧
    gcsx_Join (stagingLocation (flags s))
      (objectName "worker-" (wrap32 (unique s + 1))
         (time_Now_UnixNano (S (ticks s)))) = Some workerURL.
Proof.
  intros Hin.
  assert (∃ sl, calls_of (Execute_submit p opts) s = sl ∧
                trace (Execute_submit p opts s).2 = trace s ++ sl)
    as (sl & Hsl & Htr).
  { destruct (Execute_submit_calls p opts s) as (_ & sl & Hsl & _).
    exists sl. split; [by apply calls_of_app | done]. }
  rewrite Hsl in Hin. clear Hsl.
  rewrite Execute_submit_run in Htr. cbv zeta in Htr.
  destruct (Pipeline_Build p) as [edges|?] eqn:Hb;
    [destruct (graphx_Marshal edges (image (flags s))) as [md|?] eqn:Hm;
     [destruct (gcsx_Join _ (objectName "model-" _ _)) as [mu|] eqn:Hmu;
      [destruct (gcsx_Join _ (objectName "worker-" _ _)) as [wu|] eqn:Hwu;
       [destruct (dryRun (flags s));
        [destruct (dataflowlib_Translate md opts wu mu)|]|]|]|]|];
    simpl in Htr; apply app_inv_head in Htr; subst sl;
    destruct Hin as [Hin|(? & ? & ? & Hin)]; in_calls Hin;
    (split; [done|]); eexists; repeat split; eassumption.
Qed.

(** The same for [Execute]: what it hands on comes from its second half, run
    on the options gathered. *)
Lemma Execute_handed (p : Pipeline) (s : state) (model : Model)
    (o : JobOptions RawOptions) (workerURL modelURL : string) :
  (Translate model o workerURL modelURL ∈ calls_of (Execute p) s ∨
   ∃ ep async answer,
     Submit model o workerURL modelURL ep async answer
       ∈ calls_of (Execute p) s) →
  ∃ s1, Execute_gather s = (Ret (Success o), s1) ∧
        (Translate model o workerURL modelURL
           ∈ calls_of (Execute_submit p o) s1 ∨
         ∃ ep async answer,
           Submit model o workerURL modelURL ep async answer
             ∈ calls_of (Execute_submit p o) s1).
Proof.
  intros Hin. rewrite Execute_calls in Hin.
  destruct (Execute_gather_calls s) as (gl & Hgl & Hgather & _).
  rewrite (calls_of_app Execute_gather s gl Hgl) in Hin.
  assert (Hsub : ∀ ev, is_gather_call ev = false → ev ∈ gl ++
            match (Execute_gather s).1 with
            | Ret (Success opts) =>
                calls_of (Execute_submit p opts) (Execute_gather s).2
            | _ => []
            end →
            ∃ opts s1, Execute_gather s = (Ret (Success opts), s1) ∧
                       ev ∈ calls_of (Execute_submit p opts) s1).
  { intros ev Hev Hin'. apply elem_of_app in Hin' as [Hin'|Hin'].
    { by destruct (Forall_not_in _ _ _ Hgather Hev). }
    destruct (Execute_gather s) as [[[opts|?]|?] s1]; simpl in Hin';
      [|by apply elem_of_nil in Hin'..].
    by exists opts, s1. }
  destruct Hin as [Hin|(ep & a & ans & Hin)].
  - destruct (Hsub (Translate model o workerURL modelURL) eq_refl Hin)
      as (opts & s1 & Hg & Hin').
    destruct (Execute_submit_handed p opts s1 model o workerURL modelURL)
      as [-> _]; [by left|].
    exists s1. split; [done|]. by left.
  - destruct (Hsub (Submit model o workerURL modelURL ep a ans) eq_refl Hin)
      as (opts & s1 & Hg & Hin').
    destruct (Execute_submit_handed p opts s1 model o workerURL modelURL)
      as [-> _]; [right; by exists ep, a, ans|].
    exists s1. split; [done|]. right. by exists ep, a, ans.
Qed.

Lemma after_gather_image (s : state) :
  flags (after_gather s) = set_image (resolved_image (flags s)) (flags s).
Proof.
  unfold after_gather, resolved_image. simpl.
  case_decide; [done | by rewrite flags_set_image_id].
Qed.

Lemma set_image_image (v : string) (f : Flags) : image (set_image v f) = v.
Proof. done. Qed.

(** X1: whatever [Execute] translates or submits has passed the two checks:
    the project and the staging location are not empty, and the project of
    the options is the one checked.  The options are the ones gathered from
    the flags, with the labels as parsed and the temp location as resolved,
    and the model is the one [graphx.Marshal] made, with the resolved image,
    from what [p.Build()] returned for this very pipeline. *)
Theorem handed_job_is_validated (p : Pipeline) (s : state) (model : Model)
    (o : JobOptions RawOptions) (workerURL modelURL : string) :
  (Translate model o workerURL modelURL ∈ calls_of (Execute p) s ∨
   ∃ ep async answer,
     Submit model o workerURL modelURL ep async answer
       ∈ calls_of (Execute p) s) →
  gcpopts_Project ≠ "" ∧ stagingLocation (flags s) ≠ "" ∧
  Project o = gcpopts_Project ∧
  (∃ parsed tmp,
     parsed_labels s = (parsed, None) ∧ resolved_temp s = Some tmp ∧
     o = gathered_options s parsed tmp) ∧
  ∃ edges,
    Pipeline_Build p = Success edges ∧
    graphx_Marshal edges (resolved_image (flags s)) = Success model.
Proof.
  intros Hin.
  destruct (Execute_handed p s model o workerURL modelURL Hin)
    as (s1 & Hg & Hin1).
  destruct (Execute_gather_inv s s1 o Hg)
    as (Hp & Hs & parsed & tmp & Hl & Ht & -> & ->).
  destruct (Execute_submit_handed p _ _ model _ workerURL modelURL Hin1)
    as (_ & edges & Hb & Hm & _).
  rewrite after_gather_image, set_image_image in Hm.
  split; [done|]. split; [done|]. split; [done|].
  split; [by exists parsed, tmp | by exists edges].
Qed.

(** X2: the experiments that reach the translation or the service are
    those of [jobopts], in their order, followed by
    [min_cpu_platform=<value>] when the flag [min_cpu_platform] is set, which
    is then the last entry; with the flag unset they are those of [jobopts]
    unchanged. *)
Theorem min_cpu_platform_appended (p : Pipeline) (s : state) (model : Model)
    (o : JobOptions RawOptions) (workerURL modelURL : string) :
  (Translate model o workerURL modelURL ∈ calls_of (Execute p) s ∨
   ∃ ep async answer,
     Submit model o workerURL modelURL ep async answer
       ∈ calls_of (Execute p) s) →
  (minCPUPlatform (flags s) = "" →
   Experiments o = jobopts_GetExperiments) ∧
  (minCPUPlatform (flags s) ≠ "" →
   Experiments o =
     jobopts_GetExperiments ++
     ["min_cpu_platform=" +:+ minCPUPlatform (flags s)] ∧
   last (Experiments o)
     = Some ("min_cpu_platform=" +:+ minCPUPlatform (flags s))).
Proof.
  intros Hin.
  destruct (Execute_handed p s model o workerURL modelURL Hin)
    as (s1 & Hg & _).
  destruct (Execute_gather_inv s s1 o Hg)
    as (_ & _ & parsed & tmp & _ & _ & -> & _).
  simpl. split; intros Hc.
  - by rewrite decide_True.
  - rewrite decide_False by done. by rewrite last_snoc.
Qed.

Lemma Execute_flags (p : Pipeline) (s : state) :
  flags (Execute p s).2 = flags (Execute_gather s).2.
Proof.
  unfold Execute, bind.
  destruct (Execute_gather s) as [[[opts|err]|v] s1]; simpl; [|done..].
  by destruct (Execute_submit_calls p opts s1) as [-> _].
Qed.

(** The calls of the first half past the two checks. *)
Lemma Execute_gather_calls_run (s : state) :
  gcpopts_Project ≠ "" →
  stagingLocation (flags s) ≠ "" →
  calls_of Execute_gather s =
    (if decide (image (flags s) = "") then [GetContainerImage] else []) ++
    match parsed_labels s with
    | (_, Some _) =>
        [Unmarshal (String.list_byte_of_string (labels (flags s)))]
    | (_, None) =>
        (if decide (labels (flags s) = "") then []
         else [Unmarshal (String.list_byte_of_string (labels (flags s)))]) ++
        (if decide (cpuProfiling (flags s) = "") then []
         else [EnableProfCaptureHook "gcs_profile_writer"
                 (cpuProfiling (flags s))]) ++
        [SerializeHooksToOptions]
    end.
Proof.
  intros Hp Hs. apply calls_of_app. rewrite (Execute_gather_run s Hp Hs).
  destruct (parsed_labels s) as [parsed [err|]];
    [|destruct (resolved_temp s)]; reflexivity.
Qed.

Lemma Execute_gather_flags (s : state) :
  gcpopts_Project ≠ "" →
  stagingLocation (flags s) ≠ "" →
  flags (Execute_gather s).2
    = set_image (resolved_image (flags s)) (flags s).
Proof.
  intros Hp Hs. rewrite <- after_gather_image.
  rewrite (Execute_gather_run s Hp Hs).
  destruct (parsed_labels s) as [parsed [err|]];
    [|destruct (resolved_temp s)]; reflexivity.
Qed.

(** The image is asked of [jobopts] exactly when the flag is empty. *)
Lemma GetContainerImage_called (p : Pipeline) (s : state) :
  gcpopts_Project ≠ "" →
  stagingLocation (flags s) ≠ "" →
  GetContainerImage ∈ calls_of (Execute p) s ↔ image (flags s) = "".
Proof.
  intros Hp Hs. rewrite Execute_calls, elem_of_app.
  rewrite (Execute_gather_calls_run s Hp Hs).
  split.
  - intros [Hin|Hin].
    + apply elem_of_app in Hin as [Hin|Hin].
      * case_decide; [done|]. by apply elem_of_nil in Hin.
      * destruct (parsed_labels s) as [? [?|]]; repeat case_decide;
          simpl in Hin; in_calls Hin.
    + destruct (Execute_gather s) as [[[opts|?]|?] s1]; simpl in Hin;
        [|by apply elem_of_nil in Hin..].
      destruct (Execute_submit_calls p opts s1) as (_ & sl & Hsl & Hall).
      rewrite (calls_of_app _ _ _ Hsl) in Hin.
      by destruct (Forall_not_in _ _ _ Hall
                     (eq_refl : is_submit_call GetContainerImage = false)).
  - intros Himg. left. rewrite decide_True by done.
    apply elem_of_app. left. apply elem_of_cons. by left.
Qed.

(** X3: past the two checks, every run of [Execute] leaves the flags as it
    found them but for the worker image, which it leaves resolved: the flag
    if it was set, what [jobopts] answers if it was empty.  [jobopts] is
    asked exactly when the flag was empty, [graphx.Marshal] gets the resolved
    image, and when the answer of [jobopts] is not empty a later run from the
    state this one ends in does not ask again. *)
Theorem image_resolved_once (p : Pipeline) (s : state) :
  gcpopts_Project ≠ "" →
  stagingLocation (flags s) ≠ "" →
  flags (Execute p s).2 = set_image (resolved_image (flags s)) (flags s) ∧
  (GetContainerImage ∈ calls_of (Execute p) s ↔ image (flags s) = "") ∧
  (∀ edges img, Marshal edges img ∈ calls_of (Execute p) s →
                img = resolved_image (flags s)) ∧
  (jobopts_GetContainerImage ≠ "" →
   ∀ p', GetContainerImage ∉ calls_of (Execute p') (Execute p s).2).
Proof.
  intros Hp Hs.
  assert (Hfl : flags (Execute p s).2
                = set_image (resolved_image (flags s)) (flags s)).
  { by rewrite Execute_flags, Execute_gather_flags. }
  split; [done|]. split; [by apply GetContainerImage_called|]. split.
  - intros edges img Hin. rewrite Execute_calls in Hin.
    apply elem_of_app in Hin as [Hin|Hin].
    { destruct (Execute_gather_calls s) as (gl & Hgl & Hall & _).
      rewrite (calls_of_app _ _ _ Hgl) in Hin.
      by destruct (Forall_not_in _ _ _ Hall
                     (eq_refl : is_gather_call (Marshal edges img) = false)). }
    pose proof (Execute_gather_flags s Hp Hs) as Hg.
    destruct (Execute_gather s) as [[[opts|?]|?] s1]; simpl in Hin, Hg;
      [|by apply elem_of_nil in Hin..].
    assert (image (flags s1) = resolved_image (flags s)) as <-
      by (by rewrite Hg).
    destruct (Execute_submit_calls p opts s1) as (_ & sl & Hsl & _).
    rewrite (calls_of_app _ _ _ Hsl) in Hin.
    rewrite Execute_submit_run in Hsl. cbv zeta in Hsl.
    repeat case_match; simpl in Hsl; apply app_inv_head in Hsl; subst sl;
      in_calls Hin; done.
  - intros Hanswer p' Hin.
    apply GetContainerImage_called in Hin.
    + rewrite Hfl in Hin. simpl in Hin. unfold resolved_image in Hin.
      by case_decide.
    + done.
    + by rewrite Hfl.
Qed.

(** With a check failing the first half makes no call. *)
Lemma Execute_gather_unchecked (s : state) :
  gcpopts_Project = "" ∨ stagingLocation (flags s) = "" →
  calls_of Execute_gather s = [] ∧
  ∃ err, (Execute_gather s).1 = Ret (Failure err).
Proof.
  intros Hmissing.
  destruct (decide (gcpopts_Project = "")) as [Hp|Hp].
  - split; [apply calls_of_app|eexists]; unfold_run;
      rewrite decide_True by done; simpl; by rewrite ?app_nil_r.
  - destruct Hmissing as [?|Hs]; [done|].
    split; [apply calls_of_app|eexists]; unfold_run;
      rewrite decide_False by done; simpl;
      rewrite decide_True by done; simpl; by rewrite ?app_nil_r.
Qed.

(** Every run of the second half starts by building the pipeline. *)
Lemma Execute_submit_starts (p : Pipeline) (opts : JobOptions RawOptions)
    (s : state) :
  ∃ rest, calls_of (Execute_submit p opts) s = Build p :: rest ∧
          Forall (λ ev, is_submit_call ev = true) rest.
Proof.
  destruct (Execute_submit_calls p opts s) as (_ & sl & Hsl & Hall).
  rewrite (calls_of_app _ _ _ Hsl).
  rewrite Execute_submit_run in Hsl. cbv zeta in Hsl.
  repeat case_match; simpl in Hsl; apply app_inv_head in Hsl; subst sl;
    eexists; (split; [reflexivity|]); by apply Forall_cons in Hall as [_ ?].
Qed.

(** The recorded calls of a run of [Execute] that gets to build the
    pipeline: those of the gathering, each only when its flag asks for it,
    the serialization of the hooks, the build, and calls of the second half.
    (Between the serialization and the build, lines 114 to 135 make calls
    that leave no event.) *)
Lemma Execute_calls_to_build (p : Pipeline) (s : state) :
  Build p ∈ calls_of (Execute p) s →
  ∃ rest,
    calls_of (Execute p) s =
      (if decide (image (flags s) = "") then [GetContainerImage] else []) ++
      (if decide (labels (flags s) = "") then []
       else [Unmarshal (String.list_byte_of_string (labels (flags s)))]) ++
      (if decide (cpuProfiling (flags s) = "") then []
       else [EnableProfCaptureHook "gcs_profile_writer"
               (cpuProfiling (flags s))]) ++
      [SerializeHooksToOptions; Build p] ++ rest ∧
    Forall (λ ev, is_submit_call ev = true) rest.
Proof.
  intros Hin. rewrite Execute_calls in Hin |- *.
  apply elem_of_app in Hin as [Hin|Hin].
  { destruct (Execute_gather_calls s) as (gl & Hgl & Hall & _).
    rewrite (calls_of_app _ _ _ Hgl) in Hin.
    by destruct (Forall_not_in _ _ _ Hall
                   (eq_refl : is_gather_call (Build p) = false)). }
  destruct (Execute_gather s) as [[[opts|?]|?] s1] eqn:Hg; simpl in Hin |- *;
    [|by apply elem_of_nil in Hin..].
  destruct (Execute_gather_inv s s1 opts Hg)
    as (Hp & Hs & parsed & tmp & Hl & _ & _ & _).
  rewrite (Execute_gather_calls_run s Hp Hs), Hl.
  destruct (Execute_submit_starts p opts s1) as (rest & -> & Hrest).
  exists rest. split; [|done]. by rewrite <- !app_assoc.
Qed.

Lemma filter_none (P : event → bool) (l : list event) :
  Forall (λ ev, P ev = false) l → filter (λ ev, P ev = true) l = [].
Proof.
  induction 1 as [|ev l Hev _ IH]; [done|].
  rewrite filter_cons_False; [done|]. by rewrite Hev.
Qed.

(** X4: the hooks are serialized after the profile hook is enabled and
    before the pipeline is built.  In every run of [Execute] that gets to
    build the pipeline, [hooks.SerializeHooksToOptions] is called, once;
    when the flag [cpu_profiling] is set, [perf.EnableProfCaptureHook] is
    called with the name [gcs_profile_writer] and the destination of the
    flag; every enabling of a hook comes before the serialization; and every
    call of the gathering, the serialization among them, comes before the
    build and the calls that follow it (the marshalling, the log, the
    translation, the printing, the submission).  The calls that leave no
    event (lines 114 to 135 make some, between the serialization and the
    build) are not spoken of. *)
Theorem hooks_serialized_before_build (p : Pipeline) (s : state) :
  Build p ∈ calls_of (Execute p) s →
  length (filter (λ ev, is_SerializeHooksToOptions ev = true)
            (calls_of (Execute p) s)) = 1 ∧
  (cpuProfiling (flags s) ≠ "" →
   EnableProfCaptureHook "gcs_profile_writer" (cpuProfiling (flags s))
     ∈ calls_of (Execute p) s) ∧
  all_before is_EnableProfCaptureHook is_SerializeHooksToOptions
    (calls_of (Execute p) s) ∧
  all_before is_gather_call is_submit_call (calls_of (Execute p) s).
Proof.
  intros Hin.
  destruct (Execute_calls_to_build p s Hin) as (rest & -> & Hrest).
  set (A := if decide (image (flags s) = "") then [GetContainerImage] else []).
  set (B := if decide (labels (flags s) = "") then []
            else [Unmarshal (String.list_byte_of_string (labels (flags s)))]).
  set (E := if decide (cpuProfiling (flags s) = "") then []
            else [EnableProfCaptureHook "gcs_profile_writer"
                    (cpuProfiling (flags s))]).
  assert (HA : Forall (λ ev, is_SerializeHooksToOptions ev = false) A ∧
               Forall (λ ev, is_submit_call ev = false) A).
  { unfold A. case_decide; split; repeat constructor. }
  assert (HB : Forall (λ ev, is_SerializeHooksToOptions ev = false) B ∧
               Forall (λ ev, is_submit_call ev = false) B).
  { unfold B. case_decide; split; repeat constructor. }
  assert (HE : Forall (λ ev, is_SerializeHooksToOptions ev = false) E ∧
               Forall (λ ev, is_submit_call ev = false) E).
  { unfold E. case_decide; split; repeat constructor. }
  assert (Hlater :
            Forall (λ ev, is_SerializeHooksToOptions ev = false) rest ∧
            Forall (λ ev, is_EnableProfCaptureHook ev = false) rest ∧
            Forall (λ ev, is_gather_call ev = false) rest).
  { repeat split; eapply Forall_impl; try exact Hrest;
      intros [] ?; done. }
  destruct HA as [HA1 HA2], HB as [HB1 HB2], HE as [HE1 HE2],
    Hlater as (Hl1 & Hl2 & Hl3).
  split; [|split; [|split]].
  - rewrite !filter_app, (filter_none _ A), (filter_none _ B),
      (filter_none _ E), (filter_none _ rest) by done. done.
  - intros Hset. unfold E. rewrite decide_False by done.
    rewrite !elem_of_app, elem_of_cons. auto.
  - exists (A ++ B ++ E), ([SerializeHooksToOptions; Build p] ++ rest).
    split; [by rewrite <- !app_assoc|]. split.
    + by rewrite !Forall_app.
    + rewrite Forall_app. split; [by repeat constructor|done].
  - exists (A ++ B ++ E ++ [SerializeHooksToOptions]), (Build p :: rest).
    split; [by rewrite <- !app_assoc|]. split.
    + rewrite !Forall_app. repeat split; try done. by repeat constructor.
    + by constructor.
Qed.

(** X5: the profile hook [Execute] enables is one [init] has registered.
    Whenever a run of [Execute] enables a hook, the flag [cpu_profiling] is
    not empty, the option enabled is that flag, and the name enabled is a
    name under which [init] registered a factory; that factory, given the
    option, returns the hook that writes under the bucket and the prefix the
    option parses to, and panics when the option does not parse.  [Execute]
    itself does not parse the destination. *)
Theorem enabled_hook_is_registered (p : Pipeline) (s : state)
    (name opt : string) :
  EnableProfCaptureHook name opt ∈ calls_of (Execute p) s →
  opt = cpuProfiling (flags s) ∧ opt ≠ "" ∧
  ∃ factory,
    RegisterProfCaptureHook name factory ∈ init ∧
    match gcsx_ParseObject opt with
    | Success (bucket, prefix) =>
        factory [opt] = Ret (gcsRecorderHook_func bucket prefix)
    | Failure _ => ∃ v, factory [opt] = Panic v
    end.
Proof.
  intros Hin. rewrite Execute_calls in Hin.
  apply elem_of_app in Hin as [Hin|Hin].
  2:{ destruct (Execute_gather s) as [[[opts|?]|?] s1]; simpl in Hin;
        [|by apply elem_of_nil in Hin..].
      destruct (Execute_submit_calls p opts s1) as (_ & sl & Hsl & Hall).
      rewrite (calls_of_app _ _ _ Hsl) in Hin.
      by destruct (Forall_not_in _ _ _ Hall
        (eq_refl : is_submit_call (EnableProfCaptureHook name opt) = false)). }
  destruct (decide (gcpopts_Project = "")) as [Hp|Hp].
  { destruct (Execute_gather_unchecked s (or_introl Hp)) as [Hno _].
    rewrite Hno in Hin. by apply elem_of_nil in Hin. }
  destruct (decide (stagingLocation (flags s) = "")) as [Hs|Hs].
  { destruct (Execute_gather_unchecked s (or_intror Hs)) as [Hno _].
    rewrite Hno in Hin. by apply elem_of_nil in Hin. }
  rewrite (Execute_gather_calls_run s Hp Hs) in Hin.
  assert (Hopt : name = "gcs_profile_writer" ∧
                 opt = cpuProfiling (flags s) ∧ opt ≠ "").
  { apply elem_of_app in Hin as [Hin|Hin].
    { case_decide; in_calls Hin. }
    destruct (parsed_labels s) as [? [?|]]; [in_calls Hin|].
    apply elem_of_app in Hin as [Hin|Hin]; [case_decide; in_calls Hin|].
    apply elem_of_app in Hin as [Hin|Hin]; [|in_calls Hin].
    case_decide; in_calls Hin. done. }
  destruct Hopt as (-> & Hopt & Hne). split; [done|]. split; [done|].
  exists gcsRecorderHook. split.
  - unfold init. apply elem_of_cons. right. apply elem_of_cons. by left.
  - unfold gcsRecorderHook.
    destruct (gcsx_ParseObject opt) as [[bucket prefix]|err]; [done|].
    by eexists.
Qed.

(** The counter after the second half, and the one marshalling it
    requests. *)
Lemma Execute_submit_unique (p : Pipeline) (opts : JobOptions RawOptions)
    (s : state) :
  unique (Execute_submit p opts s).2 =
    match Pipeline_Build p with
    | Success edges =>
        match graphx_Marshal edges (image (flags s)) with
        | Success _ => wrap32 (unique s + 1)
        | Failure _ => unique s
        end
    | Failure _ => unique s
    end ∧
  ∀ edges img,
    Marshal edges img ∈ calls_of (Execute_submit p opts) s ↔
    Pipeline_Build p = Success edges ∧ img = image (flags s).
Proof.
  assert (∃ sl, calls_of (Execute_submit p opts) s = sl ∧
                trace (Execute_submit p opts s).2 = trace s ++ sl)
    as (sl & -> & Htr).
  { destruct (Execute_submit_calls p opts s) as (_ & sl & Hsl & _).
    exists sl. split; [by apply calls_of_app | done]. }
  revert Htr. rewrite Execute_submit_run. cbv zeta.
  destruct (Pipeline_Build p) as [edges|?] eqn:Hb;
    [destruct (graphx_Marshal edges (image (flags s))) as [md|?] eqn:Hm;
     [destruct (gcsx_Join _ (objectName "model-" _ _)) as [mu|];
      [destruct (gcsx_Join _ (objectName "worker-" _ _)) as [wu|];
       [destruct (dryRun (flags s));
        [destruct (dataflowlib_Translate md opts wu mu)|]|]|]|]|];
    simpl; intros Htr; apply app_inv_head in Htr; subst sl;
    (split; [done|]); intros edges' img; split;
    try (intros Hin; in_calls Hin; done);
    try (intros [[= <-] ->]; rewrite !elem_of_cons; auto);
    by intros [? _].
Qed.

(** X6: a run of [Execute] advances the counter by one (wrapping around as
    an [int32]) when it has marshalled the model, whatever happens next (a
    dry run, a translation that fails, a submission that is refused), and
    leaves it as it was when it has stopped before: at a check, at the
    labels, at a build or a marshalling that fails. *)
Theorem counter_advances_with_model (p : Pipeline) (s : state) :
  let marshalled :=
    ∃ edges img model,
      Marshal edges img ∈ calls_of (Execute p) s ∧
      graphx_Marshal edges img = Success model in
  (marshalled → unique (Execute p s).2 = wrap32 (unique s + 1)) ∧
  (¬ marshalled → unique (Execute p s).2 = unique s).
Proof.
  intros marshalled. subst marshalled.
  destruct (Execute_gather_calls s) as (gl & Hgl & Hall & Hu & _).
  assert (Hgather : ∀ edges img, Marshal edges img ∉ gl).
  { intros edges img.
    by apply (Forall_not_in _ _ _ Hall
                (eq_refl : is_gather_call (Marshal edges img) = false)). }
  rewrite Execute_calls, (calls_of_app _ _ _ Hgl).
  unfold Execute, bind.
  destruct (Execute_gather s) as [[[opts|?]|?] s1] eqn:Hg; simpl in *.
  2,3: split; [intros (edges & img & _ & Hin & _);
               rewrite app_nil_r in Hin; by destruct (Hgather edges img)
              | done].
  destruct (Execute_submit_unique p opts s1) as [Hunique Hmarshal].
  rewrite Hunique, Hu. split.
  - intros (edges & img & model & Hin & Hok).
    apply elem_of_app in Hin as [Hin|Hin]; [by destruct (Hgather edges img)|].
    apply Hmarshal in Hin as [-> ->]. by rewrite Hok.
  - intros Hnot.
    destruct (Pipeline_Build p) as [edges|?] eqn:Hb; [|done].
    destruct (graphx_Marshal edges (image (flags s1))) as [md|?] eqn:Hm;
      [|done].
    destruct Hnot. exists edges, (image (flags s1)), md. split; [|done].
    apply elem_of_app. right. by apply Hmarshal.
Qed.

Lemma Executes_app (ps qs : list Pipeline) (s : state) :
  Executes (ps ++ qs) s = Executes qs (Executes ps s).
Proof. revert s. induction ps as [|p ps IH]; intros s; simpl; [done|]. apply IH. Qed.

Lemma Execute_staging (p : Pipeline) (s : state) :
  stagingLocation (flags (Execute p s).2) = stagingLocation (flags s).
Proof.
  rewrite Execute_flags.
  destruct (Execute_gather_gathered s) as (<- & _). done.
Qed.

(** One run moves the counter by nothing or by one. *)
Lemma Execute_unique_step (p : Pipeline) (s : state) :
  unique (Execute p s).2 = unique s ∨
  unique (Execute p s).2 = wrap32 (unique s + 1).
Proof.
  destruct (Execute_gather_calls s) as (_ & _ & _ & Hu & _).
  unfold Execute, bind.
  destruct (Execute_gather s) as [[[opts|?]|?] s1]; simpl in *; [|by left..].
  destruct (Execute_submit_unique p opts s1) as [-> _]. rewrite Hu.
  repeat case_match; auto.
Qed.

(** Some runs move the counter by no more than their number, and leave the
    staging location alone. *)
Lemma Executes_unique (ps : list Pipeline) (s : state) :
  stagingLocation (flags (Executes ps s)) = stagingLocation (flags s) ∧
  ∃ c : nat, c ≤ length ps ∧
    wrap32 (unique (Executes ps s)) = wrap32 (unique s + Z.of_nat c).
Proof.
  revert s. induction ps as [|p ps IH]; intros s; simpl.
  - split; [done|]. exists 0. split; [done|]. f_equal. lia.
  - destruct (IH (Execute p s).2) as (Hst & c & Hc & Hu).
    split; [by rewrite Hst, Execute_staging|].
    destruct (Execute_unique_step p s) as [Hstep|Hstep]; rewrite Hstep in Hu.
    + exists c. split; [lia|done].
    + exists (S c). split; [lia|]. rewrite Hu, wrap32_add_l. f_equal. lia.
Qed.

(** The id behind the URLs a run hands on, and the counter it leaves. *)
Lemma hands_on_id (p : Pipeline) (s : state) (workerURL modelURL : string) :
  hands_on p s workerURL modelURL →
  let id := wrap32 (unique s + 1) in
  unique (Execute p s).2 = id ∧
  (∃ now, gcsx_Join (stagingLocation (flags s)) (objectName "model-" id now)
          = Some modelURL) ∧
  (∃ now, gcsx_Join (stagingLocation (flags s)) (objectName "worker-" id now)
          = Some workerURL).
Proof.
  intros (model & o & Hin) id.
  destruct (Execute_handed p s model o workerURL modelURL Hin)
    as (s1 & Hg & Hin1).
  destruct (Execute_gather_frame s s1 _ Hg) as (_ & _ & Hst & Hu & _).
  destruct (Execute_submit_handed p o s1 model o workerURL modelURL Hin1)
    as (_ & edges & Hb & Hm & Hmu & Hwu).
  rewrite Hst, Hu in Hmu, Hwu.
  split; [|split; by eexists].
  rewrite (Execute_after_gather p s s1 o Hg).
  destruct (Execute_submit_unique p o s1) as [-> _].
  by rewrite Hb, Hm, Hu.
Qed.

(** X7: runs of [Execute] one after the other never hand on the same URL
    twice.  For pipelines run in a row, no more than the counter has values,
    any two of those runs that hand URLs to the translation or to the service
    hand on four URLs that are pairwise different, provided [gcsx.Join]
    keeps the names of the staged objects apart under the staging location
    (as a join does that puts one separator before a name and leaves the name
    as it is). *)
Theorem successive_runs_distinct (ps : list Pipeline) (s : state)
    (i j : nat) (p1 p2 : Pipeline)
    (workerURL1 modelURL1 workerURL2 modelURL2 : string) :
  (Z.of_nat (length ps) ≤ 2 ^ 32)%Z →
  joins_names_apart (stagingLocation (flags s)) →
  i < j →
  ps !! i = Some p1 →
  ps !! j = Some p2 →
  hands_on p1 (Executes (take i ps) s) workerURL1 modelURL1 →
  hands_on p2 (Executes (take j ps) s) workerURL2 modelURL2 →
  NoDup [modelURL1; workerURL1; modelURL2; workerURL2].
Proof.
  intros Hn Hinj Hij Hi Hj H1 H2.
  set (s1 := Executes (take i ps) s) in *.
  set (mid := take (j - S i) (drop (S i) ps)).
  assert (Hs2 : Executes (take j ps) s = Executes mid (Execute p1 s1).2).
  { replace j with (S i + (j - S i)) at 1 by lia.
    rewrite <- take_take_drop, (take_S_r _ _ _ Hi), <- app_assoc.
    by rewrite !Executes_app. }
  rewrite Hs2 in H2.
  destruct (hands_on_id _ _ _ _ H1) as (Hu1 & [t1 Hm1] & [t1' Hw1]).
  destruct (hands_on_id _ _ _ _ H2) as (_ & [t2 Hm2] & [t2' Hw2]).
  destruct (Executes_unique (take i ps) s) as [Hst1 _]. fold s1 in Hst1.
  destruct (Executes_unique mid (Execute p1 s1).2) as (Hst2 & c & Hc & Hu2).
  rewrite Hst2, Execute_staging, Hst1 in Hm2, Hw2.
  rewrite Hst1 in Hm1, Hw1.
  set (id1 := wrap32 (unique s1 + 1)) in *.
  set (id2 := wrap32 (unique (Executes mid (Execute p1 s1).2) + 1)) in *.
  assert (Hid : id1 ≠ id2).
  { unfold id2. rewrite <- wrap32_add_l, Hu2, Hu1, wrap32_add_l.
    intros Heq.
    assert (Hwrapped : wrap32 id1 = id1) by apply wrap32_idemp.
    rewrite <- Hwrapped in Heq at 1.
    assert (Hmid : length mid ≤ j - S i).
    { unfold mid. rewrite length_take. lia. }
    apply lookup_lt_Some in Hj.
    apply wrap32_inj in Heq; lia. }
  assert (Hmodel : "model-" ∈ ["model-"; "worker-"])
    by (rewrite !elem_of_cons; auto).
  assert (Hworker : "worker-" ∈ ["model-"; "worker-"])
    by (rewrite !elem_of_cons; auto).
  pose proof (names_differ _ _ _ _ _ _ _ _ _ Hinj Hmodel Hworker Hm1 Hw1) as D1.
  pose proof (names_differ _ _ _ _ _ _ _ _ _ Hinj Hmodel Hmodel Hm1 Hm2) as D2.
  pose proof (names_differ _ _ _ _ _ _ _ _ _ Hinj Hmodel Hworker Hm1 Hw2) as D3.
  pose proof (names_differ _ _ _ _ _ _ _ _ _ Hinj Hworker Hmodel Hw1 Hm2) as D4.
  pose proof (names_differ _ _ _ _ _ _ _ _ _ Hinj Hworker Hworker Hw1 Hw2) as D5.
  pose proof (names_differ _ _ _ _ _ _ _ _ _ Hinj Hmodel Hworker Hm2 Hw2) as D6.
  assert (Hkinds : "model-" ≠ "worker-") by done.
  assert (Hkinds' : "worker-" ≠ "model-") by done.
  repeat (apply NoDup_cons; split); [..|apply NoDup_nil_2];
    rewrite ?not_elem_of_cons; repeat split; auto using not_elem_of_nil.
Qed.

(** *** Flags a run cannot tell apart *)

Section Blind.
Context (F : relation Flags).

Lemma blind_ret {A} (a : A) : blind F (ret a).
Proof. by intros s s' H. Qed.

Lemma blind_panic {A} (v : string) : blind F (panic (A:=A) v).
Proof. by intros s s' H. Qed.

Lemma blind_bind {A B} (m : M A) (k : A → M B) :
  blind F m → (∀ a, blind F (k a)) → blind F (bind m k).
Proof.
  intros Hm Hk s s' H. unfold bind.
  destruct (Hm s s' H) as [Hr Hs].
  destruct (m s) as [[a|v] s1], (m s') as [[a'|v'] s1']; simpl in *;
    simplify_eq; [by apply Hk | done].
Qed.

Lemma blind_call (ev : event) : blind F (call ev).
Proof.
  intros s s' (Hf & Hu & Ht & Htr). simpl. split; [done|].
  split; [done|]. split; [done|]. split; [done|]. simpl. by rewrite Htr.
Qed.

Lemma blind_calls : blind F calls.
Proof.
  intros s s' H. split; [|done]. simpl. by destruct H as (_ & _ & _ & ->).
Qed.

Lemma blind_flag {A} (f : Flags → A) :
  (∀ x y, F x y → f x = f y) → blind F (flag f).
Proof.
  intros Hf s s' H. split; [|done]. simpl. f_equal. apply Hf. by destruct H.
Qed.

Lemma blind_store_image (v : string) :
  (∀ x y, F x y → F (set_image v x) (set_image v y)) →
  blind F (store_image v).
Proof.
  intros Hf s s' (HF & Hu & Ht & Htr). split; [done|].
  split; [by apply Hf | done].
Qed.

Lemma blind_atomic_AddInt32_unique (delta : Z) :
  blind F (atomic_AddInt32_unique delta).
Proof.
  intros s s' (HF & Hu & Ht & Htr). simpl. rewrite Hu. split; [done|].
  by split.
Qed.

Lemma blind_time_Now : blind F time_Now.
Proof.
  intros s s' (HF & Hu & Ht & Htr). simpl. rewrite Ht. split; [done|].
  split; [done|]. split; [done|]. by split.
Qed.

Lemma blind_Join (object elm : string) : blind F (Join object elm).
Proof.
  unfold Join. destruct (gcsx_Join object elm);
    [apply blind_ret | apply blind_panic].
Qed.

(** Reading all the flags at once is harmless when what follows uses only
    flags on which the two sides agree. *)
Lemma blind_flags_bind {A} (k : Flags → M A) :
  (∀ x y, F x y → k x = k y) → (∀ fl, blind F (k fl)) →
  blind F (bind (flag id) k).
Proof.
  intros Hk Hb s s' H. unfold bind, flag. simpl.
  rewrite (Hk (flags s) (flags s')) by (by destruct H). by apply Hb.
Qed.

(** The first half of [Execute] cannot tell apart flags that agree on the
    flags it reads. *)
Lemma Execute_gather_blind :
  (∀ x y, F x y → gather_reads x y) →
  (∀ v x y, F x y → F (set_image v x) (set_image v y)) →
  blind F Execute_gather.
Proof.
  intros Hreads Himage. unfold Execute_gather.
  repeat first
    [ apply blind_ret | apply blind_panic | apply blind_call
    | apply blind_Join
    | (apply blind_store_image; by apply Himage)
    | (apply blind_flag; intros x y Hxy;
       by destruct (Hreads x y Hxy) as (?&?&?&?&?&?&?&?&?&?&?&?))
    | apply blind_flags_bind
    | apply blind_bind
    | match goal with |- ∀ _, blind _ _ => intros ? end
    | case_decide | case_match ].
  all: intros x y Hxy;
    destruct (Hreads x y Hxy) as (E1&E2&E3&E4&E5&E6&E7&E8&E9&E10&E11&E12);
    simpl; by rewrite E4, E5, E6, E7, E8, E9, E11.
Qed.

(** The second half cannot tell apart flags that agree on the four it
    reads. *)
Lemma Execute_submit_blind (p : Pipeline) (opts : JobOptions RawOptions) :
  (∀ x y, F x y → image x = image y ∧ stagingLocation x = stagingLocation y ∧
                  dryRun x = dryRun y ∧ endpoint x = endpoint y) →
  blind F (Execute_submit p opts).
Proof.
  intros Hreads. unfold Execute_submit, stagedURL.
  repeat first
    [ apply blind_ret | apply blind_panic | apply blind_call
    | apply blind_Join | apply blind_time_Now
    | apply blind_atomic_AddInt32_unique
    | (apply blind_flag; intros x y Hxy;
       by destruct (Hreads x y Hxy) as (?&?&?&?))
    | apply blind_bind
    | match goal with |- ∀ _, blind _ _ => intros ? end
    | case_decide | case_match ].
Qed.

End Blind.

Lemma but_sessionRecording_set_image (v : string) (x y : Flags) :
  but_sessionRecording x y →
  but_sessionRecording (set_image v x) (set_image v y).
Proof.
  unfold but_sessionRecording. simpl.
  intros (?&?&?&?&?&?&?&?&?&?&?&?&?&?). repeat split; done.
Qed.

Lemma but_dryRun_set_image (v : string) (x y : Flags) :
  but_dryRun x y → but_dryRun (set_image v x) (set_image v y).
Proof.
  unfold but_dryRun. simpl.
  intros (?&?&?&?&?&?&?&?&?&?&?&?&?&?). repeat split; done.
Qed.

(** X8: the flag [session_recording] has no effect.  From two states that
    differ in that flag only, [Execute] returns the same result, makes the
    same calls, and leaves the same counter, the same clock and flags that
    again differ in that flag only. *)
Theorem session_recording_ignored (p : Pipeline) (s s' : state) :
  alike but_sessionRecording s s' →
  (Execute p s).1 = (Execute p s').1 ∧
  calls_of (Execute p) s = calls_of (Execute p) s' ∧
  alike but_sessionRecording (Execute p s).2 (Execute p s').2.
Proof.
  intros Hs.
  assert (Hb : blind but_sessionRecording (Execute p)).
  { unfold Execute. apply blind_bind.
    - apply Execute_gather_blind.
      + intros x y (?&?&?&?&?&?&?&?&?&?&?&?&?&?). repeat split; done.
      + intros v x y. apply but_sessionRecording_set_image.
    - intros [opts|err]; [|apply blind_ret].
      apply Execute_submit_blind.
      intros x y (?&?&?&?&?&?&?&?&?&?&?&?&?&?). repeat split; done. }
  destruct (Hb s s' Hs) as [Hr Hs2]. split; [done|]. split; [|done].
  unfold calls_of. destruct Hs as (_ & _ & _ & ->).
  by destruct Hs2 as (_ & _ & _ & ->).
Qed.

Lemma Execute_calls_after_gather (p : Pipeline) (s s1 : state)
    (o : JobOptions RawOptions) :
  Execute_gather s = (Ret (Success o), s1) →
  calls_of (Execute p) s
    = calls_of Execute_gather s ++ calls_of (Execute_submit p o) s1.
Proof. intros Hg. by rewrite Execute_calls, Hg. Qed.

(** The calls of the second half once the model is there and the names are
    joined. *)
Lemma Execute_submit_named_calls (p : Pipeline) (o : JobOptions RawOptions)
    (s : state) (edges : Edges) (model : Model) (modelURL workerURL : string) :
  Pipeline_Build p = Success edges →
  graphx_Marshal edges (image (flags s)) = Success model →
  gcsx_Join (stagingLocation (flags s))
    (objectName "model-" (wrap32 (unique s + 1)) (time_Now_UnixNano (ticks s)))
    = Some modelURL →
  gcsx_Join (stagingLocation (flags s))
    (objectName "worker-" (wrap32 (unique s + 1))
       (time_Now_UnixNano (S (ticks s))))
    = Some workerURL →
  if dryRun (flags s)
  then Translate model o workerURL modelURL ∈ calls_of (Execute_submit p o) s
  else Submit model o workerURL modelURL (endpoint (flags s)) false
         (dataflowlib_Execute model o workerURL modelURL
            (endpoint (flags s)) false)
       ∈ calls_of (Execute_submit p o) s.
Proof.
  intros Hb Hm Hmu Hwu.
  pose proof (Execute_submit_named p o s edges model modelURL workerURL
                Hb Hm Hmu Hwu) as Hrun.
  cbv zeta in Hrun.
  destruct (dryRun (flags s));
    [destruct (dataflowlib_Translate model o workerURL modelURL)|];
    (erewrite calls_of_app; [|by rewrite Hrun]);
    simpl; rewrite !elem_of_cons; auto 10.
Qed.

(** X9: a dry run shows the job a submission would send.  From two states
    that differ in the flag [dry_run] only, set in one and unset in the
    other, the dry run translates a model, options and two URLs exactly when
    the other run submits that model, those options and those URLs, to the
    endpoint of the flags and not asynchronously. *)
Theorem dry_run_shows_the_submission (p : Pipeline) (s s' : state)
    (model : Model) (o : JobOptions RawOptions)
    (workerURL modelURL : string) :
  alike but_dryRun s s' →
  dryRun (flags s) = true →
  dryRun (flags s') = false →
  Translate model o workerURL modelURL ∈ calls_of (Execute p) s ↔
  Submit model o workerURL modelURL (endpoint (flags s')) false
    (dataflowlib_Execute model o workerURL modelURL (endpoint (flags s'))
       false)
    ∈ calls_of (Execute p) s'.
Proof.
  intros Hs Hdry Hreal.
  assert (Hb : blind but_dryRun Execute_gather).
  { apply Execute_gather_blind.
    - intros x y (?&?&?&?&?&?&?&?&?&?&?&?&?&?). repeat split; done.
    - intros v x y. apply but_dryRun_set_image. }
  destruct (Hb s s' Hs) as [Hr ((He&Hst&Himg&_) & Hu & Ht & _)].
  split; intros Hin.
  - destruct (Execute_handed p s model o workerURL modelURL (or_introl Hin))
      as (s1 & Hg & Hin1).
    destruct (Execute_submit_handed p o s1 model o workerURL modelURL Hin1)
      as (_ & edges & Hbuild & Hm & Hmu & Hwu).
    rewrite Hg in Hr, He, Hst, Himg, Hu, Ht. simpl in *.
    destruct (Execute_gather s') as [r1' s1'] eqn:Hg'. simpl in *. subst r1'.
    destruct (Execute_gather_frame s' s1' _ Hg') as (Hd' & He' & _).
    rewrite Himg in Hm. rewrite Hst, Hu, Ht in Hmu, Hwu.
    pose proof (Execute_submit_named_calls p o s1' edges model modelURL
                  workerURL Hbuild Hm Hmu Hwu) as Hcall.
    rewrite Hd', Hreal, He' in Hcall.
    rewrite (Execute_calls_after_gather p s' s1' o Hg').
    apply elem_of_app. by right.
  - destruct (Execute_handed p s' model o workerURL modelURL)
      as (s1' & Hg' & Hin1); [right; by eexists _, _, _|].
    destruct (Execute_submit_handed p o s1' model o workerURL modelURL Hin1)
      as (_ & edges & Hbuild & Hm & Hmu & Hwu).
    rewrite Hg' in Hr, He, Hst, Himg, Hu, Ht. simpl in *.
    destruct (Execute_gather s) as [r1 s1] eqn:Hg. simpl in *. subst r1.
    destruct (Execute_gather_frame s s1 _ Hg) as (Hd & _).
    rewrite <- Himg in Hm. rewrite <- Hst, <- Hu, <- Ht in Hmu, Hwu.
    pose proof (Execute_submit_named_calls p o s1 edges model modelURL
                  workerURL Hbuild Hm Hmu Hwu) as Hcall.
    rewrite Hd, Hdry in Hcall.
    rewrite (Execute_calls_after_gather p s s1 o Hg).
    apply elem_of_app. by right.
Qed.

(** X10: [Execute] returns nil only when the job is done with: in a dry
    run, when the last call it made is the printing of the translated job;
    otherwise, when the last call it made is a submission, not asynchronous,
    that the service answered with a job and no error. *)
Theorem nil_means_done (p : Pipeline) (s : state) :
  (Execute p s).1 = Ret None →
  if dryRun (flags s)
  then ∃ job, last (calls_of (Execute p) s) = Some (PrintJob job)
  else ∃ model o workerURL modelURL endpoint result,
         last (calls_of (Execute p) s)
           = Some (Submit model o workerURL modelURL endpoint false
                     (Success result)).
Proof.
  intros Hnil.
  destruct (Execute_gather s) as [r1 s1] eqn:Hg.
  destruct r1 as [[opts|err]|v].
  2,3: by (revert Hnil; unfold Execute, bind; rewrite Hg).
  destruct (Execute_gather_frame s s1 _ Hg) as (Hd & _).
  rewrite (Execute_calls_after_gather p s s1 opts Hg).
  rewrite (Execute_after_gather p s s1 opts Hg) in Hnil.
  destruct (Execute_submit_calls p opts s1) as (_ & sl & Hsl & _).
  rewrite (calls_of_app _ _ _ Hsl).
  revert Hnil Hsl. rewrite Execute_submit_run. cbv zeta. rewrite Hd.
  destruct (Pipeline_Build p) as [edges|?]; [|done].
  destruct (graphx_Marshal edges (image (flags s1))) as [md|?]; [|done].
  destruct (gcsx_Join _ (objectName "model-" _ _)) as [mu|]; [|done].
  destruct (gcsx_Join _ (objectName "worker-" _ _)) as [wu|]; [|done].
  destruct (dryRun (flags s)).
  - destruct (dataflowlib_Translate md opts wu mu) as [job|?]; [|done].
    simpl. intros _ Hsl. apply app_inv_head in Hsl. subst sl.
    exists job.
    rewrite last_app. reflexivity.
  - simpl.
    destruct (dataflowlib_Execute md opts wu mu (endpoint (flags s1)) false)
      as [result|?] eqn:Hanswer; [|done].
    intros _ Hsl. apply app_inv_head in Hsl. subst sl.
    exists md, opts, wu, mu, (endpoint (flags s1)), result.
    rewrite last_app. reflexivity.
Qed.

(** One invocation after the other: the results, and the calls added. *)
Lemma captures_run (bucket prefix : string) (inputs : list (string * Reader))
    (s : state) :
  ∃ results l,
    captures (gcsRecorderHook_func bucket prefix) inputs s =
      (Ret results,
       {| flags := flags s; unique := unique s; ticks := ticks s;
          trace := trace s ++ l |}) ∧
    length results = length inputs ∧
    length (filter (λ ev, is_NewClient ev = true) l) = length inputs ∧
    length (filter (λ ev, is_WriteObject ev = true) l)
      = length (filter (λ ev, got_client ev = true) l) ∧
    Forall (writes_under bucket prefix inputs) l.
Proof.
  revert s. induction inputs as [|[spec r] rest IH]; intros s.
  - exists [], []. simpl. unfold ret. rewrite app_nil_r.
    repeat split; try done. by destruct s.
  - simpl. unfold bind at 1. rewrite gcsRecorderHook_func_run.
    assert (Hweaken : ∀ l, Forall (writes_under bucket prefix rest) l →
              Forall (writes_under bucket prefix ((spec, r) :: rest)) l).
    { intros l Hl. eapply Forall_impl; [exact Hl|].
      intros [] H; try done. simpl in *.
      destruct H as (-> & spec' & Hin & ->). split; [done|].
      exists spec'. split; [|done]. by apply elem_of_cons; right. }
    destruct (gcsx_NewClient (length (trace s))) as [client|err];
      cbv beta iota zeta.
    + match goal with
      | |- context [bind (captures _ rest) _ ?s1] =>
          destruct (IH s1) as (results & l & Hrun & Hlen & Hnew & Hwr & Hall)
      end.
      unfold bind. rewrite Hrun. simpl.
      eexists (_ :: results), (_ :: _ :: l).
      split; [by rewrite <- app_assoc|].
      split; [simpl; by rewrite Hlen|].
      rewrite !filter_cons. simpl.
      repeat (rewrite decide_True by done || rewrite decide_False by done).
      simpl. split; [by rewrite Hnew|]. split; [by rewrite Hwr|].
      constructor; [done|]. constructor; [|by apply Hweaken].
      simpl. split; [done|]. exists spec. split; [|done].
      apply elem_of_cons. by left.
    + match goal with
      | |- context [bind (captures _ rest) _ ?s1] =>
          destruct (IH s1) as (results & l & Hrun & Hlen & Hnew & Hwr & Hall)
      end.
      unfold bind. rewrite Hrun. simpl.
      eexists (_ :: results), (_ :: l).
      split; [by rewrite <- app_assoc|].
      split; [simpl; by rewrite Hlen|].
      rewrite !filter_cons. simpl.
      repeat (rewrite decide_True by done || rewrite decide_False by done).
      simpl. split; [by rewrite Hnew|]. split; [by rewrite Hwr|].
      constructor; [done|]. by apply Hweaken.
Qed.

(** X11: the hook keeps nothing from one capture to the next.  Invoked on any
    number of captures in a row, from any state, it never panics and returns
    one result for each; it asks for a GCS client once for each capture, it
    writes once for each client it got and not otherwise, so that a capture
    left without a client does not keep a later one from writing; every write
    goes to the bucket of the hook, to an object joined from its prefix and
    the spec of one of the captures, with the reader of that capture; and the
    flags, the counter and the clock are left alone. *)
Theorem captures_are_independent (bucket prefix : string)
    (inputs : list (string * Reader)) (s : state) :
  let hook := gcsRecorderHook_func bucket prefix in
  (∃ results, (captures hook inputs s).1 = Ret results ∧
              length results = length inputs) ∧
  flags (captures hook inputs s).2 = flags s ∧
  unique (captures hook inputs s).2 = unique s ∧
  ticks (captures hook inputs s).2 = ticks s ∧
  length (filter (λ ev, is_NewClient ev = true)
            (calls_of (captures hook inputs) s))
    = length inputs ∧
  length (filter (λ ev, is_WriteObject ev = true)
            (calls_of (captures hook inputs) s))
    = length (filter (λ ev, got_client ev = true)
                (calls_of (captures hook inputs) s)) ∧
  Forall (writes_under bucket prefix inputs) (calls_of (captures hook inputs) s).
Proof.
  intros hook.
  destruct (captures_run bucket prefix inputs s)
    as (results & l & Hrun & Hlen & Hnew & Hwr & Hall).
  fold hook in Hrun.
  rewrite (calls_of_app (captures hook inputs) s l) by (by rewrite Hrun).
  rewrite Hrun. simpl.
  split; [by exists results|]. done.
Qed.

(** X12: the errors [Execute] returns.  An error returned by [Execute] is
    one of seven: one of its two own errors for a missing project or a
    missing staging location; the error of the label parser, wrapped; the
    error of [p.Build()] as it is; the error of [graphx.Marshal], wrapped; in
    a dry run, the error of the translation as it is; otherwise, the error of
    the submission as it is.  It returns no other. *)
Theorem error_sources (p : Pipeline) (s : state) (e : error) :
  (Execute p s).1 = Ret (Some e) →
  (gcpopts_Project = "" ∧
   e = errors_New "no Google Cloud project specified. Use --project=<project>") ∨
  (stagingLocation (flags s) = "" ∧
   e = errors_New
         "no GCS staging location specified. Use --staging_location=gs://<bucket>/<path>") ∨
  (∃ cause, (parsed_labels s).2 = Some cause ∧
            e = fmt_Errorf "error reading --label flag as JSON: " cause) ∨
  Pipeline_Build p = Failure e ∨
  (∃ edges cause,
     Pipeline_Build p = Success edges ∧
     graphx_Marshal edges (resolved_image (flags s)) = Failure cause ∧
     e = fmt_Errorf "failed to generate model pipeline: " cause) ∨
  (dryRun (flags s) = true ∧
   ∃ model o workerURL modelURL,
     Translate model o workerURL modelURL ∈ calls_of (Execute p) s ∧
     dataflowlib_Translate model o workerURL modelURL = Failure e) ∨
  (dryRun (flags s) = false ∧
   ∃ model o workerURL modelURL endpoint,
     Submit model o workerURL modelURL endpoint false (Failure e)
       ∈ calls_of (Execute p) s).
Proof.
  intros Herr.
  destruct (decide (gcpopts_Project = "")) as [Hp|Hp].
  { left. split; [done|]. revert Herr. unfold_run.
    rewrite decide_True by done. simpl. by intros [= <-]. }
  destruct (decide (stagingLocation (flags s) = "")) as [Hs|Hs].
  { right; left. split; [done|]. revert Herr. unfold_run.
    rewrite decide_False by done. simpl. rewrite decide_True by done.
    simpl. by intros [= <-]. }
  right; right.
  pose proof (Execute_gather_run s Hp Hs) as Hrun.
  destruct (parsed_labels s) as [parsed [cause|]] eqn:Hl.
  { left. exists cause. split; [done|]. revert Herr.
    unfold Execute, bind. rewrite Hrun. simpl. by intros [= <-]. }
  right.
  destruct (resolved_temp s) as [tmp|] eqn:Ht.
  2:{ revert Herr. unfold Execute, bind. by rewrite Hrun. }
  set (o := gathered_options s parsed tmp) in *.
  set (s1 := after_gather s) in *.
  destruct (Execute_gather_frame s s1 _ Hrun) as (Hd & _).
  assert (Himg : image (flags s1) = resolved_image (flags s)).
  { unfold s1. by rewrite after_gather_image. }
  rewrite (Execute_calls_after_gather p s s1 o Hrun).
  rewrite (Execute_after_gather p s s1 o Hrun) in Herr.
  destruct (Execute_submit_calls p o s1) as (_ & sl & Hsl & _).
  rewrite (calls_of_app _ _ _ Hsl).
  rewrite Execute_submit_run in Herr, Hsl. cbv zeta in Herr, Hsl.
  rewrite Hd, Himg in Herr, Hsl.
  destruct (Pipeline_Build p) as [edges|?] eqn:Hb.
  2:{ simpl in Herr. injection Herr as <-. by left. }
  right.
  destruct (graphx_Marshal edges (resolved_image (flags s)))
    as [md|cause] eqn:Hm.
  2:{ simpl in Herr. injection Herr as <-. left. by exists edges, cause. }
  right.
  destruct (gcsx_Join _ (objectName "model-" _ _)) as [mu|]; [|done].
  destruct (gcsx_Join _ (objectName "worker-" _ _)) as [wu|]; [|done].
  destruct (dryRun (flags s)).
  - left. split; [done|].
    destruct (dataflowlib_Translate md o wu mu) as [job|?] eqn:Htr; [done|].
    simpl in Herr, Hsl. injection Herr as <-.
    apply app_inv_head in Hsl. subst sl.
    exists md, o, wu, mu. split; [|exact Htr].
    apply elem_of_app. right. rewrite !elem_of_cons. auto 10.
  - right. split; [done|].
    destruct (dataflowlib_Execute md o wu mu (endpoint (flags s1)) false)
      as [result|?] eqn:Hanswer; [by simpl in Herr|].
    simpl in Herr, Hsl. injection Herr as <-.
    apply app_inv_head in Hsl. subst sl.
    exists md, o, wu, mu, (endpoint (flags s1)).
    apply elem_of_app. right. rewrite !elem_of_cons. auto 10.
Qed.

(** X13: the name of a staged object says which object it is.  Two names
    formatted for the kinds [model-] and [worker-] are equal exactly when the
    kind, the id and the reading of the clock are, although the separator is
    also the minus sign of a negative id or of a negative reading. *)
Theorem object_names_unambiguous (kind1 kind2 : string)
    (id1 now1 id2 now2 : Z) :
  kind1 ∈ ["model-"; "worker-"] →
  kind2 ∈ ["model-"; "worker-"] →
  objectName kind1 id1 now1 = objectName kind2 id2 now2 ↔
  kind1 = kind2 ∧ id1 = id2 ∧ now1 = now2.
Proof.
  intros H1 H2. split.
  - by apply objectName_inj.
  - by intros (-> & -> & ->).
Qed.

End Further.

(** * The properties at work on the sample collaborators *)

(** The sample [gcsx.Join] does not double a separator, and so joins ["x"]
    and ["/x"] to one URL; it keeps the names of the staged objects apart
    under every location. *)
Lemma append_inj_r (s a b : string) : s +:+ a = s +:+ b → a = b.
Proof.
  induction s as [|c s IH]; simpl; intros H; [done|]. apply IH. by simplify_eq.
Qed.

Lemma Sample_join_merges :
  Sample.join "gs://bucket/staging" "x"
    = Sample.join "gs://bucket/staging" "/x".
Proof. reflexivity. Qed.

Lemma Sample_join_names (project : string) (handle : nat) (staging : string) :
  joins_names_apart (C:=Sample.collaborators project handle) staging.
Proof.
  intros kind1 kind2 id1 now1 id2 now2 url Hk1 Hk2. simpl.
  unfold Sample.join. case_decide; [done|]. intros Ha Hb.
  rewrite <- Hb in Ha. injection Ha as Ha.
  apply append_inj_r in Ha. simpl in Ha. injection Ha as Ha.
  assert (Htrim : ∀ kind id now, kind ∈ ["model-"; "worker-"] →
            Sample.trim_start (objectName kind id now)
            = objectName kind id now).
  { intros kind id now Hk. set_unfold in Hk.
    by destruct Hk as [->|[->|[]]]. }
  by rewrite !Htrim in Ha.
Qed.

(** With [--dry_run], pipeline [5] is translated and printed, not submitted. *)
Lemma dry_run_previews_witness :
  let s := Sample.start Sample.C7
             (Sample.launch "gs://bucket/staging" "" "" true) in
  dryRun (flags s) = true ∧
  (Execute (C:=Sample.C7) 5%nat s).1 = Ret None ∧
  trace (Execute (C:=Sample.C7) 5%nat s).2 =
    [GetContainerImage; SerializeHooksToOptions; Build (C:=Sample.C7) 5%nat;
     Marshal (C:=Sample.C7) 5%nat "gcr.io/beam/go:latest";
     LogInfo "Dry-run: not submitting job!"; LogInfo "components: <>";
     Translate (C:=Sample.C7) 5%nat
       (Sample.options "proj" None "gs://bucket/staging/tmp")
       "gs://bucket/staging/worker-1-1500000000000000001"
       "gs://bucket/staging/model-1-1500000000000000000";
     PrintJob (C:=Sample.C7) "job"].
Proof.
  intros s. split; [reflexivity|].
  destruct (dry_run_previews (C:=Sample.C7) 5%nat s eq_refl) as [_ H].
  exact (H _ _ _ _ _ _ eq_refl eq_refl eq_refl eq_refl eq_refl).
Defined.

(** Without [--dry_run], pipeline [5] is submitted and the job [7] that
    [dataflowlib.Execute] returns does not come back; pipeline [3] is refused
    by the service and the refusal comes back as it is. *)
Lemma submit_returns_error_witness :
  let s := Sample.start Sample.C7
             (Sample.launch "gs://bucket/staging" "" "" false) in
  let opts := Sample.options "proj" None "gs://bucket/staging/tmp" in
  let after (p : nat) (answer : fallible nat) : state (C:=Sample.C7) :=
    {| flags := set_image "gcr.io/beam/go:latest" (flags s);
       unique := 1; ticks := 2;
       trace :=
         [GetContainerImage; SerializeHooksToOptions;
          Build (C:=Sample.C7) p;
          Marshal (C:=Sample.C7) p "gcr.io/beam/go:latest";
          Submit (C:=Sample.C7) p opts
            "gs://bucket/staging/worker-1-1500000000000000001"
            "gs://bucket/staging/model-1-1500000000000000000" "" false
            answer] |} in
  dryRun (flags s) = false ∧
  Execute (C:=Sample.C7) 5%nat s = (Ret None, after 5%nat (Success 7%nat)) ∧
  Execute (C:=Sample.C7) 3%nat s =
    (Ret (Some (collaboratorError "*googleapi.Error" "403")),
     after 3%nat (Failure (collaboratorError "*googleapi.Error" "403"))).
Proof.
  intros s opts after. split; [reflexivity|]. split.
  - exact (submit_returns_error (C:=Sample.C7) 5%nat s _ _ _ _ _ _
             eq_refl eq_refl eq_refl eq_refl eq_refl eq_refl).
  - exact (submit_returns_error (C:=Sample.C7) 3%nat s _ _ _ _ _ _
             eq_refl eq_refl eq_refl eq_refl eq_refl eq_refl).
Defined.

(** C2 as the specification states it fails: in two runs that differ only in
    the job [dataflowlib.Execute] returns ([7] in one, [8] in the other), the
    call succeeds and is the last call made, and [Execute] returns the same
    nil in both: the success value of the collaborator is not in what
    [Execute] returns. *)
Lemma job_result_dropped :
  let fl := Sample.launch "gs://bucket/staging" "" "" false in
  let opts := Sample.options "proj" None "gs://bucket/staging/tmp" in
  let w := "gs://bucket/staging/worker-1-1500000000000000001" in
  let m := "gs://bucket/staging/model-1-1500000000000000000" in
  let run7 := Execute (C:=Sample.C7) 5%nat (Sample.start Sample.C7 fl) in
  let run8 := Execute (C:=Sample.C8) 5%nat (Sample.start Sample.C8 fl) in
  last (trace run7.2)
    = Some (Submit (C:=Sample.C7) 5%nat opts w m "" false (Success 7%nat)) ∧
  last (trace run8.2)
    = Some (Submit (C:=Sample.C8) 5%nat opts w m "" false (Success 8%nat)) ∧
  run7.1 = Ret None ∧
  run8.1 = Ret None.
Proof. intros fl opts w m run7 run8. repeat split; reflexivity. Qed.

(** With no project, and with a project but no staging location. *)
Lemma missing_required_field_witness :
  let s := Sample.start Sample.Cnone
             (Sample.launch "gs://bucket/staging" "" "" false) in
  let s' := Sample.start Sample.C7 (Sample.launch "" "" "" false) in
  (∃ text,
     Execute_gather s = (Ret (Failure (errors_New text)), s) ∧
     Execute (C:=Sample.Cnone) 5%nat s = (Ret (Some (errors_New text)), s) ∧
     (gcpopts_Project (Collaborators:=Sample.Cnone) = "" →
      contains "--project" text = true) ∧
     (gcpopts_Project (Collaborators:=Sample.Cnone) ≠ "" →
      contains "--staging_location" text = true)) ∧
  (∃ text,
     Execute_gather s' = (Ret (Failure (errors_New text)), s') ∧
     Execute (C:=Sample.C7) 5%nat s' = (Ret (Some (errors_New text)), s') ∧
     (gcpopts_Project (Collaborators:=Sample.C7) = "" →
      contains "--project" text = true) ∧
     (gcpopts_Project (Collaborators:=Sample.C7) ≠ "" →
      contains "--staging_location" text = true)).
Proof.
  intros s s'. split.
  - apply (missing_required_field (C:=Sample.Cnone) 5%nat s).
    left. reflexivity.
  - apply (missing_required_field (C:=Sample.C7) 5%nat s').
    right. reflexivity.
Defined.

(** With neither a project nor a staging location. *)
Lemma project_checked_first_witness :
  let s := Sample.start Sample.Cnone (Sample.launch "" "" "" false) in
  ∃ text,
    Execute (C:=Sample.Cnone) 5%nat s = (Ret (Some (errors_New text)), s) ∧
    text = "no Google Cloud project specified. Use --project=<project>" ∧
    contains "--project" text = true ∧
    contains "--staging_location" text = false.
Proof.
  intros s.
  apply (project_checked_first (C:=Sample.Cnone) 5%nat s); reflexivity.
Defined.

(** Two labels, written with white space, parse to the map of the two and
    reach the options; labels with a value that is not a string do not parse,
    and the text of the parse error is in the error returned. *)
Lemma labels_parsed_witness :
  let pairs := [("team", "data"); ("env", "prod")] in
  let s := Sample.start Sample.C7
             (Sample.launch "gs://bucket/staging"
                (Sample.quoted "{'team': 'data', 'env': 'prod'}") "" false) in
  let s' := Sample.start Sample.C7
              (Sample.launch "gs://bucket/staging"
                 (Sample.quoted "{'team': 1}") "" false) in
  let invalid :=
    errorString ("error reading --label flag as JSON: "
                 +:+ "invalid JSON object of strings") in
  Json.denotes (labels (flags s)) pairs ∧
  (∃ opts s1,
     Execute_gather s = (Ret (Success opts), s1) ∧
     Labels opts = Some (Json.to_map pairs) ∧
     Json.to_map pairs !! "team" = Some "data" ∧
     Json.to_map pairs !! "env" = Some "prod" ∧
     ∀ k v, Json.to_map pairs !! k = Some v ↔ (k, v) ∈ pairs) ∧
  (∀ l, ¬ Json.denotes (labels (flags s')) l) ∧
  (∃ s1,
     Execute_gather s' = (Ret (Failure invalid), s1) ∧
     Execute (C:=Sample.C7) 5%nat s' = (Ret (Some invalid), s1)).
Proof.
  intros pairs s s' invalid.
  assert (Hp : gcpopts_Project (Collaborators:=Sample.C7) ≠ "") by discriminate.
  assert (Hwf : Json.denotes (labels (flags s)) pairs).
  { apply decode_object. reflexivity. }
  assert (Hnot : ∀ l, ¬ Json.denotes (labels (flags s')) l).
  { intros l Hl. apply decode_object in Hl. discriminate Hl. }
  assert (Hnd : NoDup pairs.*1).
  { apply NoDup_cons. split; [|apply NoDup_singleton].
    intros Hin. apply elem_of_cons in Hin as [?|Hin]; [done|].
    by apply elem_of_nil in Hin. }
  split; [exact Hwf|]. split; [|split; [exact Hnot|]].
  - assert (Hs : stagingLocation (flags s) ≠ "") by discriminate.
    assert (Hl : labels (flags s) ≠ "") by discriminate.
    destruct (proj1 (proj2 (labels_parsed (C:=Sample.C7) 5%nat s Hp Hs Hl)
                       eq_refl)
                pairs Hwf "gs://bucket/staging/tmp" eq_refl)
      as (opts & s1 & Hg & HL & Hlookup).
    exists opts, s1. split; [exact Hg|]. split; [exact HL|].
    split; [|split; [|exact (Hlookup Hnd)]].
    + apply (Hlookup Hnd). apply elem_of_cons. by left.
    + apply (Hlookup Hnd). apply elem_of_cons. right.
      apply elem_of_cons. by left.
  - assert (Hs : stagingLocation (flags s') ≠ "") by discriminate.
    assert (Hl : labels (flags s') ≠ "") by discriminate.
    destruct (proj2 (proj2 (labels_parsed (C:=Sample.C7) 5%nat s' Hp Hs Hl)
                       eq_refl) Hnot)
      as (err & s1 & Herr & Hg & He).
    injection Herr as <-.
    exists s1. split; [exact Hg|exact He].
Defined.

(** A launch without a temp location gets the joined one; a launch with a
    temp location keeps it. *)
Lemma temp_location_default_witness :
  let s := Sample.start Sample.C7
             (Sample.launch "gs://bucket/staging" "" "" false) in
  let s' := Sample.start Sample.C7
              (Sample.launch "gs://bucket/staging" "" "gs://other/tmp" false) in
  (∃ opts, Execute_gather s = (Ret (Success opts), after_gather s) ∧
           TempLocation opts = "gs://bucket/staging/tmp") ∧
  (∃ opts, Execute_gather s' = (Ret (Success opts), after_gather s') ∧
           TempLocation opts = "gs://other/tmp").
Proof.
  intros s s'.
  assert (Hp : gcpopts_Project (Collaborators:=Sample.C7) ≠ "") by discriminate.
  split.
  - assert (Hs : stagingLocation (flags s) ≠ "") by discriminate.
    destruct (temp_location_default (C:=Sample.C7) s None Hp Hs eq_refl)
      as [Hdefault _].
    exact (Hdefault eq_refl "gs://bucket/staging/tmp" eq_refl).
  - assert (Hs : stagingLocation (flags s') ≠ "") by discriminate.
    destruct (temp_location_default (C:=Sample.C7) s' None Hp Hs eq_refl)
      as [_ Hkept].
    apply Hkept. discriminate.
Defined.

(** Pipeline [0] does not build and pipeline [1] does not marshal. *)
Lemma compilation_failure_witness :
  let s := Sample.start Sample.C7
             (Sample.launch "gs://bucket/staging" "" "" false) in
  let s1 := after_gather s in
  Execute (C:=Sample.C7) 0%nat s =
    (Ret (Some (errorString "empty pipeline")),
     {| flags := flags s1; unique := 0; ticks := 0;
        trace := trace s1 ++ [Build (C:=Sample.C7) 0%nat] |}) ∧
  Execute (C:=Sample.C7) 1%nat s =
    (Ret (Some (errorString "failed to generate model pipeline: bad coder")),
     {| flags := flags s1; unique := 0; ticks := 0;
        trace := trace s1 ++
          [Build (C:=Sample.C7) 1%nat;
           Marshal (C:=Sample.C7) 1%nat "gcr.io/beam/go:latest"] |}).
Proof.
  intros s s1.
  assert (Hg : Execute_gather s =
               (Ret (Success (Sample.options "proj" None
                                "gs://bucket/staging/tmp")), s1))
    by reflexivity.
  split.
  - destruct (compilation_failure (C:=Sample.C7) 0%nat s s1 _ Hg) as [Hb _].
    exact (Hb _ eq_refl).
  - destruct (compilation_failure (C:=Sample.C7) 1%nat s s1 _ Hg) as [_ Hm].
    exact (Hm _ _ eq_refl eq_refl).
Defined.

(** C6 as the specification states it fails: pipeline [0] does not build,
    and what [Execute] returns is the error of [p.Build()] itself, whose text
    says nothing of the model pipeline; it is not the error that wraps it. *)
Lemma build_error_unwrapped :
  let s := Sample.start Sample.C7
             (Sample.launch "gs://bucket/staging" "" "" false) in
  let cause := errorString "empty pipeline" in
  Pipeline_Build (Collaborators:=Sample.C7) 0%nat = Failure cause ∧
  (Execute (C:=Sample.C7) 0%nat s).1 = Ret (Some cause) ∧
  contains "failed to generate model pipeline" (Error cause) = false ∧
  (Execute (C:=Sample.C7) 0%nat s).1
    ≠ Ret (Some (fmt_Errorf "failed to generate model pipeline: " cause)).
Proof.
  intros s cause. split; [reflexivity|]. split; [reflexivity|].
  split; [reflexivity|]. discriminate.
Qed.

(** Spec ["trace-1"] under prefix ["profiles/run42"]; and an invocation that
    gets no client. *)
Lemma capture_writes_under_prefix_witness :
  let s := Sample.start Sample.C7
             (Sample.launch "gs://bucket/staging" "" "" false) in
  let hook := gcsRecorderHook_func (C:=Sample.C7) "bucket" "profiles/run42" in
  let s1 : state (C:=Sample.C7) :=
    {| flags := flags s; unique := 0; ticks := 0;
       trace := [NewClient (C:=Sample.C7) (Success ());
                 WriteObject (C:=Sample.C7) () "bucket"
                   "profiles/run42/trace-1" "bytes" None] |} in
  hook "trace-1" "bytes" s = (Ret None, s1) ∧
  hook "trace-2" "bytes" s1 =
    (Ret (Some (errorString
                  "couldn't establish GCS client: no credentials")),
     {| flags := flags s; unique := 0; ticks := 0;
        trace := trace s1 ++
          [NewClient (C:=Sample.C7) (Failure (errorString "no credentials"))] |}).
Proof.
  intros s hook s1. split.
  - exact (capture_writes_under_prefix (C:=Sample.C7)
             "bucket" "profiles/run42" "trace-1" "bytes" s).
  - exact (capture_writes_under_prefix (C:=Sample.C7)
             "bucket" "profiles/run42" "trace-2" "bytes" s1).
Defined.

(** A destination that parses, and one that does not. *)
Lemma hook_registration_witness :
  gcsRecorderHook (C:=Sample.C7) ["gs://bucket/profiles/run42"]
    = Ret (gcsRecorderHook_func (C:=Sample.C7) "bucket" "profiles/run42") ∧
  gcsRecorderHook (C:=Sample.C7) ["profiles"; "run42"]
    = Panic "Invalid hook configuration for gcsRecorderHook: [profiles run42]".
Proof.
  split.
  - exact (proj1 (hook_registration (C:=Sample.C7)
                    "gs://bucket/profiles/run42" [])).
  - exact (hook_registration (C:=Sample.C7) "profiles" ["run42"]).
Defined.

(** The second half of a submission of pipeline [5] draws the id [1] and
    sends the two names made from it.  Two goroutines whose lines interleave:
    the second draws its id between the first's draw and the first's
    names. *)
Lemma staging_names_distinct_witness :
  let s := Sample.start Sample.C7
             (Sample.launch "gs://bucket/staging" "" "" false) in
  let o := Sample.options "proj" None "gs://bucket/staging/tmp" in
  (unique (Execute_submit (C:=Sample.C7) 5%nat o s).2 = 1%Z ∧
   Submit (C:=Sample.C7) 5%nat o Sample.worker1 Sample.model1 "" false
     (Success 7%nat)
     ∈ calls_of (Execute_submit (C:=Sample.C7) 5%nat o) s ∧
   run (C:=Sample.C7) [0; 0; 0] (spawn 1 s) =
     Ret {| shared := {| flags := flags s; unique := 1; ticks := 2;
                         trace := [] |};
            goroutines := [Named 1 Sample.model1 Sample.worker1] |}) ∧
  ∃ pr,
    run (C:=Sample.C7) [0; 1; 1; 0; 0; 1] (spawn 2 s) = Ret pr ∧
    goroutines pr =
      [Named 1 "gs://bucket/staging/model-1-1500000000000000001"
         "gs://bucket/staging/worker-1-1500000000000000002";
       Named 2 "gs://bucket/staging/model-2-1500000000000000000"
         "gs://bucket/staging/worker-2-1500000000000000003"] ∧
    1%Z ≠ 2%Z ∧
    NoDup ["gs://bucket/staging/model-1-1500000000000000001";
           "gs://bucket/staging/worker-1-1500000000000000002";
           "gs://bucket/staging/model-2-1500000000000000000";
           "gs://bucket/staging/worker-2-1500000000000000003"].
Proof.
  intros s o.
  destruct (staging_names_distinct (C:=Sample.C7))
    as (Hruns & _ & Hdistinct & _).
  split.
  - destruct (Hruns 5%nat o s 5%nat 5%nat Sample.model1 Sample.worker1
                eq_refl eq_refl eq_refl eq_refl)
      as (Hu & _ & Hsent & Halone).
    split; [exact Hu|]. split; [exact Hsent|exact Halone].
  - eexists. split; [reflexivity|]. split; [reflexivity|].
    eapply (Hdistinct 2 [0; 1; 1; 0; 0; 1] s) with (i := 0) (j := 1).
    + simpl. lia.
    + exact (Sample_join_names "proj" 7 "gs://bucket/staging").
    + reflexivity.
    + lia.
    + reflexivity.
    + reflexivity.
Defined.

(** * The further properties at work on the sample collaborators *)

(** The calls of the sample submission of pipeline [5]. *)
Lemma Sample_submission_calls :
  calls_of (Execute (C:=Sample.C7) 5%nat)
    (Sample.start Sample.C7 (Sample.launch "gs://bucket/staging" "" "" false))
  = [GetContainerImage; SerializeHooksToOptions; Build (C:=Sample.C7) 5%nat;
     Marshal (C:=Sample.C7) 5%nat "gcr.io/beam/go:latest";
     Submit (C:=Sample.C7) 5%nat
       (Sample.options "proj" None "gs://bucket/staging/tmp")
       Sample.worker1 Sample.model1 "" false (Success 7%nat)].
Proof. reflexivity. Qed.

(** The job the sample submission sends has passed the checks. *)
Lemma handed_job_is_validated_witness :
  let s := Sample.start Sample.C7
             (Sample.launch "gs://bucket/staging" "" "" false) in
  let o := Sample.options "proj" None "gs://bucket/staging/tmp" in
  Submit (C:=Sample.C7) 5%nat o Sample.worker1 Sample.model1 "" false
    (Success 7%nat) ∈ calls_of (Execute (C:=Sample.C7) 5%nat) s ∧
  Project o = gcpopts_Project (Collaborators:=Sample.C7) ∧
  ∃ edges,
    Pipeline_Build (Collaborators:=Sample.C7) 5%nat = Success edges ∧
    graphx_Marshal (Collaborators:=Sample.C7) edges
      (resolved_image (C:=Sample.C7) (flags s)) = Success 5%nat.
Proof.
  intros s o.
  assert (Hin : Submit (C:=Sample.C7) 5%nat o Sample.worker1 Sample.model1 ""
                  false (Success 7%nat)
                ∈ calls_of (Execute (C:=Sample.C7) 5%nat) s).
  { unfold s. rewrite Sample_submission_calls. rewrite !elem_of_cons. auto 10. }
  split; [exact Hin|].
  destruct (handed_job_is_validated (C:=Sample.C7) 5%nat s 5%nat o
              Sample.worker1 Sample.model1)
    as (_ & _ & Hproject & _ & Hmodel).
  { right. by exists "", false, (Success 7%nat). }
  split; [exact Hproject | exact Hmodel].
Defined.

(** The calls of the sample submission with [--min_cpu_platform=v2]. *)
Lemma Sample_tuned_calls :
  calls_of (Execute (C:=Sample.C7) 5%nat)
    (Sample.start Sample.C7 (Sample.tuned "v2" "" "" false))
  = [GetContainerImage; SerializeHooksToOptions; Build (C:=Sample.C7) 5%nat;
     Marshal (C:=Sample.C7) 5%nat "gcr.io/beam/go:latest";
     Submit (C:=Sample.C7) 5%nat
       (Sample.tuned_options ["beam_fn_api"; "min_cpu_platform=v2"])
       Sample.worker1 Sample.model1 "" false (Success 7%nat)].
Proof. reflexivity. Qed.

(** With [--min_cpu_platform=v2] the last experiment sent is that one. *)
Lemma min_cpu_platform_appended_witness :
  let s := Sample.start Sample.C7 (Sample.tuned "v2" "" "" false) in
  let o := Sample.tuned_options ["beam_fn_api"; "min_cpu_platform=v2"] in
  Submit (C:=Sample.C7) 5%nat o Sample.worker1 Sample.model1 "" false
    (Success 7%nat) ∈ calls_of (Execute (C:=Sample.C7) 5%nat) s ∧
  last (Experiments o) = Some "min_cpu_platform=v2".
Proof.
  intros s o.
  assert (Hin : Submit (C:=Sample.C7) 5%nat o Sample.worker1 Sample.model1 ""
                  false (Success 7%nat)
                ∈ calls_of (Execute (C:=Sample.C7) 5%nat) s).
  { unfold s. rewrite Sample_tuned_calls. rewrite !elem_of_cons. auto 10. }
  split; [exact Hin|].
  destruct (min_cpu_platform_appended (C:=Sample.C7) 5%nat s 5%nat o
              Sample.worker1 Sample.model1) as [_ Hset].
  { right. by exists "", false, (Success 7%nat). }
  apply Hset. discriminate.
Defined.

(** The first run resolves the image; a second run does not ask again. *)
Lemma image_resolved_once_witness :
  let s := Sample.start Sample.C7
             (Sample.launch "gs://bucket/staging" "" "" false) in
  flags (Execute (C:=Sample.C7) 5%nat s).2
    = set_image "gcr.io/beam/go:latest" (flags s) ∧
  GetContainerImage ∈ calls_of (Execute (C:=Sample.C7) 5%nat) s ∧
  GetContainerImage
    ∉ calls_of (Execute (C:=Sample.C7) 5%nat) (Execute (C:=Sample.C7) 5%nat s).2.
Proof.
  intros s.
  assert (Hp : gcpopts_Project (Collaborators:=Sample.C7) ≠ "") by discriminate.
  assert (Hs : stagingLocation (flags s) ≠ "") by discriminate.
  destruct (image_resolved_once (C:=Sample.C7) 5%nat s Hp Hs)
    as (Hflags & Hasked & _ & Honce).
  split; [exact Hflags|]. split.
  - apply Hasked. reflexivity.
  - apply Honce. discriminate.
Defined.

(** The calls of the sample submission with a profile destination. *)
Lemma Sample_profiled_calls :
  calls_of (Execute (C:=Sample.C7) 5%nat)
    (Sample.start Sample.C7
       (Sample.tuned "" "gs://bucket/profiles/run42" "" false))
  = [GetContainerImage;
     EnableProfCaptureHook "gcs_profile_writer" "gs://bucket/profiles/run42";
     SerializeHooksToOptions; Build (C:=Sample.C7) 5%nat;
     Marshal (C:=Sample.C7) 5%nat "gcr.io/beam/go:latest";
     Submit (C:=Sample.C7) 5%nat (Sample.tuned_options ["beam_fn_api"])
       Sample.worker1 Sample.model1 "" false (Success 7%nat)].
Proof. reflexivity. Qed.

(** With a profile destination: enable, serialize, then build. *)
Lemma hooks_serialized_before_build_witness :
  let s := Sample.start Sample.C7
             (Sample.tuned "" "gs://bucket/profiles/run42" "" false) in
  let l := calls_of (Execute (C:=Sample.C7) 5%nat) s in
  Build (C:=Sample.C7) 5%nat ∈ l ∧
  length (filter (λ ev, is_SerializeHooksToOptions ev = true) l) = 1 ∧
  EnableProfCaptureHook "gcs_profile_writer" "gs://bucket/profiles/run42"
    ∈ l ∧
  all_before is_EnableProfCaptureHook is_SerializeHooksToOptions l ∧
  all_before is_gather_call is_submit_call l.
Proof.
  intros s l.
  assert (Hin : Build (C:=Sample.C7) 5%nat ∈ l).
  { unfold l, s. rewrite Sample_profiled_calls. rewrite !elem_of_cons.
    auto 10. }
  split; [exact Hin|].
  destruct (hooks_serialized_before_build (C:=Sample.C7) 5%nat s Hin)
    as (Honce & Henabled & Hfirst & Hthen).
  split; [exact Honce|]. split; [|split; [exact Hfirst|exact Hthen]].
  apply Henabled. discriminate.
Defined.

(** The hook enabled for the sample destination is the registered one. *)
Lemma enabled_hook_is_registered_witness :
  let s := Sample.start Sample.C7
             (Sample.tuned "" "gs://bucket/profiles/run42" "" false) in
  let opt := "gs://bucket/profiles/run42" in
  EnableProfCaptureHook "gcs_profile_writer" opt
    ∈ calls_of (Execute (C:=Sample.C7) 5%nat) s ∧
  ∃ factory,
    RegisterProfCaptureHook "gcs_profile_writer" factory ∈ init (C:=Sample.C7) ∧
    factory [opt] = Ret (gcsRecorderHook_func "bucket" "profiles/run42").
Proof.
  intros s opt.
  assert (Hin : EnableProfCaptureHook "gcs_profile_writer" opt
                ∈ calls_of (Execute (C:=Sample.C7) 5%nat) s).
  { unfold s. rewrite Sample_profiled_calls. rewrite !elem_of_cons. auto 10. }
  split; [exact Hin|].
  destruct (enabled_hook_is_registered (C:=Sample.C7) 5%nat s
              "gcs_profile_writer" opt Hin) as (_ & _ & Hfactory).
  exact Hfactory.
Defined.

(** The calls of a run whose pipeline does not build. *)
Lemma Sample_unbuilt_calls :
  calls_of (Execute (C:=Sample.C7) 0%nat)
    (Sample.start Sample.C7 (Sample.launch "gs://bucket/staging" "" "" false))
  = [GetContainerImage; SerializeHooksToOptions; Build (C:=Sample.C7) 0%nat].
Proof. reflexivity. Qed.

(** Pipeline [5] draws an id; pipeline [0], which does not build, draws
    none. *)
Lemma counter_advances_with_model_witness :
  let s := Sample.start Sample.C7
             (Sample.launch "gs://bucket/staging" "" "" false) in
  unique (Execute (C:=Sample.C7) 5%nat s).2 = 1%Z ∧
  unique (Execute (C:=Sample.C7) 0%nat s).2 = 0%Z.
Proof.
  intros s. split.
  - apply (counter_advances_with_model (C:=Sample.C7) 5%nat s).
    exists 5%nat, "gcr.io/beam/go:latest", 5%nat. split; [|reflexivity].
    unfold s. rewrite Sample_submission_calls. rewrite !elem_of_cons. auto 10.
  - apply (counter_advances_with_model (C:=Sample.C7) 0%nat s).
    intros (edges & img & model & Hin & _). revert Hin.
    unfold s. rewrite Sample_unbuilt_calls. rewrite !elem_of_cons.
    intros [?|[?|[?|Hnil]]]; [done..|]. by apply elem_of_nil in Hnil.
Defined.

(** The calls of a second submission of pipeline [5]: the image is
    resolved by then. *)
Lemma Sample_second_calls :
  calls_of (Execute (C:=Sample.C7) 5%nat)
    (Execute (C:=Sample.C7) 5%nat
       (Sample.start Sample.C7
          (Sample.launch "gs://bucket/staging" "" "" false))).2
  = [SerializeHooksToOptions; Build (C:=Sample.C7) 5%nat;
     Marshal (C:=Sample.C7) 5%nat "gcr.io/beam/go:latest";
     Submit (C:=Sample.C7) 5%nat
       (Sample.options "proj" None "gs://bucket/staging/tmp")
       Sample.worker2 Sample.model2 "" false (Success 7%nat)].
Proof. reflexivity. Qed.

(** Two submissions of pipeline [5] in a row. *)
Lemma successive_runs_distinct_witness :
  NoDup [Sample.model1; Sample.worker1; Sample.model2; Sample.worker2].
Proof.
  set (s := Sample.start Sample.C7
              (Sample.launch "gs://bucket/staging" "" "" false)).
  set (o := Sample.options "proj" None "gs://bucket/staging/tmp").
  apply (successive_runs_distinct (C:=Sample.C7) [5%nat; 5%nat] s 0 1
           5%nat 5%nat).
  - simpl. lia.
  - exact (Sample_join_names "proj" 7 "gs://bucket/staging").
  - lia.
  - reflexivity.
  - reflexivity.
  - exists 5%nat, o. right. exists "", false, (Success 7%nat).
    cbn [Executes take].
    unfold s. rewrite Sample_submission_calls. rewrite !elem_of_cons. auto 10.
  - exists 5%nat, o. right. exists "", false, (Success 7%nat).
    cbn [Executes take].
    unfold s. rewrite Sample_second_calls. rewrite !elem_of_cons. auto 10.
Defined.

(** With and without [--session_recording]. *)
Lemma session_recording_ignored_witness :
  let s := Sample.start Sample.C7 (Sample.tuned "" "" "" false) in
  let s' := Sample.start Sample.C7 (Sample.tuned "" "" "/tmp/session" false) in
  alike but_sessionRecording s s' ∧
  (Execute (C:=Sample.C7) 5%nat s).1 = (Execute (C:=Sample.C7) 5%nat s').1 ∧
  calls_of (Execute (C:=Sample.C7) 5%nat) s
    = calls_of (Execute (C:=Sample.C7) 5%nat) s' ∧
  alike but_sessionRecording (Execute (C:=Sample.C7) 5%nat s).2
    (Execute (C:=Sample.C7) 5%nat s').2.
Proof.
  intros s s'.
  assert (Hs : alike but_sessionRecording s s').
  { split; [|by repeat split]. repeat split; reflexivity. }
  split; [exact Hs|].
  exact (session_recording_ignored (C:=Sample.C7) 5%nat s s' Hs).
Defined.

(** The calls of the sample dry run of pipeline [5]. *)
Lemma Sample_dry_calls :
  calls_of (Execute (C:=Sample.C7) 5%nat)
    (Sample.start Sample.C7 (Sample.tuned "" "" "" true))
  = [GetContainerImage; SerializeHooksToOptions; Build (C:=Sample.C7) 5%nat;
     Marshal (C:=Sample.C7) 5%nat "gcr.io/beam/go:latest";
     LogInfo "Dry-run: not submitting job!"; LogInfo "components: <>";
     Translate (C:=Sample.C7) 5%nat (Sample.tuned_options ["beam_fn_api"])
       Sample.worker1 Sample.model1;
     PrintJob (C:=Sample.C7) "job"].
Proof. reflexivity. Qed.

(** The sample dry run translates what the sample submission sends. *)
Lemma dry_run_shows_the_submission_witness :
  let s := Sample.start Sample.C7 (Sample.tuned "" "" "" true) in
  let s' := Sample.start Sample.C7 (Sample.tuned "" "" "" false) in
  let o := Sample.tuned_options ["beam_fn_api"] in
  alike but_dryRun s s' ∧
  Translate (C:=Sample.C7) 5%nat o Sample.worker1 Sample.model1
    ∈ calls_of (Execute (C:=Sample.C7) 5%nat) s ∧
  Submit (C:=Sample.C7) 5%nat o Sample.worker1 Sample.model1 "" false
    (Success 7%nat) ∈ calls_of (Execute (C:=Sample.C7) 5%nat) s'.
Proof.
  intros s s' o.
  assert (Hs : alike but_dryRun s s').
  { split; [|by repeat split]. repeat split; reflexivity. }
  assert (Hin : Translate (C:=Sample.C7) 5%nat o Sample.worker1 Sample.model1
                ∈ calls_of (Execute (C:=Sample.C7) 5%nat) s).
  { unfold s. rewrite Sample_dry_calls. rewrite !elem_of_cons. auto 10. }
  split; [exact Hs|]. split; [exact Hin|].
  exact (proj1 (dry_run_shows_the_submission (C:=Sample.C7) 5%nat s s' 5%nat o
                  Sample.worker1 Sample.model1 Hs eq_refl eq_refl) Hin).
Defined.

(** The sample submission returns nil, and its last call is the
    submission answered with a job. *)
Lemma nil_means_done_witness :
  let s := Sample.start Sample.C7
             (Sample.launch "gs://bucket/staging" "" "" false) in
  (Execute (C:=Sample.C7) 5%nat s).1 = Ret None ∧
  ∃ model o workerURL modelURL endpoint result,
    last (calls_of (Execute (C:=Sample.C7) 5%nat) s)
      = Some (Submit (C:=Sample.C7) model o workerURL modelURL endpoint false
                (Success result)).
Proof.
  intros s. split; [reflexivity|].
  exact (nil_means_done (C:=Sample.C7) 5%nat s eq_refl).
Defined.

(** Two captures in a row, the second left without a client. *)
Lemma captures_are_independent_witness :
  let s := Sample.start Sample.C7
             (Sample.launch "gs://bucket/staging" "" "" false) in
  let hook := gcsRecorderHook_func (C:=Sample.C7) "bucket" "profiles/run42" in
  let inputs : list (string * Reader (Collaborators:=Sample.C7)) :=
    [("trace-1", "first"); ("trace-2", "second")] in
  (captures hook inputs s).1 =
    Ret [None;
         Some (errorString "couldn't establish GCS client: no credentials")] ∧
  length (filter (λ ev, is_NewClient ev = true)
            (calls_of (captures hook inputs) s)) = 2 ∧
  Forall (writes_under "bucket" "profiles/run42" inputs)
    (calls_of (captures hook inputs) s).
Proof.
  intros s hook inputs. split; [reflexivity|].
  destruct (captures_are_independent (C:=Sample.C7) "bucket" "profiles/run42"
              inputs s) as (_ & _ & _ & _ & Hone & _ & Hwrites).
  split; [exact Hone | exact Hwrites].
Defined.

(** The refusal of pipeline [3] is the error of its submission. *)
Lemma error_sources_witness :
  let s := Sample.start Sample.C7
             (Sample.launch "gs://bucket/staging" "" "" false) in
  let e := collaboratorError "*googleapi.Error" "403" in
  (Execute (C:=Sample.C7) 3%nat s).1 = Ret (Some e) ∧
  ∃ model o workerURL modelURL endpoint,
    Submit (C:=Sample.C7) model o workerURL modelURL endpoint false
      (Failure e) ∈ calls_of (Execute (C:=Sample.C7) 3%nat) s.
Proof.
  intros s e.
  assert (Herr : (Execute (C:=Sample.C7) 3%nat s).1 = Ret (Some e))
    by reflexivity.
  split; [exact Herr|].
  destruct (error_sources (C:=Sample.C7) 3%nat s e Herr)
    as [[H _]|[[H _]|[(c & H & _)|[H|[(ed & c & _ & _ & H)|[[H _]|[_ H]]]]]]];
    try discriminate H.
  exact H.
Defined.

(** A negative id and a negative reading of the clock. *)
Lemma object_names_unambiguous_witness :
  objectName "model-" (-1) 5 = "model--1-5" ∧
  objectName "model-" 1 (-5) = "model-1--5" ∧
  objectName "model-" (-1) 5 ≠ objectName "model-" 1 (-5).
Proof.
  split; [reflexivity|]. split; [reflexivity|].
  assert (Hkind : "model-" ∈ ["model-"; "worker-"])
    by (apply elem_of_cons; by left).
  intros Heq.
  apply (object_names_unambiguous "model-" "model-" (-1) 5 1 (-5) Hkind Hkind)
    in Heq as (_ & Hid & _).
  discriminate Hid.
Defined.
